(** * RotatingSphere: the geometry, terrain, physics and import core

    A shallow embedding of the code of the demo programs

      - [src/main.cpp]                  (module [Main]: the rolling-ball game),
      - [src/load_obj_model.cpp]        (module [ObjModel]: the OBJ house viewer),
      - [model_rendering_viewport.cpp]  (module [Viewport]: the orbit camera),

    together with the properties of the specification that concern them.

    ** Number model

    The C++ type [float] is an interface here ([FloatOps]); every function
    of the programs is written once, against that interface, and read at
    two instances:

      - [Q_ops]: exact rational arithmetic.  No rounding, no overflow, no
        NaN.  Properties about ordering, clamping and control flow are
        proved at this instance; the clamps of the ball and of the camera
        are proved at the binary32 instance as well.
      - [F32_ops]: IEEE-754 binary32 ([spec_float] at precision 24, emax
        128, round to nearest even), the arithmetic the compiled programs
        run.  Properties that speak about NaN are proved at this instance,
        and the concrete inputs on which a property fails are also
        evaluated at it.

    The functions of libm that have no closed form in either model
    ([sqrt] over Q, [sin] and [cos] in both) are arguments of the
    instances: what is proved holds whatever they return.

    C++ [int] is [Z].  None of the index computations below leaves the
    32-bit range for the sizes the programs use (a cylinder of [n] segments
    needs [2 * n + 1 < 2^31]). *)

From Stdlib Require Import ZArith QArith Qabs Qminmax Lia Lqa List Bool String Ascii.
From Stdlib Require Import Floats.SpecFloat.
Import ListNotations.

Set Implicit Arguments.
Open Scope Z_scope.

(** ** The [float] interface *)

Class FloatOps (F : Type) : Type := {
  fadd : F -> F -> F;
  fsub : F -> F -> F;
  fmul : F -> F -> F;
  fdiv : F -> F -> F;
  fneg : F -> F;
  fabs : F -> F;
  sqrt : F -> F;
  sin : F -> F;
  cos : F -> F;
  fmod : F -> F -> F;
  (** [flt a b] is the C++ test [a < b], [fle a b] is [a <= b] *)
  flt : F -> F -> bool;
  fle : F -> F -> bool;
  (** [feq a b] is [a == b] *)
  feq : F -> F -> bool;
  (** a decimal literal such as [0.0001f], given as a fraction *)
  flit : Q -> F;
  (** the implicit conversion [int -> float] *)
  of_int : Z -> F;
  (** [static_cast<int>]: truncation toward zero.  A value that does not
      fit an [int] is undefined in C++ (x86 answers [INT_MIN]); the
      instances answer the truncated integer, resp. [2^31] for an infinity
      or a NaN, and the one use below, in [Terrain::getHeight], sends all of
      these to its "outside the grid" branch, as [INT_MIN] does. *)
  to_int : F -> Z
}.

Declare Scope float_scope.
Delimit Scope float_scope with flt.
Notation "a [+] b" := (fadd a b) (at level 50, left associativity) : float_scope.
Notation "a [-] b" := (fsub a b) (at level 50, left associativity) : float_scope.
Notation "a [*] b" := (fmul a b) (at level 40, left associativity) : float_scope.
Notation "a [/] b" := (fdiv a b) (at level 40, left associativity) : float_scope.
Notation "[-] a" := (fneg a) (at level 35, right associativity) : float_scope.
Notation "a [<] b" := (flt a b) (at level 70, no associativity) : float_scope.
Notation "a [>] b" := (flt b a) (at level 70, no associativity, only parsing) : float_scope.
Notation "a [<=] b" := (fle a b) (at level 70, no associativity) : float_scope.
Notation "a [>=] b" := (fle b a) (at level 70, no associativity, only parsing) : float_scope.
Notation "a [==] b" := (feq a b) (at level 70, no associativity) : float_scope.

(** [std::max], [std::min] on floats *)
Definition std_max {F : Type} {FO : FloatOps F} (a b : F) : F := if flt a b then b else a.
Definition std_min {F : Type} {FO : FloatOps F} (a b : F) : F := if flt b a then b else a.

Definition INT_MIN : Z := - 2 ^ 31.
Definition INT_MAX : Z := 2 ^ 31 - 1.

(** *** Exact instance *)

Definition Qltb (a b : Q) : bool := negb (Qle_bool b a).

Definition Qtrunc (q : Q) : Z := Z.quot (Qnum q) (Zpos (Qden q)).

(** C [fmod]: [a - b * trunc (a / b)], the sign follows [a]. *)
Definition Qfmod (a b : Q) : Q := (a - b * inject_Z (Qtrunc (a / b)))%Q.

Definition Q_ops (qsqrt qsin qcos : Q -> Q) : FloatOps Q := {|
  fadd := Qplus;
  fsub := Qminus;
  fmul := Qmult;
  fdiv := Qdiv;
  fneg := Qopp;
  fabs := Qabs;
  sqrt := qsqrt;
  sin := qsin;
  cos := qcos;
  fmod := Qfmod;
  flt := Qltb;
  fle := Qle_bool;
  feq := Qeq_bool;
  flit := fun q => q;
  of_int := inject_Z;
  to_int := Qtrunc
|}.

(** *** binary32 instance *)

Definition f32 : Type := spec_float.

Definition prec32 : Z := 24.
Definition emax32 : Z := 128.

Definition f32_of_Z (n : Z) : f32 := binary_normalize prec32 emax32 n 0 false.

(** The literal [n/d] is the float nearest to the fraction: both [n] and
    [d] of every literal of the programs are below [2^24], hence exact, and
    the division rounds once. *)
Definition f32_lit (q : Q) : f32 :=
  SFdiv prec32 emax32 (f32_of_Z (Qnum q)) (f32_of_Z (Zpos (Qden q))).

Definition f32_trunc (a : f32) : Z :=
  match a with
  | S754_zero _ => 0
  | S754_finite s m e =>
      cond_Zopp s (match e with
                   | Zneg p => Z.shiftr (Zpos m) (Zpos p)
                   | _ => Z.shiftl (Zpos m) e
                   end)
  | S754_infinity _ | S754_nan => 2 ^ 31
  end.

(** C [fmod] on binary32: the remainder is computed on the two mantissas
    brought to the smaller exponent, and is always representable. *)
Definition f32_fmod (a b : f32) : f32 :=
  match a, b with
  | S754_nan, _ | _, S754_nan => S754_nan
  | S754_infinity _, _ => S754_nan
  | _, S754_zero _ => S754_nan
  | S754_zero _, _ => a
  | S754_finite _ _ _, S754_infinity _ => a
  | S754_finite sa ma ea, S754_finite _ mb eb =>
      let e := Z.min ea eb in
      let na := Z.shiftl (Zpos ma) (ea - e) in
      let nb := Z.shiftl (Zpos mb) (eb - e) in
      binary_normalize prec32 emax32 (cond_Zopp sa (Z.rem na nb)) e sa
  end.

Definition F32_ops (sin32 cos32 : f32 -> f32) : FloatOps f32 := {|
  fadd := SFadd prec32 emax32;
  fsub := SFsub prec32 emax32;
  fmul := SFmul prec32 emax32;
  fdiv := SFdiv prec32 emax32;
  fneg := SFopp;
  fabs := SFabs;
  sqrt := SFsqrt prec32 emax32;
  sin := sin32;
  cos := cos32;
  fmod := f32_fmod;
  flt := SFltb;
  fle := SFleb;
  feq := SFeqb;
  flit := f32_lit;
  of_int := f32_of_Z;
  to_int := f32_trunc
|}.

Definition is_nan (a : f32) : bool :=
  match a with S754_nan => true | _ => false end.

(** neither an infinity nor a NaN *)
Definition is_finite (a : f32) : bool :=
  match a with S754_zero _ | S754_finite _ _ _ => true | _ => false end.

(** ** Loops, arrays and the random source *)

(** [for (int i = lo; i < hi; i++) s = body i s] *)
Fixpoint for_loop {S : Type} (n : nat) (i : Z) (body : Z -> S -> S) (s : S) : S :=
  match n with
  | O => s
  | Datatypes.S n' => for_loop n' (i + 1) body (body i s)
  end.

Definition for_range {S : Type} (lo hi : Z) (body : Z -> S -> S) (s : S) : S :=
  for_loop (Z.to_nat (hi - lo)) lo body s.

(** [a[i]] on a [std::vector] or a C array.  The programs do not check the
    index; a read outside the array is undefined in C++ and gives [d]
    here, and every use below says why it cannot happen or returns an
    explicit error instead. *)
Definition arr_get {A : Type} (d : A) (a : list A) (i : Z) : A :=
  if (i <? 0)%Z then d else nth (Z.to_nat i) a d.

Fixpoint arr_set_nat {A : Type} (a : list A) (i : nat) (v : A) : list A :=
  match a, i with
  | [], _ => []
  | _ :: r, O => v :: r
  | h :: r, Datatypes.S i' => h :: arr_set_nat r i' v
  end.

(** [a[i] = v] *)
Definition arr_set {A : Type} (a : list A) (i : Z) (v : A) : list A :=
  if (i <? 0)%Z then a else arr_set_nat a (Z.to_nat i) v.

(** [v.push_back(e)] *)
Definition push_back {A : Type} (v : list A) (e : A) : list A := v ++ [e].

(** [v.back()] of a vector; undefined on an empty one, [d] here. *)
Definition back {A : Type} (d : A) (v : list A) : A := last v d.

(** The global generator [gen] with its distribution [dis] (a float in
    [0, 1)), and libc's [rand()].  A call consumes the generator state. *)
Class Random (F R : Type) : Type := {
  dis : R -> F * R;
  rand : R -> Z * R
}.

(** * [src/main.cpp] *)

Module Main.

Module Vec3.
Section Defs.
Context {F : Type} {FO : FloatOps F}.
Local Open Scope float_scope.

Record t : Type := mk { x : F; y : F; z : F }.

(** [Vec3()] *)
Definition zero : t := mk (of_int 0) (of_int 0) (of_int 0).

Definition add (a other : t) : t :=
  mk (x a [+] x other) (y a [+] y other) (z a [+] z other).
Definition sub (a other : t) : t :=
  mk (x a [-] x other) (y a [-] y other) (z a [-] z other).
Definition mul (a : t) (scalar : F) : t :=
  mk (x a [*] scalar) (y a [*] scalar) (z a [*] scalar).
Definition div (a : t) (scalar : F) : t :=
  if fabs scalar [>] flit (1 # 10000)
  then mk (x a [/] scalar) (y a [/] scalar) (z a [/] scalar)
  else mk (of_int 0) (of_int 0) (of_int 0).
Definition neg (a : t) : t := mk ([-] x a) ([-] y a) ([-] z a).

Definition length (a : t) : F := sqrt (x a [*] x a [+] y a [*] y a [+] z a [*] z a).
Definition lengthSquared (a : t) : F := x a [*] x a [+] y a [*] y a [+] z a [*] z a.
Definition normalize (a : t) : t :=
  let l := length a in
  if l [>] flit (1 # 10000) then div a l
  else mk (of_int 0) (of_int 1) (of_int 0).

Definition dot (a b : t) : F := x a [*] x b [+] y a [*] y b [+] z a [*] z b.
Definition cross (a b : t) : t :=
  mk (y a [*] z b [-] z a [*] y b)
     (z a [*] x b [-] x a [*] z b)
     (x a [*] y b [-] y a [*] x b).
Definition lerp (a b : t) (s : F) : t :=
  add (mul a (flit 1 [-] s)) (mul b s).

Definition set_x (a : t) (v : F) : t := mk v (y a) (z a).
Definition set_y (a : t) (v : F) : t := mk (x a) v (z a).
Definition set_z (a : t) (v : F) : t := mk (x a) (y a) v.
End Defs.
Arguments t : clear implicits.
End Vec3.

Module Vertex.
Section Defs.
Context {F : Type}.
Record t : Type := mk { position : Vec3.t F; normal : Vec3.t F; color : Vec3.t F }.
End Defs.
Arguments t : clear implicits.
End Vertex.

Module Mesh.
Section Defs.
Context {F : Type}.
(** [indices] holds [unsigned int]; [VAO], [VBO], [EBO] are the buffer
    handles, 0 until [setupBuffers] runs. *)
Record t : Type := mk {
  vertices : list (Vertex.t F);
  indices : list Z;
  VAO : Z; VBO : Z; EBO : Z
}.
(** [Mesh()] *)
Definition empty : t := mk [] [] 0 0 0.
Definition push_vertex (m : t) (v : Vertex.t F) : t :=
  mk (push_back (vertices m) v) (indices m) (VAO m) (VBO m) (EBO m).
Definition push_index (m : t) (i : Z) : t :=
  mk (vertices m) (push_back (indices m) i) (VAO m) (VBO m) (EBO m).
Definition assign_indices (m : t) (l : list Z) : t :=
  mk (vertices m) l (VAO m) (VBO m) (EBO m).
End Defs.
Arguments t : clear implicits.
End Mesh.

Module Mat4.
Section Defs.
Context {F : Type} {FO : FloatOps F}.
Local Open Scope float_scope.

(** [float m[16]] *)
Definition t : Type := list F.

Definition get (a : t) (i : Z) : F := arr_get (of_int 0) a i.

(** [Mat4()]: sixteen zeros, then ones on the diagonal *)
Definition new : t :=
  let m := for_range 0 16 (fun i m => arr_set m i (flit 0)) (repeat (of_int 0) 16) in
  let m := arr_set m 15 (flit 1) in
  let m := arr_set m 10 (flit 1) in
  let m := arr_set m 5 (flit 1) in
  arr_set m 0 (flit 1).

(** [operator*] *)
Definition mul (a other : t) : t :=
  for_range 0 4 (fun i result =>
    for_range 0 4 (fun j result =>
      let result := arr_set result (i * 4 + j) (flit 0) in
      for_range 0 4 (fun k result =>
        arr_set result (i * 4 + j)
          (get result (i * 4 + j) [+] get a (i * 4 + k) [*] get other (k * 4 + j)))
        result)
      result)
    new.

Definition identity : t :=
  let result := new in
  let result := for_range 0 16 (fun i m => arr_set m i (flit 0)) result in
  let result := arr_set result 15 (flit 1) in
  let result := arr_set result 10 (flit 1) in
  let result := arr_set result 5 (flit 1) in
  arr_set result 0 (flit 1).
(** [translate], [scale] and the rotations start from [identity()] and
    overwrite a few entries *)
Definition translate (x y z : F) : t :=
  let result := identity in
  let result := arr_set result 12 x in
  let result := arr_set result 13 y in
  arr_set result 14 z.

Definition scale (x y z : F) : t :=
  let result := identity in
  let result := arr_set result 0 x in
  let result := arr_set result 5 y in
  arr_set result 10 z.

Definition rotateX (angle : F) : t :=
  let result := identity in
  let c := cos angle in
  let s := sin angle in
  let result := arr_set result 5 c in
  let result := arr_set result 6 s in
  let result := arr_set result 9 ([-] s) in
  arr_set result 10 c.

Definition rotateY (angle : F) : t :=
  let result := identity in
  let c := cos angle in
  let s := sin angle in
  let result := arr_set result 0 c in
  let result := arr_set result 2 ([-] s) in
  let result := arr_set result 8 s in
  arr_set result 10 c.

Definition rotateZ (angle : F) : t :=
  let result := identity in
  let c := cos angle in
  let s := sin angle in
  let result := arr_set result 0 c in
  let result := arr_set result 1 s in
  let result := arr_set result 4 ([-] s) in
  arr_set result 5 c.

Definition lookAt (eye center up : Vec3.t F) : t :=
  let result := new in
  let f := Vec3.normalize (Vec3.sub center eye) in
  let s := Vec3.normalize (Vec3.cross f up) in
  let u := Vec3.cross s f in
  let result := arr_set result 0 (Vec3.x s) in
  let result := arr_set result 1 (Vec3.x u) in
  let result := arr_set result 2 ([-] Vec3.x f) in
  let result := arr_set result 3 (flit 0) in
  let result := arr_set result 4 (Vec3.y s) in
  let result := arr_set result 5 (Vec3.y u) in
  let result := arr_set result 6 ([-] Vec3.y f) in
  let result := arr_set result 7 (flit 0) in
  let result := arr_set result 8 (Vec3.z s) in
  let result := arr_set result 9 (Vec3.z u) in
  let result := arr_set result 10 ([-] Vec3.z f) in
  let result := arr_set result 11 (flit 0) in
  let result := arr_set result 12 ([-] Vec3.dot s eye) in
  let result := arr_set result 13 ([-] Vec3.dot u eye) in
  let result := arr_set result 14 (Vec3.dot f eye) in
  arr_set result 15 (flit 1).

(** What the vertex shader does with a matrix and a point:
    [vec3(model * vec4(aPos, 1.0))].  [setShaderMat4] hands the sixteen
    floats to [glUniformMatrix4fv] without transposition, so the shader
    reads [m[4 * c + r]] as the entry of row [r] and column [c].  GLSL
    leaves the order of the four additions open; they go left to right
    here. *)
Definition transform (m : t) (aPos : Vec3.t F) : Vec3.t F :=
  let row r := get m r [*] Vec3.x aPos [+] get m (4 + r) [*] Vec3.y aPos
               [+] get m (8 + r) [*] Vec3.z aPos [+] get m (12 + r) [*] flit 1 in
  Vec3.mk (row 0) (row 1) (row 2).
End Defs.
Arguments t : clear implicits.
End Mat4.

Module MetaBall.
Section Defs.
Context {F : Type} {FO : FloatOps F}.
Local Open Scope float_scope.

Record t : Type := mk {
  position : Vec3.t F;
  velocity : Vec3.t F;
  acceleration : Vec3.t F;
  radius : F;
  color : Vec3.t F;
  rotationAngle : F;
  rotationSpeed : F;
  mass : F;
  elasticity : F;
  health : F;
  isAlive : bool
}.

(** [MetaBall()] *)
Definition new : t :=
  mk (Vec3.mk (of_int 0) (of_int 2) (of_int 0))
     (Vec3.mk (of_int 0) (of_int 0) (of_int 0))
     (Vec3.mk (of_int 0) (of_int 0) (of_int 0))
     (flit (1 # 2))
     (Vec3.mk (flit (2 # 10)) (flit (8 # 10)) (flit (9 # 10)))
     (of_int 0) (flit 2) (flit 1) (flit (8 # 10)) (flit 100) true.

Definition set_position (b : t) (p : Vec3.t F) : t :=
  mk p (velocity b) (acceleration b) (radius b) (color b) (rotationAngle b)
     (rotationSpeed b) (mass b) (elasticity b) (health b) (isAlive b).
Definition set_velocity (b : t) (v : Vec3.t F) : t :=
  mk (position b) v (acceleration b) (radius b) (color b) (rotationAngle b)
     (rotationSpeed b) (mass b) (elasticity b) (health b) (isAlive b).
Definition set_acceleration (b : t) (a : Vec3.t F) : t :=
  mk (position b) (velocity b) a (radius b) (color b) (rotationAngle b)
     (rotationSpeed b) (mass b) (elasticity b) (health b) (isAlive b).
Definition set_rotationAngle (b : t) (a : F) : t :=
  mk (position b) (velocity b) (acceleration b) (radius b) (color b) a
     (rotationSpeed b) (mass b) (elasticity b) (health b) (isAlive b).
Definition set_health (b : t) (h : F) : t :=
  mk (position b) (velocity b) (acceleration b) (radius b) (color b) (rotationAngle b)
     (rotationSpeed b) (mass b) (elasticity b) h (isAlive b).
Definition set_isAlive (b : t) (a : bool) : t :=
  mk (position b) (velocity b) (acceleration b) (radius b) (color b) (rotationAngle b)
     (rotationSpeed b) (mass b) (elasticity b) (health b) a.

(** [update] runs four blocks in sequence on a live ball; each is a
    definition of its own here, named after its comment in the source. *)

(** "Apply gravity", "Update velocity and position" *)
Definition integrate (deltaTime : F) (gravity : Vec3.t F) (b : t) : t :=
  let b := set_acceleration b gravity in
  let b := set_velocity b (Vec3.add (velocity b) (Vec3.mul (acceleration b) deltaTime)) in
  set_position b (Vec3.add (position b) (Vec3.mul (velocity b) deltaTime)).

(** "Update rotation" *)
Definition rotate (deltaTime : F) (b : t) : t :=
  let b := set_rotationAngle b (rotationAngle b [+] rotationSpeed b [*] deltaTime) in
  if rotationAngle b [>] flit 360
  then set_rotationAngle b (rotationAngle b [-] flit 360) else b.

(** "Simple ground collision" *)
Definition groundCollision (b : t) : t :=
  if Vec3.y (position b) [-] radius b [<] of_int 0 then
    let b := set_position b (Vec3.set_y (position b) (radius b)) in
    let b := set_velocity b
               (Vec3.set_y (velocity b) ([-] Vec3.y (velocity b) [*] elasticity b)) in
    (* Friction *)
    set_velocity b (Vec3.mul (velocity b) (flit (95 # 100)))
  else b.

(** "Keep ball within bounds" *)
Definition keepWithinBounds (b : t) : t :=
  let b := if Vec3.x (position b) [<] of_int (-10)
           then set_position b (Vec3.set_x (position b) (of_int (-10))) else b in
  let b := if Vec3.x (position b) [>] of_int 10
           then set_position b (Vec3.set_x (position b) (of_int 10)) else b in
  if Vec3.z (position b) [<] of_int (-50)
  then set_position b (Vec3.set_z (position b) (of_int (-50))) else b.

Definition update (deltaTime : F) (gravity : Vec3.t F) (b : t) : t :=
  if negb (isAlive b) then b else
  keepWithinBounds (groundCollision (rotate deltaTime (integrate deltaTime gravity b))).

Definition applyForce (force : Vec3.t F) (b : t) : t :=
  set_acceleration b (Vec3.add (acceleration b) (Vec3.div force (mass b))).

Definition takeDamage (damage : F) (b : t) : t :=
  let b := set_health b (health b [-] damage) in
  if health b [<=] of_int 0 then set_isAlive b false else b.
Definition getModelMatrix (b : t) : Mat4.t F :=
  let model := Mat4.translate (Vec3.x (position b)) (Vec3.y (position b))
                              (Vec3.z (position b)) in
  let model := Mat4.mul model (Mat4.rotateY (rotationAngle b)) in
  let model := Mat4.mul model (Mat4.rotateX (rotationAngle b [*] flit (7 # 10))) in
  Mat4.mul model (Mat4.scale (radius b) (radius b) (radius b)).
End Defs.
Arguments t : clear implicits.
End MetaBall.

Module Obstacle.
Section Defs.
Context {F : Type} {FO : FloatOps F}.
Local Open Scope float_scope.

Record t : Type := mk {
  position : Vec3.t F;
  width : F; height : F; depth : F;
  color : Vec3.t F;
  isActive : bool;
  damage : F;
  type : Z
}.

(** [Obstacle()] *)
Definition new : t :=
  mk (Vec3.mk (of_int 0) (of_int 0) (of_int 0)) (flit 1) (flit 1) (flit 1)
     (Vec3.mk (flit (9 # 10)) (flit (3 # 10)) (flit (1 # 10))) true (flit 10) 0.

Definition set_isActive (o : t) (a : bool) : t :=
  mk (position o) (width o) (height o) (depth o) (color o) a (damage o) (type o).

Definition checkCollision (ball : MetaBall.t F) (o : t) : bool :=
  if negb (isActive o) then false else
  let bp := MetaBall.position ball in
  let p := position o in
  let closestPoint :=
    Vec3.mk
      (std_max (Vec3.x p [-] width o [/] of_int 2) (std_min (Vec3.x bp) (Vec3.x p [+] width o [/] of_int 2)))
      (std_max (Vec3.y p) (std_min (Vec3.y bp) (Vec3.y p [+] height o)))
      (std_max (Vec3.z p [-] depth o [/] of_int 2) (std_min (Vec3.z bp) (Vec3.z p [+] depth o [/] of_int 2))) in
  let distance := Vec3.length (Vec3.sub closestPoint bp) in
  distance [<] MetaBall.radius ball.
Definition getModelMatrix (o : t) : Mat4.t F :=
  let model := Mat4.translate (Vec3.x (position o))
                              (Vec3.y (position o) [+] height o [/] of_int 2)
                              (Vec3.z (position o)) in
  Mat4.mul model (Mat4.scale (width o) (height o) (depth o)).
End Defs.
Arguments t : clear implicits.
End Obstacle.

Module Tree.
Section Defs.
Context {F : Type} {FO : FloatOps F}.
Record t : Type := mk {
  position : Vec3.t F;
  height : F;
  trunkRadius : F;
  foliageRadius : F;
  trunkColor : Vec3.t F;
  foliageColor : Vec3.t F
}.
(** [Tree()] *)
Definition new : t :=
  mk (Vec3.mk (of_int 0) (of_int 0) (of_int 0)) (flit 3) (flit (2 # 10)) (flit (15 # 10))
     (Vec3.mk (flit (4 # 10)) (flit (2 # 10)) (flit (1 # 10)))
     (Vec3.mk (flit (1 # 10)) (flit (5 # 10)) (flit (2 # 10))).
Local Open Scope float_scope.

Definition getTrunkModelMatrix (tr : t) : Mat4.t F :=
  let model := Mat4.translate (Vec3.x (position tr))
                              (Vec3.y (position tr) [+] height tr [/] of_int 2)
                              (Vec3.z (position tr)) in
  Mat4.mul model (Mat4.scale (trunkRadius tr) (height tr) (trunkRadius tr)).

Definition getFoliageModelMatrix (tr : t) : Mat4.t F :=
  let model := Mat4.translate (Vec3.x (position tr))
                              (Vec3.y (position tr) [+] height tr)
                              (Vec3.z (position tr)) in
  Mat4.mul model (Mat4.scale (foliageRadius tr) (foliageRadius tr [*] flit (8 # 10))
                             (foliageRadius tr)).
End Defs.
Arguments t : clear implicits.
End Tree.

Module Terrain.
Section Defs.
Context {F R : Type} {FO : FloatOps F} {RO : Random F R}.
Local Open Scope float_scope.

Record t : Type := mk {
  heightMap : list F;
  width : Z; depth : Z;
  gridSize : F
}.

(** [heightMap.resize(width * depth)] on a vector: keeps what fits,
    fills with zeros *)
Definition resize (v : list F) (n : Z) : list F :=
  firstn (Z.to_nat n) v ++ repeat (of_int 0) (Z.to_nat n - List.length v).

Definition generateHeightMap (tr : t) (g : R) : t * R :=
  let hm := resize (heightMap tr) (width tr * depth tr) in
  let '(hm, g) :=
    for_range 0 (depth tr) (fun z st =>
      for_range 0 (width tr) (fun x '(hm, g) =>
        let height := of_int 0 in
        (* Base terrain *)
        let height := height [+] sin (of_int x [*] flit (1 # 10))
                                 [*] cos (of_int z [*] flit (1 # 10)) [*] flit (1 # 2) in
        (* Add hills *)
        let height := height [+] sin (of_int x [*] flit (5 # 100) [+] of_int z [*] flit (3 # 100))
                                 [*] flit (3 # 10) in
        (* Add road (flat path in the middle) *)
        let roadWidth := flit 4 in
        let distanceFromCenter := fabs (of_int (x - Z.quot (width tr) 2)) in
        let height :=
          if distanceFromCenter [<] roadWidth then flit (1 # 10)
          else height [-] (distanceFromCenter [-] roadWidth) [*] flit (1 # 10) in
        (* Add some random bumps *)
        let '(r, g) := dis g in
        let height := height [+] (r [-] flit (1 # 2)) [*] flit (1 # 10) in
        (arr_set hm (z * width tr + x) height, g)) st) (hm, g) in
  (mk hm (width tr) (depth tr) (gridSize tr), g).

(** [Terrain(w, d, grid)] *)
Definition new (w d : Z) (grid : F) (g : R) : t * R :=
  generateHeightMap (mk [] w d grid) g.

(** The four reads are inside the vector whenever it holds
    [width * depth] samples: they are guarded by
    [0 <= xi < width - 1] and [0 <= zi < depth - 1]. *)
Definition getHeight (tr : t) (x z : F) : F :=
  let xi := to_int ((x [+] of_int (Z.quot (width tr) 2)) [/] gridSize tr) in
  let zi := to_int ((z [+] of_int (Z.quot (depth tr) 2)) [/] gridSize tr) in
  if (xi <? 0)%Z || (xi >=? width tr - 1)%Z || (zi <? 0)%Z || (zi >=? depth tr - 1)%Z
  then flit 0
  else
    (* Bilinear interpolation *)
    let xRatio := fmod (x [+] of_int (Z.quot (width tr) 2)) (gridSize tr) [/] gridSize tr in
    let zRatio := fmod (z [+] of_int (Z.quot (depth tr) 2)) (gridSize tr) [/] gridSize tr in
    let h1 := arr_get (of_int 0) (heightMap tr) (zi * width tr + xi) in
    let h2 := arr_get (of_int 0) (heightMap tr) (zi * width tr + xi + 1) in
    let h3 := arr_get (of_int 0) (heightMap tr) ((zi + 1) * width tr + xi) in
    let h4 := arr_get (of_int 0) (heightMap tr) ((zi + 1) * width tr + xi + 1) in
    let top := h1 [*] (of_int 1 [-] xRatio) [+] h2 [*] xRatio in
    let bottom := h3 [*] (of_int 1 [-] xRatio) [+] h4 [*] xRatio in
    top [*] (of_int 1 [-] zRatio) [+] bottom [*] zRatio.

Definition getNormal (tr : t) (x z : F) : Vec3.t F :=
  let eps := flit (1 # 10) in
  let hL := getHeight tr (x [-] eps) z in
  let hR := getHeight tr (x [+] eps) z in
  let hD := getHeight tr x (z [-] eps) in
  let hU := getHeight tr x (z [+] eps) in
  let normal := Vec3.mk (hL [-] hR) (flit 2 [*] eps) (hD [-] hU) in
  Vec3.normalize normal.
(** [generateMesh()]: six vertices for each grid square, no index *)
Definition generateMesh (tr : t) : Mesh.t F :=
  (* Generate vertices *)
  for_range 0 (depth tr - 1) (fun z mesh =>
    for_range 0 (width tr - 1) (fun x mesh =>
      (* Create two triangles for each grid square *)
      let worldX := of_int (x - Z.quot (width tr) 2) [*] gridSize tr in
      let worldZ := of_int (z - Z.quot (depth tr) 2) [*] gridSize tr in
      (* Vertex colors based on height and position *)
      let grassColor := Vec3.mk (flit (1 # 10)) (flit (7 # 10)) (flit (1 # 10)) in
      let roadColor := Vec3.mk (flit (3 # 10)) (flit (3 # 10)) (flit (35 # 100)) in
      let dirtColor := Vec3.mk (flit (5 # 10)) (flit (4 # 10)) (flit (2 # 10)) in
      (* Check if on road *)
      let distanceFromCenter := fabs (of_int (x - Z.quot (width tr) 2)) in
      let color :=
        if distanceFromCenter [<] flit 4 then roadColor
        else if getHeight tr worldX worldZ [>] flit (2 # 10) then grassColor
        else dirtColor in
      (* Triangle 1 *)
      let p1 := Vec3.mk worldX (getHeight tr worldX worldZ) worldZ in
      let p2 := Vec3.mk (worldX [+] gridSize tr)
                        (getHeight tr (worldX [+] gridSize tr) worldZ) worldZ in
      let p3 := Vec3.mk worldX (getHeight tr worldX (worldZ [+] gridSize tr))
                        (worldZ [+] gridSize tr) in
      let n1 := getNormal tr worldX worldZ in
      let n2 := getNormal tr (worldX [+] gridSize tr) worldZ in
      let n3 := getNormal tr worldX (worldZ [+] gridSize tr) in
      let mesh := Mesh.push_vertex mesh (Vertex.mk p1 n1 color) in
      let mesh := Mesh.push_vertex mesh (Vertex.mk p2 n2 color) in
      let mesh := Mesh.push_vertex mesh (Vertex.mk p3 n3 color) in
      (* Triangle 2 *)
      let p4 := Vec3.mk (worldX [+] gridSize tr)
                        (getHeight tr (worldX [+] gridSize tr) worldZ) worldZ in
      let p5 := Vec3.mk (worldX [+] gridSize tr)
                        (getHeight tr (worldX [+] gridSize tr) (worldZ [+] gridSize tr))
                        (worldZ [+] gridSize tr) in
      let p6 := Vec3.mk worldX (getHeight tr worldX (worldZ [+] gridSize tr))
                        (worldZ [+] gridSize tr) in
      let n4 := getNormal tr (worldX [+] gridSize tr) worldZ in
      let n5 := getNormal tr (worldX [+] gridSize tr) (worldZ [+] gridSize tr) in
      let n6 := getNormal tr worldX (worldZ [+] gridSize tr) in
      let mesh := Mesh.push_vertex mesh (Vertex.mk p4 n4 color) in
      let mesh := Mesh.push_vertex mesh (Vertex.mk p5 n5 color) in
      Mesh.push_vertex mesh (Vertex.mk p6 n6 color)) mesh) Mesh.empty.
End Defs.
Arguments t : clear implicits.
End Terrain.

(** GLFW's key and action codes (GLFW/glfw3.h) *)
Definition GLFW_PRESS : Z := 1.
Definition GLFW_KEY_SPACE : Z := 32.
Definition GLFW_KEY_A : Z := 65.
Definition GLFW_KEY_D : Z := 68.
Definition GLFW_KEY_R : Z := 82.
Definition GLFW_KEY_S : Z := 83.
Definition GLFW_KEY_W : Z := 87.
Definition GLFW_KEY_ESCAPE : Z := 256.
Definition GLFW_KEY_RIGHT : Z := 262.
Definition GLFW_KEY_LEFT : Z := 263.
Definition GLFW_KEY_DOWN : Z := 264.
Definition GLFW_KEY_UP : Z := 265.

Module Game.

Inductive GameState : Type := MENU | PLAYING | GAME_OVER | PAUSED.

Definition GameState_eqb (a b : GameState) : bool :=
  match a, b with
  | MENU, MENU | PLAYING, PLAYING | GAME_OVER, GAME_OVER | PAUSED, PAUSED => true
  | _, _ => false
  end.

Section Defs.
Context {F R : Type} {FO : FloatOps F} {RO : Random F R}.
Local Open Scope float_scope.

Record t : Type := mk {
  player : MetaBall.t F;
  terrain : Terrain.t F;
  obstacles : list (Obstacle.t F);
  collectibles : list (Vec3.t F);
  trees : list (Tree.t F);
  grassPatches : list (Vec3.t F);
  gameSpeed : F;
  difficulty : F;
  score : F;
  distance : F;
  gameOver : bool;
  gamePaused : bool;
  inMenu : bool;
  cameraPosition : Vec3.t F;
  cameraTarget : Vec3.t F;
  cameraAngle : F;
  cameraDistance : F;
  environmentRotation : F;
  environmentRotationSpeed : F;
  currentState : GameState
}.

Definition set_player (g : t) (v : MetaBall.t F) : t :=
  mk v (terrain g) (obstacles g) (collectibles g) (trees g) (grassPatches g) (gameSpeed g)
     (difficulty g) (score g) (distance g) (gameOver g) (gamePaused g) (inMenu g)
     (cameraPosition g) (cameraTarget g) (cameraAngle g) (cameraDistance g)
     (environmentRotation g) (environmentRotationSpeed g) (currentState g).
Definition set_terrain (g : t) (v : Terrain.t F) : t :=
  mk (player g) v (obstacles g) (collectibles g) (trees g) (grassPatches g) (gameSpeed g)
     (difficulty g) (score g) (distance g) (gameOver g) (gamePaused g) (inMenu g)
     (cameraPosition g) (cameraTarget g) (cameraAngle g) (cameraDistance g)
     (environmentRotation g) (environmentRotationSpeed g) (currentState g).
Definition set_obstacles (g : t) (v : list (Obstacle.t F)) : t :=
  mk (player g) (terrain g) v (collectibles g) (trees g) (grassPatches g) (gameSpeed g)
     (difficulty g) (score g) (distance g) (gameOver g) (gamePaused g) (inMenu g)
     (cameraPosition g) (cameraTarget g) (cameraAngle g) (cameraDistance g)
     (environmentRotation g) (environmentRotationSpeed g) (currentState g).
Definition set_collectibles (g : t) (v : list (Vec3.t F)) : t :=
  mk (player g) (terrain g) (obstacles g) v (trees g) (grassPatches g) (gameSpeed g)
     (difficulty g) (score g) (distance g) (gameOver g) (gamePaused g) (inMenu g)
     (cameraPosition g) (cameraTarget g) (cameraAngle g) (cameraDistance g)
     (environmentRotation g) (environmentRotationSpeed g) (currentState g).
Definition set_trees (g : t) (v : list (Tree.t F)) : t :=
  mk (player g) (terrain g) (obstacles g) (collectibles g) v (grassPatches g) (gameSpeed
     g) (difficulty g) (score g) (distance g) (gameOver g) (gamePaused g) (inMenu g)
     (cameraPosition g) (cameraTarget g) (cameraAngle g) (cameraDistance g)
     (environmentRotation g) (environmentRotationSpeed g) (currentState g).
Definition set_grassPatches (g : t) (v : list (Vec3.t F)) : t :=
  mk (player g) (terrain g) (obstacles g) (collectibles g) (trees g) v (gameSpeed g)
     (difficulty g) (score g) (distance g) (gameOver g) (gamePaused g) (inMenu g)
     (cameraPosition g) (cameraTarget g) (cameraAngle g) (cameraDistance g)
     (environmentRotation g) (environmentRotationSpeed g) (currentState g).
Definition set_gameSpeed (g : t) (v : F) : t :=
  mk (player g) (terrain g) (obstacles g) (collectibles g) (trees g) (grassPatches g) v
     (difficulty g) (score g) (distance g) (gameOver g) (gamePaused g) (inMenu g)
     (cameraPosition g) (cameraTarget g) (cameraAngle g) (cameraDistance g)
     (environmentRotation g) (environmentRotationSpeed g) (currentState g).
Definition set_difficulty (g : t) (v : F) : t :=
  mk (player g) (terrain g) (obstacles g) (collectibles g) (trees g) (grassPatches g)
     (gameSpeed g) v (score g) (distance g) (gameOver g) (gamePaused g) (inMenu g)
     (cameraPosition g) (cameraTarget g) (cameraAngle g) (cameraDistance g)
     (environmentRotation g) (environmentRotationSpeed g) (currentState g).
Definition set_score (g : t) (v : F) : t :=
  mk (player g) (terrain g) (obstacles g) (collectibles g) (trees g) (grassPatches g)
     (gameSpeed g) (difficulty g) v (distance g) (gameOver g) (gamePaused g) (inMenu g)
     (cameraPosition g) (cameraTarget g) (cameraAngle g) (cameraDistance g)
     (environmentRotation g) (environmentRotationSpeed g) (currentState g).
Definition set_distance (g : t) (v : F) : t :=
  mk (player g) (terrain g) (obstacles g) (collectibles g) (trees g) (grassPatches g)
     (gameSpeed g) (difficulty g) (score g) v (gameOver g) (gamePaused g) (inMenu g)
     (cameraPosition g) (cameraTarget g) (cameraAngle g) (cameraDistance g)
     (environmentRotation g) (environmentRotationSpeed g) (currentState g).
Definition set_gameOver (g : t) (v : bool) : t :=
  mk (player g) (terrain g) (obstacles g) (collectibles g) (trees g) (grassPatches g)
     (gameSpeed g) (difficulty g) (score g) (distance g) v (gamePaused g) (inMenu g)
     (cameraPosition g) (cameraTarget g) (cameraAngle g) (cameraDistance g)
     (environmentRotation g) (environmentRotationSpeed g) (currentState g).
Definition set_gamePaused (g : t) (v : bool) : t :=
  mk (player g) (terrain g) (obstacles g) (collectibles g) (trees g) (grassPatches g)
     (gameSpeed g) (difficulty g) (score g) (distance g) (gameOver g) v (inMenu g)
     (cameraPosition g) (cameraTarget g) (cameraAngle g) (cameraDistance g)
     (environmentRotation g) (environmentRotationSpeed g) (currentState g).
Definition set_inMenu (g : t) (v : bool) : t :=
  mk (player g) (terrain g) (obstacles g) (collectibles g) (trees g) (grassPatches g)
     (gameSpeed g) (difficulty g) (score g) (distance g) (gameOver g) (gamePaused g) v
     (cameraPosition g) (cameraTarget g) (cameraAngle g) (cameraDistance g)
     (environmentRotation g) (environmentRotationSpeed g) (currentState g).
Definition set_cameraPosition (g : t) (v : Vec3.t F) : t :=
  mk (player g) (terrain g) (obstacles g) (collectibles g) (trees g) (grassPatches g)
     (gameSpeed g) (difficulty g) (score g) (distance g) (gameOver g) (gamePaused g) (inMenu
     g) v (cameraTarget g) (cameraAngle g) (cameraDistance g) (environmentRotation g)
     (environmentRotationSpeed g) (currentState g).
Definition set_cameraTarget (g : t) (v : Vec3.t F) : t :=
  mk (player g) (terrain g) (obstacles g) (collectibles g) (trees g) (grassPatches g)
     (gameSpeed g) (difficulty g) (score g) (distance g) (gameOver g) (gamePaused g) (inMenu
     g) (cameraPosition g) v (cameraAngle g) (cameraDistance g) (environmentRotation g)
     (environmentRotationSpeed g) (currentState g).
Definition set_cameraAngle (g : t) (v : F) : t :=
  mk (player g) (terrain g) (obstacles g) (collectibles g) (trees g) (grassPatches g)
     (gameSpeed g) (difficulty g) (score g) (distance g) (gameOver g) (gamePaused g) (inMenu
     g) (cameraPosition g) (cameraTarget g) v (cameraDistance g) (environmentRotation g)
     (environmentRotationSpeed g) (currentState g).
Definition set_environmentRotation (g : t) (v : F) : t :=
  mk (player g) (terrain g) (obstacles g) (collectibles g) (trees g) (grassPatches g)
     (gameSpeed g) (difficulty g) (score g) (distance g) (gameOver g) (gamePaused g) (inMenu
     g) (cameraPosition g) (cameraTarget g) (cameraAngle g) (cameraDistance g) v
     (environmentRotationSpeed g) (currentState g).
Definition set_environmentRotationSpeed (g : t) (v : F) : t :=
  mk (player g) (terrain g) (obstacles g) (collectibles g) (trees g) (grassPatches g)
     (gameSpeed g) (difficulty g) (score g) (distance g) (gameOver g) (gamePaused g) (inMenu
     g) (cameraPosition g) (cameraTarget g) (cameraAngle g) (cameraDistance g)
     (environmentRotation g) v (currentState g).
Definition set_currentState (g : t) (v : GameState) : t :=
  mk (player g) (terrain g) (obstacles g) (collectibles g) (trees g) (grassPatches g)
     (gameSpeed g) (difficulty g) (score g) (distance g) (gameOver g) (gamePaused g) (inMenu
     g) (cameraPosition g) (cameraTarget g) (cameraAngle g) (cameraDistance g)
     (environmentRotation g) (environmentRotationSpeed g) v.

(** The arguments of a constructor call are evaluated left to right
    here (C++ leaves the order open); only the colours depend on it. *)
Definition generateObstacles (count : Z) (st : t * R) : t * R :=
  for_range 0 count (fun i '(gm, g) =>
    let obs := Obstacle.new in
    let '(r, g) := rand g in
    let type := Z.rem r 3 in
    (* Random position on road *)
    let '(d, g) := dis g in
    let px := (d [-] flit (1 # 2)) [*] flit 3 in
    let pz := [-] flit 30 [-] of_int i [*] flit 15 in
    (* Random size *)
    let '(d, g) := dis g in
    let width := flit (1 # 2) [+] d [*] flit 1 in
    let '(d, g) := dis g in
    let height := flit (1 # 2) [+] d [*] flit 2 in
    let '(d, g) := dis g in
    let depth := flit (1 # 2) [+] d [*] flit 1 in
    (* Orange-red color for obstacles *)
    let '(d1, g) := dis g in
    let '(d2, g) := dis g in
    let color := Vec3.mk (flit (9 # 10)) (flit (3 # 10) [+] d1 [*] flit (2 # 10))
                         (flit (1 # 10) [+] d2 [*] flit (1 # 10)) in
    let '(d, g) := dis g in
    let damage := flit 10 [+] d [*] flit 10 in
    let obs := Obstacle.mk
                 (Vec3.mk px (Vec3.y (Obstacle.position obs)) pz)
                 width height depth color (Obstacle.isActive obs) damage type in
    (set_obstacles gm (push_back (obstacles gm) obs), g)) st.

Definition generateCollectibles (count : Z) (st : t * R) : t * R :=
  for_range 0 count (fun i '(gm, g) =>
    let '(d, g) := dis g in
    let cx := (d [-] flit (1 # 2)) [*] flit 6 in
    let '(d, g) := dis g in
    let cy := flit 1 [+] d [*] flit 2 in
    let cz := [-] flit 20 [-] of_int i [*] flit 10 in
    (set_collectibles gm (push_back (collectibles gm) (Vec3.mk cx cy cz)), g)) st.

Definition generateTrees (count : Z) (st : t * R) : t * R :=
  for_range 0 count (fun i '(gm, g) =>
    let tree := Tree.new in
    let width := 200%Z in
    (* Position trees on the sides of the road *)
    let '(d, g) := dis g in
    let side := if d [>] flit (1 # 2) then flit 1 else [-] flit 1 in
    let '(d, g) := dis g in
    let px := (of_int (Z.quot width 2) [+] flit 2 [+] d [*] flit 10) [*] side in
    let pz := [-] flit 20 [-] of_int i [*] flit 20 in
    let py := Terrain.getHeight (terrain gm) px pz in
    (* Randomize tree properties *)
    let '(d, g) := dis g in
    let height := flit 2 [+] d [*] flit 4 in
    let '(d, g) := dis g in
    let trunkRadius := flit (1 # 10) [+] d [*] flit (2 # 10) in
    let '(d, g) := dis g in
    let foliageRadius := flit (8 # 10) [+] d [*] flit (12 # 10) in
    (* Randomize foliage color (different shades of green) *)
    let '(d1, g) := dis g in
    let '(d2, g) := dis g in
    let '(d3, g) := dis g in
    let foliageColor := Vec3.mk (flit 0 [+] d1 [*] flit (2 # 10))
                                (flit (4 # 10) [+] d2 [*] flit (4 # 10))
                                (flit 0 [+] d3 [*] flit (2 # 10)) in
    let tree := Tree.mk (Vec3.mk px py pz) height trunkRadius foliageRadius
                        (Tree.trunkColor tree) foliageColor in
    (set_trees gm (push_back (trees gm) tree), g)) st.

Definition generateGrass (count : Z) (st : t * R) : t * R :=
  for_range 0 count (fun i '(gm, g) =>
    let width := 200%Z in
    (* Position grass patches on the sides of the road *)
    let '(d, g) := dis g in
    let side := if d [>] flit (1 # 2) then flit 1 else [-] flit 1 in
    let '(d, g) := dis g in
    let px := (of_int (Z.quot width 2) [+] flit 1 [+] d [*] flit 8) [*] side in
    let pz := [-] flit 10 [-] of_int i [*] flit 8 in
    let py := Terrain.getHeight (terrain gm) px pz [+] flit (1 # 10) in
    (set_grassPatches gm (push_back (grassPatches gm) (Vec3.mk px py pz)), g)) st.

Definition resetGame (st : t * R) : t * R :=
  let '(gm, g) := st in
  let gm := set_player gm MetaBall.new in
  let '(tr, g) := Terrain.new 100 200 (flit 1) g in
  let gm := set_terrain gm tr in
  let gm := set_obstacles gm [] in
  let gm := set_collectibles gm [] in
  let gm := set_trees gm [] in
  let gm := set_grassPatches gm [] in
  let gm := set_gameSpeed gm (flit 10) in
  let gm := set_difficulty gm (flit 1) in
  let gm := set_score gm (of_int 0) in
  let gm := set_distance gm (of_int 0) in
  let gm := set_gameOver gm false in
  let gm := set_gamePaused gm false in
  let gm := set_environmentRotation gm (of_int 0) in
  let gm := set_currentState gm PLAYING in
  (* Generate initial obstacles, collectibles, and environment *)
  let st := generateObstacles 20 (gm, g) in
  let st := generateCollectibles 10 st in
  let st := generateTrees 30 st in
  generateGrass 50 st.

(** [Game()]: the members are initialised in declaration order (the
    default [Terrain()] already draws its bumps), then the body runs. *)
Definition new (g : R) : t * R :=
  let '(tr, g) := Terrain.new 100 200 (flit 1) g in
  let gm := mk MetaBall.new tr [] [] [] []
               (flit 10) (flit 1) (of_int 0) (of_int 0) false false true
               Vec3.zero Vec3.zero (of_int 0) (flit 8)
               (of_int 0) (flit (1 # 10)) MENU in
  let '(gm, g) := resetGame (gm, g) in
  (* Initial camera setup *)
  let gm := set_cameraPosition gm (Vec3.mk (of_int 0) (of_int 5) (of_int 10)) in
  let gm := set_cameraTarget gm (MetaBall.position (player gm)) in
  (gm, g).

Definition updateCamera (deltaTime : F) (gm : t) : t :=
  (* Third-person camera following the ball *)
  let gm := set_cameraAngle gm (cameraAngle gm [+] deltaTime [*] flit (1 # 2)) in
  let height := flit 4 in
  let gm := set_cameraTarget gm
              (Vec3.lerp (cameraTarget gm) (MetaBall.position (player gm))
                         (deltaTime [*] flit 5)) in
  (* Calculate camera position *)
  let offset := Vec3.mk (sin (cameraAngle gm) [*] cameraDistance gm)
                        height
                        (cos (cameraAngle gm) [*] cameraDistance gm) in
  set_cameraPosition gm (Vec3.add (cameraTarget gm) offset).

(** The loop [for (auto& obs : obstacles)] of [update]: it threads the
    player and the score, and rewrites the obstacles in place. *)
Fixpoint hitObstacles (obs : list (Obstacle.t F)) (pl : MetaBall.t F) (sc : F)
  : list (Obstacle.t F) * MetaBall.t F * F :=
  match obs with
  | [] => ([], pl, sc)
  | o :: rest =>
      if Obstacle.checkCollision pl o then
        let pl := MetaBall.takeDamage (Obstacle.damage o) pl in
        (* Bounce back *)
        let pl := MetaBall.set_velocity pl
                    (Vec3.mul (MetaBall.velocity pl) ([-] flit (1 # 2))) in
        let o := Obstacle.set_isActive o false in
        (* Score penalty *)
        let sc := sc [-] Obstacle.damage o [*] of_int 2 in
        let sc := if sc [<] of_int 0 then of_int 0 else sc in
        let '(rest, pl, sc) := hitObstacles rest pl sc in
        (o :: rest, pl, sc)
      else
        let '(rest, pl, sc) := hitObstacles rest pl sc in
        (o :: rest, pl, sc)
  end.

(** The iterator loop over [collectibles] of [update]: a collectible in
    reach is erased, the others stay in order. *)
Fixpoint pickCollectibles (cs : list (Vec3.t F)) (pl : MetaBall.t F) (sc : F)
  : list (Vec3.t F) * MetaBall.t F * F :=
  match cs with
  | [] => ([], pl, sc)
  | c :: rest =>
      let dist := Vec3.length (Vec3.sub (MetaBall.position pl) c) in
      if dist [<] MetaBall.radius pl [+] flit (1 # 2) then
        let sc := sc [+] of_int 50 in
        let pl := MetaBall.set_health pl
                    (std_min (MetaBall.health pl [+] flit 10) (flit 100)) in
        pickCollectibles rest pl sc
      else
        let '(rest, pl, sc) := pickCollectibles rest pl sc in
        (c :: rest, pl, sc)
  end.

(** [update] runs the blocks below in sequence while the game is
    [PLAYING]; each is a definition of its own here, named after its
    comment in the source. *)

(** "Update environment rotation" *)
Definition rotateEnvironment (deltaTime : F) (gm : t) : t :=
  let gm := set_environmentRotation gm
              (environmentRotation gm [+] environmentRotationSpeed gm [*] deltaTime) in
  if environmentRotation gm [>] flit 360
  then set_environmentRotation gm (environmentRotation gm [-] flit 360)
  else gm.

(** "Update player" *)
Definition updatePlayer (deltaTime : F) (gm : t) : t :=
  let gravity := Vec3.mk (of_int 0) ([-] flit (98 # 10)) (of_int 0) in
  set_player gm (MetaBall.update deltaTime gravity (player gm)).

(** "Terrain collision" *)
Definition terrainCollision (gm : t) : t :=
  let terrainHeight :=
    Terrain.getHeight (terrain gm) (Vec3.x (MetaBall.position (player gm)))
                      (Vec3.z (MetaBall.position (player gm))) in
  if Vec3.y (MetaBall.position (player gm)) [-] MetaBall.radius (player gm)
       [<] terrainHeight then
    let pl := player gm in
    let pl := MetaBall.set_position pl
                (Vec3.set_y (MetaBall.position pl)
                            (terrainHeight [+] MetaBall.radius pl)) in
    let pl := MetaBall.set_velocity pl (Vec3.set_y (MetaBall.velocity pl) (of_int 0)) in
    (* Apply terrain normal for sliding *)
    let normal := Terrain.getNormal (terrain gm) (Vec3.x (MetaBall.position pl))
                                    (Vec3.z (MetaBall.position pl)) in
    let pl := MetaBall.set_velocity pl
                (Vec3.sub (MetaBall.velocity pl)
                   (Vec3.mul (Vec3.mul normal (Vec3.dot (MetaBall.velocity pl) normal))
                             (flit (1 # 10)))) in
    set_player gm pl
  else gm.

(** "Update game progression", "Increase difficulty over time" *)
Definition progress (deltaTime : F) (gm : t) : t :=
  let gm := set_distance gm (distance gm [+] gameSpeed gm [*] deltaTime) in
  let gm := set_score gm (score gm [+] gameSpeed gm [*] deltaTime [*] flit (1 # 10)) in
  let gm := set_difficulty gm (difficulty gm [+] deltaTime [*] flit (1 # 100)) in
  set_gameSpeed gm (gameSpeed gm [+] deltaTime [*] flit (1 # 10)).

(** "Check collisions with obstacles" *)
Definition checkObstacles (gm : t) : t :=
  let '(obs, pl, sc) := hitObstacles (obstacles gm) (player gm) (score gm) in
  set_score (set_player (set_obstacles gm obs) pl) sc.

(** "Check collectibles" *)
Definition checkCollectibles (gm : t) : t :=
  let '(cs, pl, sc) := pickCollectibles (collectibles gm) (player gm) (score gm) in
  set_score (set_player (set_collectibles gm cs) pl) sc.

(** "Check game over" *)
Definition checkGameOver (gm : t) : t :=
  if negb (MetaBall.isAlive (player gm)) || (MetaBall.health (player gm) [<=] of_int 0)
  then set_gameOver (set_currentState gm GAME_OVER) true
  else gm.

(** "Generate more obstacles, trees, and grass as player progresses".
    [obstacles], [trees] and [grassPatches] are not empty when their
    last element is read: [resetGame] fills them and nothing removes
    from them. *)
Definition generateMore (st : t * R) : t * R :=
  let pz := Vec3.z (MetaBall.position (player (fst st))) in
  let st :=
    if Vec3.z (Obstacle.position (back Obstacle.new (obstacles (fst st)))) [>] pz [-] of_int 100
    then generateObstacles 5 st else st in
  let st :=
    match collectibles (fst st) with
    | [] => generateCollectibles 3 st
    | _ => if Vec3.z (back Vec3.zero (collectibles (fst st))) [>] pz [-] of_int 80
           then generateCollectibles 3 st else st
    end in
  let st :=
    if Vec3.z (Tree.position (back Tree.new (trees (fst st)))) [>] pz [-] of_int 150
    then generateTrees 5 st else st in
  if Vec3.z (back Vec3.zero (grassPatches (fst st))) [>] pz [-] of_int 100
  then generateGrass 10 st else st.

Definition update (deltaTime : F) (st : t * R) : t * R :=
  let '(gm, g) := st in
  if negb (GameState_eqb (currentState gm) PLAYING) then (gm, g) else
  let gm := rotateEnvironment deltaTime gm in
  let gm := updatePlayer deltaTime gm in
  let gm := terrainCollision gm in
  let gm := progress deltaTime gm in
  let gm := checkObstacles gm in
  let gm := checkCollectibles gm in
  let gm := checkGameOver gm in
  let gm := updateCamera deltaTime gm in
  generateMore (gm, g).

Definition togglePause (gm : t) : t :=
  match currentState gm with
  | PLAYING => set_gamePaused (set_currentState gm PAUSED) true
  | PAUSED => set_gamePaused (set_currentState gm PLAYING) false
  | _ => gm
  end.

Definition handleInput (key action : Z) (gm : t) : t :=
  if GameState_eqb (currentState gm) PLAYING && (action =? GLFW_PRESS)%Z then
    let forceStrength := flit 15 in
    let force v := set_player gm (MetaBall.applyForce v (player gm)) in
    if (key =? GLFW_KEY_W)%Z || (key =? GLFW_KEY_UP)%Z then
      force (Vec3.mk (of_int 0) (of_int 0) ([-] forceStrength))
    else if (key =? GLFW_KEY_S)%Z || (key =? GLFW_KEY_DOWN)%Z then
      force (Vec3.mk (of_int 0) (of_int 0) forceStrength)
    else if (key =? GLFW_KEY_A)%Z || (key =? GLFW_KEY_LEFT)%Z then
      force (Vec3.mk ([-] forceStrength) (of_int 0) (of_int 0))
    else if (key =? GLFW_KEY_D)%Z || (key =? GLFW_KEY_RIGHT)%Z then
      force (Vec3.mk forceStrength (of_int 0) (of_int 0))
    else if (key =? GLFW_KEY_SPACE)%Z then
      let pl := player gm in
      if Vec3.y (MetaBall.position pl) [-] MetaBall.radius pl
           [<=] Terrain.getHeight (terrain gm) (Vec3.x (MetaBall.position pl))
                                  (Vec3.z (MetaBall.position pl)) [+] flit (1 # 10)
      then set_player gm (MetaBall.set_velocity pl
                            (Vec3.set_y (MetaBall.velocity pl) (flit 8)))
      else gm
    else if (key =? GLFW_KEY_ESCAPE)%Z then togglePause gm
    else if (key =? GLFW_KEY_R)%Z then
      (* Toggle environment rotation *)
      set_environmentRotationSpeed gm
        (if environmentRotationSpeed gm [==] of_int 0 then flit (1 # 10) else flit 0)
    else gm
  else gm.

Definition startGame (st : t * R) : t * R :=
  let '(gm, g) := resetGame st in
  (set_inMenu (set_currentState gm PLAYING) false, g).

Definition returnToMenu (gm : t) : t :=
  set_inMenu (set_currentState gm MENU) true.
End Defs.
Arguments t : clear implicits.
End Game.

(** ** Mesh generators *)

Section Generators.
Context {F : Type} {FO : FloatOps F}.
Local Open Scope float_scope.

Definition white : Vec3.t F := Vec3.mk (of_int 1) (of_int 1) (of_int 1).

(** a vertex given by the coordinates of its position and of its normal *)
Definition vtx (px py pz : F) (nx ny nz : Z) : Vertex.t F :=
  Vertex.mk (Vec3.mk px py pz) (Vec3.mk (of_int nx) (of_int ny) (of_int nz)) white.

Definition generateCube : Mesh.t F :=
  let h := flit (1 # 2) in
  let mh := [-] flit (1 # 2) in
  let mesh := Mesh.empty in
  (* Front face *)
  let mesh := Mesh.push_vertex mesh (vtx mh mh h 0 0 1) in
  let mesh := Mesh.push_vertex mesh (vtx h mh h 0 0 1) in
  let mesh := Mesh.push_vertex mesh (vtx h h h 0 0 1) in
  let mesh := Mesh.push_vertex mesh (vtx mh h h 0 0 1) in
  (* Back face *)
  let mesh := Mesh.push_vertex mesh (vtx mh mh mh 0 0 (-1)) in
  let mesh := Mesh.push_vertex mesh (vtx mh h mh 0 0 (-1)) in
  let mesh := Mesh.push_vertex mesh (vtx h h mh 0 0 (-1)) in
  let mesh := Mesh.push_vertex mesh (vtx h mh mh 0 0 (-1)) in
  (* Left face *)
  let mesh := Mesh.push_vertex mesh (vtx mh mh mh (-1) 0 0) in
  let mesh := Mesh.push_vertex mesh (vtx mh mh h (-1) 0 0) in
  let mesh := Mesh.push_vertex mesh (vtx mh h h (-1) 0 0) in
  let mesh := Mesh.push_vertex mesh (vtx mh h mh (-1) 0 0) in
  (* Right face *)
  let mesh := Mesh.push_vertex mesh (vtx h mh h 1 0 0) in
  let mesh := Mesh.push_vertex mesh (vtx h mh mh 1 0 0) in
  let mesh := Mesh.push_vertex mesh (vtx h h mh 1 0 0) in
  let mesh := Mesh.push_vertex mesh (vtx h h h 1 0 0) in
  (* Top face *)
  let mesh := Mesh.push_vertex mesh (vtx mh h h 0 1 0) in
  let mesh := Mesh.push_vertex mesh (vtx h h h 0 1 0) in
  let mesh := Mesh.push_vertex mesh (vtx h h mh 0 1 0) in
  let mesh := Mesh.push_vertex mesh (vtx mh h mh 0 1 0) in
  (* Bottom face *)
  let mesh := Mesh.push_vertex mesh (vtx mh mh mh 0 (-1) 0) in
  let mesh := Mesh.push_vertex mesh (vtx h mh mh 0 (-1) 0) in
  let mesh := Mesh.push_vertex mesh (vtx h mh h 0 (-1) 0) in
  let mesh := Mesh.push_vertex mesh (vtx mh mh h 0 (-1) 0) in
  (* Define indices for all faces *)
  let indices :=
    [0; 1; 2;  2; 3; 0;          (* Front *)
     4; 5; 6;  6; 7; 4;          (* Back *)
     8; 9; 10;  10; 11; 8;       (* Left *)
     12; 13; 14;  14; 15; 12;    (* Right *)
     16; 17; 18;  18; 19; 16;    (* Top *)
     20; 21; 22;  22; 23; 20]%Z  (* Bottom *) in
  Mesh.assign_indices mesh (firstn 36 indices).

Definition generatePyramid : Mesh.t F :=
  let h := flit (1 # 2) in
  let mh := [-] flit (1 # 2) in
  let mesh := Mesh.empty in
  (* Base *)
  let mesh := Mesh.push_vertex mesh (vtx mh (of_int 0) mh 0 (-1) 0) in
  let mesh := Mesh.push_vertex mesh (vtx h (of_int 0) mh 0 (-1) 0) in
  let mesh := Mesh.push_vertex mesh (vtx h (of_int 0) h 0 (-1) 0) in
  let mesh := Mesh.push_vertex mesh (vtx mh (of_int 0) h 0 (-1) 0) in
  (* Apex *)
  let mesh := Mesh.push_vertex mesh (vtx (of_int 0) (of_int 1) (of_int 0) 0 1 0) in
  let push3 mesh a b c := Mesh.push_index (Mesh.push_index (Mesh.push_index mesh a) b) c in
  (* Indices for base *)
  let mesh := push3 mesh 0 1 2 in
  let mesh := push3 mesh 2 3 0 in
  (* Indices for sides *)
  let mesh := push3 mesh 0 1 4 in
  let mesh := push3 mesh 1 2 4 in
  let mesh := push3 mesh 2 3 4 in
  let mesh := push3 mesh 3 0 4 in
  mesh.

Definition generateCylinder (segments : Z) : Mesh.t F :=
  let mesh := Mesh.empty in
  (* Create vertices *)
  let mesh :=
    for_range 0 (segments + 1) (fun i mesh =>
      let theta := flit 2 [*] flit (314159 # 100000) [*] of_int i [/] of_int segments in
      let x := cos theta in
      let z := sin theta in
      (* Bottom vertices *)
      let mesh := Mesh.push_vertex mesh
                    (Vertex.mk (Vec3.mk (x [*] flit (1 # 2)) ([-] flit (1 # 2)) (z [*] flit (1 # 2)))
                               (Vec3.mk x (of_int 0) z) white) in
      (* Top vertices *)
      Mesh.push_vertex mesh
        (Vertex.mk (Vec3.mk (x [*] flit (1 # 2)) (flit (1 # 2)) (z [*] flit (1 # 2)))
                   (Vec3.mk x (of_int 0) z) white)) mesh in
  (* Create indices for sides *)
  for_range 0 segments (fun i mesh =>
    let base := (i * 2)%Z in
    let mesh := Mesh.push_index mesh base in
    let mesh := Mesh.push_index mesh (base + 1) in
    let mesh := Mesh.push_index mesh (base + 2) in
    let mesh := Mesh.push_index mesh (base + 2) in
    let mesh := Mesh.push_index mesh (base + 1) in
    Mesh.push_index mesh (base + 3)) mesh.
(** the six indices of the two triangles between the rows [first...] and
    [second...] of a sphere *)
Definition push_quad (mesh : Mesh.t F) (first second : Z) : Mesh.t F :=
  let mesh := Mesh.push_index mesh first in
  let mesh := Mesh.push_index mesh second in
  let mesh := Mesh.push_index mesh (first + 1) in
  let mesh := Mesh.push_index mesh second in
  let mesh := Mesh.push_index mesh (second + 1) in
  Mesh.push_index mesh (first + 1).

Definition generateSphere (segments rings : Z) : Mesh.t F :=
  let mesh := Mesh.empty in
  let mesh :=
    for_range 0 (rings + 1) (fun i mesh =>
      let phi := flit (314159 # 100000) [*] of_int i [/] of_int rings in
      for_range 0 (segments + 1) (fun j mesh =>
        let theta := flit 2 [*] flit (314159 # 100000) [*] of_int j [/] of_int segments in
        let x := sin phi [*] cos theta in
        let y := cos phi in
        let z := sin phi [*] sin theta in
        Mesh.push_vertex mesh
          (Vertex.mk (Vec3.mk x y z) (Vec3.normalize (Vec3.mk x y z))
                     (Vec3.mk (flit 1) (flit 1) (flit 1)))) mesh) mesh in
  for_range 0 rings (fun i mesh =>
    for_range 0 segments (fun j mesh =>
      let first := (i * (segments + 1) + j)%Z in
      let second := (first + segments + 1)%Z in
      push_quad mesh first second) mesh) mesh.

Definition generateTreeTrunk (segments : Z) : Mesh.t F :=
  let mesh := Mesh.empty in
  let brown := Vec3.mk (flit (4 # 10)) (flit (2 # 10)) (flit (1 # 10)) in
  (* Create vertices for trunk *)
  let mesh :=
    for_range 0 (segments + 1) (fun i mesh =>
      let theta := flit 2 [*] flit (314159 # 100000) [*] of_int i [/] of_int segments in
      let x := cos theta in
      let z := sin theta in
      (* Bottom vertices *)
      let mesh := Mesh.push_vertex mesh
                    (Vertex.mk (Vec3.mk (x [*] flit (2 # 10)) ([-] flit (1 # 2))
                                        (z [*] flit (2 # 10)))
                               (Vec3.mk x (of_int 0) z) brown) in
      (* Top vertices *)
      Mesh.push_vertex mesh
        (Vertex.mk (Vec3.mk (x [*] flit (15 # 100)) (flit (1 # 2)) (z [*] flit (15 # 100)))
                   (Vec3.mk x (of_int 0) z) brown)) mesh in
  (* Create indices for sides *)
  for_range 0 segments (fun i mesh =>
    let base := (i * 2)%Z in
    let mesh := Mesh.push_index mesh base in
    let mesh := Mesh.push_index mesh (base + 1) in
    let mesh := Mesh.push_index mesh (base + 2) in
    let mesh := Mesh.push_index mesh (base + 2) in
    let mesh := Mesh.push_index mesh (base + 1) in
    Mesh.push_index mesh (base + 3)) mesh.

Definition generateTreeFoliage (segments : Z) : Mesh.t F :=
  let mesh := Mesh.empty in
  (* Create vertices for foliage (sphere-like shape) *)
  let mesh :=
    for_range 0 (segments + 1) (fun i mesh =>
      let phi := flit (314159 # 100000) [*] of_int i [/] of_int segments in
      for_range 0 (segments + 1) (fun j mesh =>
        let theta := flit 2 [*] flit (314159 # 100000) [*] of_int j [/] of_int segments in
        let x := sin phi [*] cos theta [*] flit (8 # 10) in
        let y := cos phi [*] flit (8 # 10) in
        let z := sin phi [*] sin theta [*] flit (8 # 10) in
        Mesh.push_vertex mesh
          (Vertex.mk (Vec3.mk x y z) (Vec3.normalize (Vec3.mk x y z))
                     (Vec3.mk (flit (1 # 10)) (flit (5 # 10)) (flit (2 # 10))))) mesh) mesh in
  for_range 0 segments (fun i mesh =>
    for_range 0 segments (fun j mesh =>
      let first := (i * (segments + 1) + j)%Z in
      let second := (first + segments + 1)%Z in
      push_quad mesh first second) mesh) mesh.

Definition generateGrassBlade : Mesh.t F :=
  let mesh := Mesh.empty in
  let green := Vec3.mk (flit (1 # 10)) (flit (6 # 10)) (flit (1 # 10)) in
  let up := Vec3.mk (of_int 0) (of_int 1) (of_int 0) in
  (* Simple grass blade as a tall thin triangle *)
  let mesh := Mesh.push_vertex mesh
                (Vertex.mk (Vec3.mk (of_int 0) (of_int 0) (of_int 0)) up green) in
  let mesh := Mesh.push_vertex mesh
                (Vertex.mk (Vec3.mk (flit (5 # 100)) (flit (1 # 2)) (of_int 0)) up green) in
  let mesh := Mesh.push_vertex mesh
                (Vertex.mk (Vec3.mk ([-] flit (5 # 100)) (flit (1 # 2)) (of_int 0)) up green) in
  let mesh := Mesh.push_index mesh 0 in
  let mesh := Mesh.push_index mesh 1 in
  Mesh.push_index mesh 2.
End Generators.

End Main.

(** * [src/load_obj_model.cpp] *)

(** ** Results of fallible code

    [Throw]: a C++ exception leaves the function ([std::stoi] raises
    [std::invalid_argument] or [std::out_of_range]).  [Undefined]: the
    function performs an unchecked read outside a vector. *)
Inductive result (A : Type) : Type :=
  | Ok (a : A)
  | Throw
  | Undefined.
Arguments Ok {A} a.
Arguments Throw {A}.
Arguments Undefined {A}.

Definition bind {A B : Type} (r : result A) (k : A -> result B) : result B :=
  match r with
  | Ok a => k a
  | Throw => Throw
  | Undefined => Undefined
  end.

Notation "x <- r ;; k" := (bind r (fun x => k))
  (at level 61, r at next level, right associativity).

(** ** Text streams *)

(** [isspace] in the C locale *)
Definition isspace (c : ascii) : bool :=
  let n := nat_of_ascii c in
  (n =? 32)%nat || ((9 <=? n)%nat && (n <=? 13)%nat).

Definition isdigit (c : ascii) : bool :=
  let n := nat_of_ascii c in (48 <=? n)%nat && (n <=? 57)%nat.

Fixpoint skipws (s : string) : string :=
  match s with
  | String c r => if isspace c then skipws r else s
  | EmptyString => EmptyString
  end.

(** the longest prefix without a character satisfying [stop], and the
    rest (which starts with that character) *)
Fixpoint span_until (stop : ascii -> bool) (s : string) : string * string :=
  match s with
  | String c r =>
      if stop c then (EmptyString, s)
      else let '(w, rest) := span_until stop r in (String c w, rest)
  | EmptyString => (EmptyString, EmptyString)
  end.

Definition is_empty (s : string) : bool :=
  match s with EmptyString => true | _ => false end.

(** A [std::istringstream]: the characters not yet read and the state
    bits. *)
Record istream : Type := mkis { buf : string; failbit : bool; eofbit : bool }.

Definition istringstream (s : string) : istream := mkis s false false.

(** [is >> word] into a fresh [std::string].  A stream that is not
    [good()] only gets its failbit set; otherwise white space is skipped
    and the characters up to the next white space are taken; reaching the
    end of the buffer sets the eofbit. *)
Definition read_word (s : istream) : string * istream :=
  if failbit s || eofbit s then (EmptyString, mkis (buf s) true (eofbit s))
  else
    match skipws (buf s) with
    | EmptyString => (EmptyString, mkis EmptyString true true)
    | rest =>
        let '(w, rest') := span_until isspace rest in
        (w, mkis rest' false (is_empty rest'))
    end.

(** [std::getline(is, str, delim)] into a fresh string: the characters up
    to [delim], which is consumed. *)
Definition getline_delim (delim : ascii) (s : istream) : string * istream :=
  if failbit s || eofbit s then (EmptyString, mkis (buf s) true (eofbit s))
  else
    match buf s with
    | EmptyString => (EmptyString, mkis EmptyString true true)
    | b =>
        let '(w, rest) := span_until (Ascii.eqb delim) b in
        match rest with
        | String _ rest' => (w, mkis rest' false false)
        | EmptyString => (w, mkis EmptyString false true)
        end
    end.

(** The lines [std::getline(file, line)] yields until it fails. *)
Fixpoint lines_from (fuel : nat) (s : istream) : list string :=
  match fuel with
  | O => []
  | S fuel' =>
      let '(l, s') := getline_delim "010"%char s in
      if failbit s' then [] else l :: lines_from fuel' s'
  end.

Definition file_lines (content : string) : list string :=
  lines_from (S (String.length content)) (istringstream content).

Fixpoint digits_value (acc : Z) (s : string) : Z :=
  match s with
  | String c r =>
      if isdigit c then digits_value (acc * 10 + Z.of_nat (nat_of_ascii c) - 48) r else acc
  | EmptyString => acc
  end.

Definition starts_with_digit (s : string) : bool :=
  match s with String c _ => isdigit c | EmptyString => false end.

(** [std::stoi]: white space, an optional sign, decimal digits; what
    follows the digits is ignored.  No digit, or a value that does not fit
    an [int], raises an exception ([None]). *)
Definition stoi (s : string) : option Z :=
  let s := skipws s in
  let '(neg, s) :=
    match s with
    | String "-"%char r => (true, r)
    | String "+"%char r => (false, r)
    | _ => (false, s)
    end in
  if starts_with_digit s then
    let v := digits_value 0 s in
    let v := if neg then (- v)%Z else v in
    if (INT_MIN <=? v) && (v <=? INT_MAX) then Some v else None
  else None.

(** The files of the machine: [None] when [std::ifstream] cannot open the
    path. *)
Definition filesystem : Type := string -> option string.

Module ObjModel.

Module Vec3.
Section Defs.
Context {F : Type} {FO : FloatOps F}.
Local Open Scope float_scope.

Record t : Type := mk { x : F; y : F; z : F }.

Definition add (a other : t) : t :=
  mk (x a [+] x other) (y a [+] y other) (z a [+] z other).
Definition sub (a other : t) : t :=
  mk (x a [-] x other) (y a [-] y other) (z a [-] z other).
Definition mul (a : t) (scalar : F) : t :=
  mk (x a [*] scalar) (y a [*] scalar) (z a [*] scalar).
(** no test on [scalar] in this file *)
Definition div (a : t) (scalar : F) : t :=
  mk (x a [/] scalar) (y a [/] scalar) (z a [/] scalar).

Definition length (a : t) : F := sqrt (x a [*] x a [+] y a [*] y a [+] z a [*] z a).
Definition normalize (a : t) : t :=
  let l := length a in
  if l [>] of_int 0 then div a l else a.

Definition dot (a b : t) : F := x a [*] x b [+] y a [*] y b [+] z a [*] z b.
Definition cross (a b : t) : t :=
  mk (y a [*] z b [-] z a [*] y b)
     (z a [*] x b [-] x a [*] z b)
     (x a [*] y b [-] y a [*] x b).
End Defs.
Arguments t : clear implicits.
End Vec3.

Module Vec2.
Section Defs.
Context {F : Type}.
Record t : Type := mk { x : F; y : F }.
End Defs.
Arguments t : clear implicits.
End Vec2.

Module Vertex.
Section Defs.
Context {F : Type}.
Record t : Type := mk {
  position : Vec3.t F;
  normal : Vec3.t F;
  texcoord : Vec2.t F;
  color : Vec3.t F
}.
Definition set_normal (v : t) (n : Vec3.t F) : t :=
  mk (position v) n (texcoord v) (color v).
End Defs.
Arguments t : clear implicits.
End Vertex.

Module Mesh.
Section Defs.
Context {F : Type}.
Record t : Type := mk {
  vertices : list (Vertex.t F);
  indices : list Z;
  color : Vec3.t F;
  VAO : Z; VBO : Z; EBO : Z
}.
Definition set_vertices (m : t) (v : list (Vertex.t F)) : t :=
  mk v (indices m) (color m) (VAO m) (VBO m) (EBO m).
Definition set_indices (m : t) (i : list Z) : t :=
  mk (vertices m) i (color m) (VAO m) (VBO m) (EBO m).
End Defs.
Arguments t : clear implicits.
End Mesh.

Module OBJLoader.
Section Defs.
Context {F : Type} {FO : FloatOps F}.
(** [scan_float s]: the float that [operator>>] reads at the head of
    [s] (white space already skipped) and what is left of [s], or [None]
    when no number starts there.  [indeterminate]: the value of a local
    [float] that was declared and never written. *)
Variable scan_float : string -> option (F * string).
Variable indeterminate : F.
Local Open Scope float_scope.

(** [is >> val] for a [float] holding [old]: a stream that is not
    [good()], or that ends in white space, leaves [val] alone; a failed
    conversion stores 0. *)
Definition read_float (old : F) (s : istream) : F * istream :=
  if failbit s || eofbit s then (old, mkis (buf s) true (eofbit s))
  else
    match skipws (buf s) with
    | EmptyString => (old, mkis EmptyString true true)
    | rest =>
        match scan_float rest with
        | Some (v, rest') => (v, mkis rest' false (is_empty rest'))
        | None => (of_int 0, mkis rest true false)
        end
    end.

(** what the loop of [loadOBJ] has built so far *)
Record parsed : Type := mkp {
  positions : list (Vec3.t F);
  normals : list (Vec3.t F);
  texcoords : list (Vec2.t F);
  vertices : list (Vertex.t F);
  indices : list Z
}.

(** [positions[posIdx]], unchecked in the source *)
Definition unchecked (A : Type) (v : list A) (i : Z) : result A :=
  if (0 <=? i) && (i <? Z.of_nat (List.length v))
  then match nth_error v (Z.to_nat i) with Some a => Ok a | None => Undefined end
  else Undefined.

Definition stoi_minus_1 (s : string) : result Z :=
  match stoi s with Some v => Ok (v - 1) | None => Throw end.

(** the lambda [parseVertex] *)
Definition parseVertex (p : parsed) (vertexStr : string) : result (Vertex.t F) :=
  let vss := istringstream vertexStr in
  let '(posStr, vss) := getline_delim "/"%char vss in
  let '(texStr, vss) := getline_delim "/"%char vss in
  let '(normStr, vss) := getline_delim "/"%char vss in
  posIdx <- stoi_minus_1 posStr ;;
  texIdx <- (if is_empty texStr then Ok (-1) else stoi_minus_1 texStr) ;;
  normIdx <- (if is_empty normStr then Ok (-1) else stoi_minus_1 normStr) ;;
  pos <- unchecked (positions p) posIdx ;;
  let norm :=
    if (normIdx >=? 0) && (normIdx <? Z.of_nat (List.length (normals p)))
    then nth (Z.to_nat normIdx) (normals p) (Vec3.mk (of_int 0) (of_int 1) (of_int 0))
    else Vec3.mk (of_int 0) (of_int 1) (of_int 0) in
  let tex :=
    if (texIdx >=? 0) && (texIdx <? Z.of_nat (List.length (texcoords p)))
    then nth (Z.to_nat texIdx) (texcoords p) (Vec2.mk (of_int 0) (of_int 0))
    else Vec2.mk (of_int 0) (of_int 0) in
  (* Generate a color based on position for visualization *)
  let color := Vec3.mk (fabs (sin (Vec3.x pos [*] flit 2)))
                       (fabs (cos (Vec3.y pos [*] flit 2)))
                       (fabs (sin (Vec3.z pos [*] flit 2))) in
  Ok (Vertex.mk pos norm tex color).

(** one iteration of [while (std::getline(file, line))] *)
Definition parseLine (p : parsed) (line : string) : result parsed :=
  let iss := istringstream line in
  let '(prefix, iss) := read_word iss in
  if String.eqb prefix "v" then
    let '(x, iss) := read_float indeterminate iss in
    let '(y, iss) := read_float indeterminate iss in
    let '(z, iss) := read_float indeterminate iss in
    Ok (mkp (push_back (positions p) (Vec3.mk x y z)) (normals p) (texcoords p)
            (vertices p) (indices p))
  else if String.eqb prefix "vn" then
    let '(x, iss) := read_float indeterminate iss in
    let '(y, iss) := read_float indeterminate iss in
    let '(z, iss) := read_float indeterminate iss in
    Ok (mkp (positions p) (push_back (normals p) (Vec3.mk x y z)) (texcoords p)
            (vertices p) (indices p))
  else if String.eqb prefix "vt" then
    let '(u, iss) := read_float indeterminate iss in
    let '(v, iss) := read_float indeterminate iss in
    Ok (mkp (positions p) (normals p) (push_back (texcoords p) (Vec2.mk u v))
            (vertices p) (indices p))
  else if String.eqb prefix "f" then
    let '(vertex1, iss) := read_word iss in
    let '(vertex2, iss) := read_word iss in
    let '(vertex3, iss) := read_word iss in
    v1 <- parseVertex p vertex1 ;;
    v2 <- parseVertex p vertex2 ;;
    v3 <- parseVertex p vertex3 ;;
    (* Add vertices and indices *)
    let baseIndex := Z.of_nat (List.length (vertices p)) in
    let vs := push_back (push_back (push_back (vertices p) v1) v2) v3 in
    let ids := push_back (push_back (push_back (indices p) baseIndex) (baseIndex + 1))
                         (baseIndex + 2) in
    (* Check if there's a fourth vertex (quad face) *)
    if negb (eofbit iss) then
      let '(vertex4, iss) := read_word iss in
      if negb (is_empty vertex4) then
        v4 <- parseVertex p vertex4 ;;
        (* Split quad into two triangles *)
        let vs := push_back vs v4 in
        let ids := push_back (push_back (push_back ids baseIndex) (baseIndex + 2))
                             (baseIndex + 3) in
        Ok (mkp (positions p) (normals p) (texcoords p) vs ids)
      else Ok (mkp (positions p) (normals p) (texcoords p) vs ids)
    else Ok (mkp (positions p) (normals p) (texcoords p) vs ids)
  else Ok p.

Fixpoint parseLines (p : parsed) (ls : list string) : result parsed :=
  match ls with
  | [] => Ok p
  | line :: rest => p' <- parseLine p line ;; parseLines p' rest
  end.

Definition vertex_at (vs : list (Vertex.t F)) (i : Z) : Vertex.t F :=
  arr_get (Vertex.mk (Vec3.mk (of_int 0) (of_int 0) (of_int 0))
                     (Vec3.mk (of_int 0) (of_int 0) (of_int 0))
                     (Vec2.mk (of_int 0) (of_int 0))
                     (Vec3.mk (of_int 1) (of_int 1) (of_int 1))) vs i.

Definition add_normal (vs : list (Vertex.t F)) (i : Z) (n : Vec3.t F) : list (Vertex.t F) :=
  arr_set vs i (Vertex.set_normal (vertex_at vs i)
                                  (Vec3.add (Vertex.normal (vertex_at vs i)) n)).

(** The loop [for (i = 0; i < indices.size(); i += 3)] of
    [calculateNormals].  [loadOBJ] passes an index list made of whole
    triangles over [vertices], so every read is inside. *)
Fixpoint accumulateNormals (vs : list (Vertex.t F)) (ids : list Z) : list (Vertex.t F) :=
  match ids with
  | i1 :: i2 :: i3 :: rest =>
      let v1 := Vertex.position (vertex_at vs i1) in
      let v2 := Vertex.position (vertex_at vs i2) in
      let v3 := Vertex.position (vertex_at vs i3) in
      let edge1 := Vec3.sub v2 v1 in
      let edge2 := Vec3.sub v3 v1 in
      let normal := Vec3.normalize (Vec3.cross edge1 edge2) in
      let vs := add_normal vs i1 normal in
      let vs := add_normal vs i2 normal in
      let vs := add_normal vs i3 normal in
      accumulateNormals vs rest
  | _ => vs
  end.

Definition calculateNormals (vs : list (Vertex.t F)) (ids : list Z) : list (Vertex.t F) :=
  (* Initialize normals to zero *)
  let vs := map (fun v => Vertex.set_normal v (Vec3.mk (of_int 0) (of_int 0) (of_int 0))) vs in
  (* Calculate face normals and accumulate to vertices *)
  let vs := accumulateNormals vs ids in
  (* Normalize all vertex normals *)
  map (fun v => Vertex.set_normal v (Vec3.normalize (Vertex.normal v))) vs.

(** [loadOBJ(filepath, mesh)]: the returned pair is the [bool] result
    and the mesh after the call.  The messages on [std::cerr] and
    [std::cout] are not modelled. *)
Definition loadOBJ (fs : filesystem) (filepath : string) (mesh : Mesh.t F)
  : result (bool * Mesh.t F) :=
  match fs filepath with
  | None => Ok (false, mesh)
  | Some content =>
      p <- parseLines (mkp [] [] [] [] []) (file_lines content) ;;
      match vertices p with
      | [] => Ok (false, mesh)
      | _ =>
          (* Calculate normals if none were provided *)
          let vs := match normals p with
                    | [] => calculateNormals (vertices p) (indices p)
                    | _ => vertices p
                    end in
          let mesh := Mesh.set_vertices mesh vs in
          let mesh := Mesh.set_indices mesh (indices p) in
          Ok (true, mesh)
      end
  end.
End Defs.
End OBJLoader.

(** [generateSimpleHouse(mesh)]: the house that [main] builds when the
    OBJ file is not found *)
Section House.
Context {F : Type} {FO : FloatOps F}.
Local Open Scope float_scope.

Definition generateSimpleHouse (mesh : Mesh.t F) : Mesh.t F :=
  (* House dimensions *)
  let width := flit 4 in
  let height := flit 3 in
  let depth := flit 4 in
  let roofHeight := flit 2 in
  (* Colors *)
  let wallColor := Vec3.mk (flit (8 # 10)) (flit (6 # 10)) (flit (4 # 10)) in
  let roofColor := Vec3.mk (flit (7 # 10)) (flit (2 # 10)) (flit (2 # 10)) in
  let doorColor := Vec3.mk (flit (5 # 10)) (flit (35 # 100)) (flit (25 # 100)) in
  let windowColor := Vec3.mk (flit (2 # 10)) (flit (4 # 10)) (flit (8 # 10)) in
  let floorColor := Vec3.mk (flit (3 # 10)) (flit (6 # 10)) (flit (3 # 10)) in
  let v3 (a b c : F) := Vec3.mk a b c in
  let n3 (a b c : Z) := Vec3.mk (of_int a) (of_int b) (of_int c) in
  let t2 (a b : Z) := Vec2.mk (of_int a) (of_int b) in
  let top := Vec2.mk (flit (1 # 2)) (of_int 1) in
  let zero := of_int 0 in
  let vertices : list (Vertex.t F) := [] in
  let indices : list Z := [] in
  let push3 ids a b c := push_back (push_back (push_back ids a) b) c in
  (* Front wall *)
  let vertices := push_back vertices (Vertex.mk (v3 ([-] width [/] of_int 2) zero (depth [/] of_int 2)) (n3 0 0 1) (t2 0 0) wallColor) in
  let vertices := push_back vertices (Vertex.mk (v3 (width [/] of_int 2) zero (depth [/] of_int 2)) (n3 0 0 1) (t2 1 0) wallColor) in
  let vertices := push_back vertices (Vertex.mk (v3 (width [/] of_int 2) height (depth [/] of_int 2)) (n3 0 0 1) (t2 1 1) wallColor) in
  let vertices := push_back vertices (Vertex.mk (v3 ([-] width [/] of_int 2) height (depth [/] of_int 2)) (n3 0 0 1) (t2 0 1) wallColor) in
  let indices := push3 indices 0 1 2 in
  let indices := push3 indices 2 3 0 in
  (* Back wall *)
  let vertices := push_back vertices (Vertex.mk (v3 ([-] width [/] of_int 2) zero ([-] depth [/] of_int 2)) (n3 0 0 (-1)) (t2 0 0) wallColor) in
  let vertices := push_back vertices (Vertex.mk (v3 (width [/] of_int 2) zero ([-] depth [/] of_int 2)) (n3 0 0 (-1)) (t2 1 0) wallColor) in
  let vertices := push_back vertices (Vertex.mk (v3 (width [/] of_int 2) height ([-] depth [/] of_int 2)) (n3 0 0 (-1)) (t2 1 1) wallColor) in
  let vertices := push_back vertices (Vertex.mk (v3 ([-] width [/] of_int 2) height ([-] depth [/] of_int 2)) (n3 0 0 (-1)) (t2 0 1) wallColor) in
  let indices := push3 indices 4 5 6 in
  let indices := push3 indices 6 7 4 in
  (* Left wall *)
  let vertices := push_back vertices (Vertex.mk (v3 ([-] width [/] of_int 2) zero ([-] depth [/] of_int 2)) (n3 (-1) 0 0) (t2 0 0) wallColor) in
  let vertices := push_back vertices (Vertex.mk (v3 ([-] width [/] of_int 2) zero (depth [/] of_int 2)) (n3 (-1) 0 0) (t2 1 0) wallColor) in
  let vertices := push_back vertices (Vertex.mk (v3 ([-] width [/] of_int 2) height (depth [/] of_int 2)) (n3 (-1) 0 0) (t2 1 1) wallColor) in
  let vertices := push_back vertices (Vertex.mk (v3 ([-] width [/] of_int 2) height ([-] depth [/] of_int 2)) (n3 (-1) 0 0) (t2 0 1) wallColor) in
  let indices := push3 indices 8 9 10 in
  let indices := push3 indices 10 11 8 in
  (* Right wall *)
  let vertices := push_back vertices (Vertex.mk (v3 (width [/] of_int 2) zero ([-] depth [/] of_int 2)) (n3 1 0 0) (t2 0 0) wallColor) in
  let vertices := push_back vertices (Vertex.mk (v3 (width [/] of_int 2) zero (depth [/] of_int 2)) (n3 1 0 0) (t2 1 0) wallColor) in
  let vertices := push_back vertices (Vertex.mk (v3 (width [/] of_int 2) height (depth [/] of_int 2)) (n3 1 0 0) (t2 1 1) wallColor) in
  let vertices := push_back vertices (Vertex.mk (v3 (width [/] of_int 2) height ([-] depth [/] of_int 2)) (n3 1 0 0) (t2 0 1) wallColor) in
  let indices := push3 indices 12 13 14 in
  let indices := push3 indices 14 15 12 in
  (* Roof (front triangle) *)
  let vertices := push_back vertices (Vertex.mk (v3 ([-] width [/] of_int 2) height (depth [/] of_int 2)) (n3 0 1 0) (t2 0 0) roofColor) in
  let vertices := push_back vertices (Vertex.mk (v3 (width [/] of_int 2) height (depth [/] of_int 2)) (n3 0 1 0) (t2 1 0) roofColor) in
  let vertices := push_back vertices (Vertex.mk (v3 zero (height [+] roofHeight) zero) (n3 0 1 0) top roofColor) in
  let indices := push3 indices 16 17 18 in
  (* Roof (back triangle) *)
  let vertices := push_back vertices (Vertex.mk (v3 ([-] width [/] of_int 2) height ([-] depth [/] of_int 2)) (n3 0 1 0) (t2 0 0) roofColor) in
  let vertices := push_back vertices (Vertex.mk (v3 (width [/] of_int 2) height ([-] depth [/] of_int 2)) (n3 0 1 0) (t2 1 0) roofColor) in
  let vertices := push_back vertices (Vertex.mk (v3 zero (height [+] roofHeight) zero) (n3 0 1 0) top roofColor) in
  let indices := push3 indices 19 20 18 in
  (* Roof (left side) *)
  let vertices := push_back vertices (Vertex.mk (v3 ([-] width [/] of_int 2) height ([-] depth [/] of_int 2)) (Vec3.mk (of_int (-1)) (flit (1 # 2)) (of_int 0)) (t2 0 0) roofColor) in
  let vertices := push_back vertices (Vertex.mk (v3 ([-] width [/] of_int 2) height (depth [/] of_int 2)) (Vec3.mk (of_int (-1)) (flit (1 # 2)) (of_int 0)) (t2 1 0) roofColor) in
  let vertices := push_back vertices (Vertex.mk (v3 zero (height [+] roofHeight) zero) (Vec3.mk (of_int (-1)) (flit (1 # 2)) (of_int 0)) top roofColor) in
  let indices := push3 indices 19 16 18 in
  (* Roof (right side) *)
  let vertices := push_back vertices (Vertex.mk (v3 (width [/] of_int 2) height ([-] depth [/] of_int 2)) (Vec3.mk (of_int 1) (flit (1 # 2)) (of_int 0)) (t2 0 0) roofColor) in
  let vertices := push_back vertices (Vertex.mk (v3 (width [/] of_int 2) height (depth [/] of_int 2)) (Vec3.mk (of_int 1) (flit (1 # 2)) (of_int 0)) (t2 1 0) roofColor) in
  let vertices := push_back vertices (Vertex.mk (v3 zero (height [+] roofHeight) zero) (Vec3.mk (of_int 1) (flit (1 # 2)) (of_int 0)) top roofColor) in
  let indices := push3 indices 20 17 18 in
  (* Door *)
  let vertices := push_back vertices (Vertex.mk (v3 ([-] flit (1 # 2)) zero (depth [/] of_int 2 [+] flit (1 # 100))) (n3 0 0 1) (t2 0 0) doorColor) in
  let vertices := push_back vertices (Vertex.mk (v3 (flit (1 # 2)) zero (depth [/] of_int 2 [+] flit (1 # 100))) (n3 0 0 1) (t2 1 0) doorColor) in
  let vertices := push_back vertices (Vertex.mk (v3 (flit (1 # 2)) (flit 2) (depth [/] of_int 2 [+] flit (1 # 100))) (n3 0 0 1) (t2 1 1) doorColor) in
  let vertices := push_back vertices (Vertex.mk (v3 ([-] flit (1 # 2)) (flit 2) (depth [/] of_int 2 [+] flit (1 # 100))) (n3 0 0 1) (t2 0 1) doorColor) in
  let indices := push3 indices 24 25 26 in
  let indices := push3 indices 26 27 24 in
  (* Windows *)
  (* Left window *)
  let vertices := push_back vertices (Vertex.mk (v3 ([-] width [/] of_int 2 [+] flit (1 # 100)) (flit (15 # 10)) (flit (1 # 2))) (n3 (-1) 0 0) (t2 0 0) windowColor) in
  let vertices := push_back vertices (Vertex.mk (v3 ([-] width [/] of_int 2 [+] flit (1 # 100)) (flit (15 # 10)) ([-] flit (1 # 2))) (n3 (-1) 0 0) (t2 1 0) windowColor) in
  let vertices := push_back vertices (Vertex.mk (v3 ([-] width [/] of_int 2 [+] flit (1 # 100)) (flit (25 # 10)) ([-] flit (1 # 2))) (n3 (-1) 0 0) (t2 1 1) windowColor) in
  let vertices := push_back vertices (Vertex.mk (v3 ([-] width [/] of_int 2 [+] flit (1 # 100)) (flit (25 # 10)) (flit (1 # 2))) (n3 (-1) 0 0) (t2 0 1) windowColor) in
  let indices := push3 indices 28 29 30 in
  let indices := push3 indices 30 31 28 in
  (* Right window *)
  let vertices := push_back vertices (Vertex.mk (v3 (width [/] of_int 2 [-] flit (1 # 100)) (flit (15 # 10)) (flit (1 # 2))) (n3 1 0 0) (t2 0 0) windowColor) in
  let vertices := push_back vertices (Vertex.mk (v3 (width [/] of_int 2 [-] flit (1 # 100)) (flit (15 # 10)) ([-] flit (1 # 2))) (n3 1 0 0) (t2 1 0) windowColor) in
  let vertices := push_back vertices (Vertex.mk (v3 (width [/] of_int 2 [-] flit (1 # 100)) (flit (25 # 10)) ([-] flit (1 # 2))) (n3 1 0 0) (t2 1 1) windowColor) in
  let vertices := push_back vertices (Vertex.mk (v3 (width [/] of_int 2 [-] flit (1 # 100)) (flit (25 # 10)) (flit (1 # 2))) (n3 1 0 0) (t2 0 1) windowColor) in
  let indices := push3 indices 32 33 34 in
  let indices := push3 indices 34 35 32 in
  (* Floor *)
  let vertices := push_back vertices (Vertex.mk (v3 ([-] width [/] of_int 2 [-] of_int 2) ([-] flit (1 # 100)) ([-] depth [/] of_int 2 [-] of_int 2)) (n3 0 1 0) (t2 0 0) floorColor) in
  let vertices := push_back vertices (Vertex.mk (v3 (width [/] of_int 2 [+] of_int 2) ([-] flit (1 # 100)) ([-] depth [/] of_int 2 [-] of_int 2)) (n3 0 1 0) (t2 1 0) floorColor) in
  let vertices := push_back vertices (Vertex.mk (v3 (width [/] of_int 2 [+] of_int 2) ([-] flit (1 # 100)) (depth [/] of_int 2 [+] of_int 2)) (n3 0 1 0) (t2 1 1) floorColor) in
  let vertices := push_back vertices (Vertex.mk (v3 ([-] width [/] of_int 2 [-] of_int 2) ([-] flit (1 # 100)) (depth [/] of_int 2 [+] of_int 2)) (n3 0 1 0) (t2 0 1) floorColor) in
  let indices := push3 indices 36 37 38 in
  let indices := push3 indices 38 39 36 in
  let mesh := Mesh.set_vertices mesh vertices in
  let mesh := Mesh.set_indices mesh indices in
  Mesh.mk (Mesh.vertices mesh) (Mesh.indices mesh) (Vec3.mk (flit 1) (flit 1) (flit 1))
          (Mesh.VAO mesh) (Mesh.VBO mesh) (Mesh.EBO mesh).
End House.

End ObjModel.

(** * [model_rendering_viewport.cpp]: the orbit camera *)

Module Viewport.

(** GLFW's button and action codes *)
Definition GLFW_RELEASE : Z := 0.
Definition GLFW_PRESS : Z := 1.
Definition GLFW_MOUSE_BUTTON_LEFT : Z := 0.
Definition GLFW_MOUSE_BUTTON_RIGHT : Z := 1.

Section Defs.
Context {F : Type} {FO : FloatOps F}.
Local Open Scope float_scope.

(** [glm::pi<float>()]: the float nearest to pi, 13176795 / 2^22 *)
Definition pi : F := flit (13176795 # 4194304).

(** [FLT_MAX]: [(2^24 - 1) * 2^104] *)
Definition FLT_MAX : F := of_int ((2 ^ 24 - 1) * 2 ^ 104).

(** [glm::max], [glm::min], [glm::clamp] *)
Definition glm_max (a b : F) : F := if a [<] b then b else a.
Definition glm_min (a b : F) : F := if b [<] a then b else a.
Definition glm_clamp (v minVal maxVal : F) : F := glm_min (glm_max v minVal) maxVal.

(** [glm::vec2] and [glm::vec3], with the operators the camera uses *)
Record vec2 : Type := mkvec2 { u : F; v : F }.
Record vec3 : Type := mkvec3 { x : F; y : F; z : F }.

Definition vec2_sub (a b : vec2) : vec2 := mkvec2 (u a [-] u b) (v a [-] v b).
Definition vec3_splat (s : F) : vec3 := mkvec3 s s s.
Definition vec3_add (a b : vec3) : vec3 := mkvec3 (x a [+] x b) (y a [+] y b) (z a [+] z b).
Definition vec3_sub (a b : vec3) : vec3 := mkvec3 (x a [-] x b) (y a [-] y b) (z a [-] z b).
Definition vec3_mul (a : vec3) (s : F) : vec3 := mkvec3 (x a [*] s) (y a [*] s) (z a [*] s).

(** what the camera reads of a [GameObject] *)
Record GameObject : Type := mkobj { bboxMin : vec3; bboxMax : vec3; position : vec3 }.

(** the globals of the file that the camera functions read and write *)
Record camera : Type := mkcam {
  cameraDistance : F;
  cameraYaw : F;
  cameraPitch : F;
  cameraTarget : vec3;
  lastMousePos : vec2;
  isMouseDragging : bool;
  dragButton : Z;
  isViewportHovered : bool
}.

Definition set_cameraDistance (c : camera) (d : F) : camera :=
  mkcam d (cameraYaw c) (cameraPitch c) (cameraTarget c) (lastMousePos c)
        (isMouseDragging c) (dragButton c) (isViewportHovered c).
Definition set_cameraYaw (c : camera) (a : F) : camera :=
  mkcam (cameraDistance c) a (cameraPitch c) (cameraTarget c) (lastMousePos c)
        (isMouseDragging c) (dragButton c) (isViewportHovered c).
Definition set_cameraPitch (c : camera) (a : F) : camera :=
  mkcam (cameraDistance c) (cameraYaw c) a (cameraTarget c) (lastMousePos c)
        (isMouseDragging c) (dragButton c) (isViewportHovered c).
Definition set_cameraTarget (c : camera) (t : vec3) : camera :=
  mkcam (cameraDistance c) (cameraYaw c) (cameraPitch c) t (lastMousePos c)
        (isMouseDragging c) (dragButton c) (isViewportHovered c).
Definition set_lastMousePos (c : camera) (p : vec2) : camera :=
  mkcam (cameraDistance c) (cameraYaw c) (cameraPitch c) (cameraTarget c) p
        (isMouseDragging c) (dragButton c) (isViewportHovered c).
Definition set_isMouseDragging (c : camera) (b : bool) : camera :=
  mkcam (cameraDistance c) (cameraYaw c) (cameraPitch c) (cameraTarget c) (lastMousePos c)
        b (dragButton c) (isViewportHovered c).
Definition set_dragButton (c : camera) (b : Z) : camera :=
  mkcam (cameraDistance c) (cameraYaw c) (cameraPitch c) (cameraTarget c) (lastMousePos c)
        (isMouseDragging c) b (isViewportHovered c).
Definition set_isViewportHovered (c : camera) (h : bool) : camera :=
  mkcam (cameraDistance c) (cameraYaw c) (cameraPitch c) (cameraTarget c) (lastMousePos c)
        (isMouseDragging c) (dragButton c) h.

(** the initial values of the globals *)
Definition initial : camera :=
  mkcam (flit 10) (flit 0) (flit (3 # 10)) (mkvec3 (flit 0) (flit 0) (flit 0))
        (mkvec2 (flit 0) (flit 0)) false (-1) false.

(** [xpos], [ypos]: the cursor position that [glfwGetCursorPos] reports,
    already converted to [float] *)
Definition mouse_button_callback (button action : Z) (xpos ypos : F) (c : camera) : camera :=
  if negb (isViewportHovered c) then c else
  if (button =? GLFW_MOUSE_BUTTON_LEFT) || (button =? GLFW_MOUSE_BUTTON_RIGHT) then
    if (action =? GLFW_PRESS) then
      let c := set_isMouseDragging c true in
      let c := set_dragButton c button in
      set_lastMousePos c (mkvec2 xpos ypos)
    else if (action =? GLFW_RELEASE) then
      let c := set_isMouseDragging c false in
      set_dragButton c (-1)
    else c
  else c.

(** [xpos], [ypos] already converted to [float] *)
Definition cursor_pos_callback (xpos ypos : F) (c : camera) : camera :=
  if negb (isMouseDragging c) || negb (isViewportHovered c) then c else
  let currentMousePos := mkvec2 xpos ypos in
  let delta := vec2_sub currentMousePos (lastMousePos c) in
  let c :=
    if (dragButton c =? GLFW_MOUSE_BUTTON_LEFT) then
      (* Rotate camera *)
      let c := set_cameraYaw c (cameraYaw c [-] u delta [*] flit (1 # 100)) in
      let c := set_cameraPitch c (cameraPitch c [-] v delta [*] flit (1 # 100)) in
      set_cameraPitch c
        (glm_clamp (cameraPitch c) ([-] pi [/] of_int 2 [+] flit (1 # 10))
                                   (pi [/] of_int 2 [-] flit (1 # 10)))
    else if (dragButton c =? GLFW_MOUSE_BUTTON_RIGHT) then
      (* Pan camera *)
      let panSpeed := cameraDistance c [*] flit (2 # 1000) in
      let t := cameraTarget c in
      let t := mkvec3 (x t [-] u delta [*] panSpeed) (y t) (z t) in
      let t := mkvec3 (x t) (y t [+] v delta [*] panSpeed) (z t) in
      set_cameraTarget c t
    else c in
  set_lastMousePos c currentMousePos.

(** [yoffset] already converted to [float] *)
Definition scroll_callback (xoffset yoffset : F) (c : camera) : camera :=
  if negb (isViewportHovered c) then c else
  (* Zoom camera *)
  let zoomSpeed := cameraDistance c [*] flit (1 # 10) in
  let c := set_cameraDistance c (cameraDistance c [-] yoffset [*] zoomSpeed) in
  set_cameraDistance c (glm_clamp (cameraDistance c) (flit (1 # 2)) (flit 100)).

(** [updateCamera()], which [render3DSceneToViewport] runs in every frame
    before it computes the view matrix *)
Definition updateCamera (c : camera) : camera :=
  (* Limit camera pitch *)
  let maxPitch := pi [/] flit 2 [-] flit (1 # 100) in
  let minPitch := [-] maxPitch in
  let c := if cameraPitch c [>] maxPitch then set_cameraPitch c maxPitch else c in
  let c := if cameraPitch c [<] minPitch then set_cameraPitch c minPitch else c in
  (* Keep camera distance in bounds *)
  let c := if cameraDistance c [<] flit (1 # 2)
           then set_cameraDistance c (flit (1 # 2)) else c in
  if cameraDistance c [>] flit 100 then set_cameraDistance c (flit 100) else c.

(** [centerAllModels()], for the scene [objects]: called by [main] before
    the loop, by the menus and by Ctrl+C *)
Definition centerAllModels (objects : list GameObject) (c : camera) : camera :=
  match objects with
  | [] => c
  | _ =>
      (* Calculate collective bounding box *)
      let '(bmin, bmax) :=
        fold_left (fun '(bmin, bmax) obj =>
          let objMin := vec3_add (bboxMin obj) (position obj) in
          let objMax := vec3_add (bboxMax obj) (position obj) in
          (mkvec3 (glm_min (x bmin) (x objMin)) (glm_min (y bmin) (y objMin))
                  (glm_min (z bmin) (z objMin)),
           mkvec3 (glm_max (x bmax) (x objMax)) (glm_max (y bmax) (y objMax))
                  (glm_max (z bmax) (z objMax))))
          objects (vec3_splat FLT_MAX, vec3_splat ([-] FLT_MAX)) in
      (* Calculate center *)
      let center := vec3_mul (vec3_add bmin bmax) (flit (1 # 2)) in
      (* Move camera target to center *)
      let c := set_cameraTarget c center in
      (* Adjust camera distance based on bounding box size *)
      let size := vec3_sub bmax bmin in
      let maxSize := glm_max (glm_max (x size) (y size)) (z size) in
      set_cameraDistance c (glm_max (flit 5) (maxSize [*] flit 2))
  end.

(** [autoCenterSelectedModel()], for the scene [objects] and the
    selection: called after every import, by the menus and panels, and by
    the F key *)
Definition autoCenterSelectedModel (objects : list GameObject) (selectedObjectIndex : Z)
           (c : camera) : camera :=
  if (selectedObjectIndex >=? 0) && (selectedObjectIndex <? Z.of_nat (List.length objects))
  then
    match nth_error objects (Z.to_nat selectedObjectIndex) with
    | Some obj =>
        (* Move camera to look at the object *)
        let c := set_cameraTarget c (position obj) in
        (* Calculate appropriate camera distance based on object size *)
        let size := vec3_sub (bboxMax obj) (bboxMin obj) in
        let maxSize := glm_max (glm_max (x size) (y size)) (z size) in
        set_cameraDistance c (glm_max (flit 3) (maxSize [*] flit 2))
    | None => c
    end
  else c.

(** the menu entry "New Scene" *)
Definition newScene (c : camera) : camera :=
  let c := set_cameraTarget c (vec3_splat (flit 0)) in
  set_cameraDistance c (flit 10).

(** the menu entry "Reset Camera" *)
Definition resetCamera (c : camera) : camera :=
  let c := set_cameraDistance c (flit 10) in
  let c := set_cameraYaw c (flit 0) in
  let c := set_cameraPitch c (flit (3 # 10)) in
  set_cameraTarget c (vec3_splat (flit 0)).

(** What writes the camera.  The three mouse callbacks with their
    arguments; [showViewport], which stores whether the viewport is
    hovered; the frame update; the two centring functions, with the scene
    they find; the two menu entries; and the keys W, S, A, D, Q, E, which
    move [cameraTarget] along the axes of the view (any new target
    here). *)
Inductive event : Type :=
  | MouseButton (button action : Z) (xpos ypos : F)
  | CursorPos (xpos ypos : F)
  | Scroll (xoffset yoffset : F)
  | Hover (h : bool)
  | Frame
  | CenterAll (objects : list GameObject)
  | AutoCenter (objects : list GameObject) (selectedObjectIndex : Z)
  | NewScene
  | ResetCamera
  | MoveTarget (t : vec3).

Definition step (c : camera) (e : event) : camera :=
  match e with
  | MouseButton b a xp yp => mouse_button_callback b a xp yp c
  | CursorPos xp yp => cursor_pos_callback xp yp c
  | Scroll xo yo => scroll_callback xo yo c
  | Hover h => set_isViewportHovered c h
  | Frame => updateCamera c
  | CenterAll objects => centerAllModels objects c
  | AutoCenter objects i => autoCenterSelectedModel objects i c
  | NewScene => newScene c
  | ResetCamera => resetCamera c
  | MoveTarget t => set_cameraTarget c t
  end.

(** the camera after the events [evs], from the start of the program *)
Definition run (evs : list event) : camera := fold_left step evs initial.
End Defs.
Arguments vec2 : clear implicits.
Arguments vec3 : clear implicits.
Arguments GameObject : clear implicits.
Arguments camera : clear implicits.
Arguments event : clear implicits.
End Viewport.

Unset Implicit Arguments.

(** * Vocabulary of the properties *)

(** A triangle list over a vertex list: the indices come three by three,
    and each one names a vertex. *)
Definition well_indexed {F : Type} (m : Main.Mesh.t F) : Prop :=
  Z.of_nat (List.length (Main.Mesh.indices m)) mod 3 = 0 /\
  Forall (fun i => 0 <= i < Z.of_nat (List.length (Main.Mesh.vertices m)))
         (Main.Mesh.indices m).

(** the same for the indices [ids] of a mesh of [n] vertices, whatever
    the type of its vertices *)
Definition triangle_list (n : nat) (ids : list Z) : Prop :=
  Z.of_nat (List.length ids) mod 3 = 0 /\
  Forall (fun i => 0 <= i < Z.of_nat n) ids.

(** ** The orbit camera *)

Section CameraSpec.
Context {FO : FloatOps Q}.

(** the bounds [cursor_pos_callback] clamps the pitch to, and the upper
    one of [updateCamera] *)
Definition pitch_lo : Q := (- Viewport.pi / inject_Z 2 + (1 # 10))%Q.
Definition pitch_hi : Q := (Viewport.pi / inject_Z 2 - (1 # 10))%Q.
Definition maxPitch : Q := (Viewport.pi / 2 - (1 # 100))%Q.

(** what every writer of the camera maintains *)
Definition camera_inv (c : Viewport.camera Q) : Prop :=
  (pitch_lo <= Viewport.cameraPitch c <= pitch_hi)%Q /\
  ((1 # 2) <= Viewport.cameraDistance c)%Q.

(** whether an event is a call of one of the two centring functions *)
Definition is_centring (e : Viewport.event Q) : bool :=
  match e with
  | Viewport.CenterAll _ | Viewport.AutoCenter _ _ => true
  | _ => false
  end.

(** [centred b e]: a centring function has run since the last frame
    update, when [b] says so before the event [e] *)
Definition centred (b : bool) (e : Viewport.event Q) : bool :=
  match e with
  | Viewport.Frame => false
  | _ => is_centring e || b
  end.

Definition centred_since_frame (evs : list (Viewport.event Q)) : bool :=
  fold_left centred evs false.

(** Claim C8 as the specification states it, for the camera after the
    events [evs]: the pitch is below [pi/2 + eps] in absolute value and
    the distance is within [[0.5, 100]]. *)
Definition camera_bounds_claim (eps : Q) (evs : list (Viewport.event Q)) : Prop :=
  let c := Viewport.run evs in
  (Qabs (Viewport.cameraPitch c) < Viewport.pi / 2 + eps)%Q /\
  ((1 # 2) <= Viewport.cameraDistance c <= 100)%Q.
End CameraSpec.

(** ** The height field and the game *)

(** the sample of the height map at the grid point [(xi, zi)] *)
Definition corner (tr : Main.Terrain.t Q) (xi zi : Z) : Q :=
  arr_get (inject_Z 0) (Main.Terrain.heightMap tr) (zi * Main.Terrain.width tr + xi).

(** the fields that the generators of obstacles, collectibles, trees and
    grass do not touch *)
Definition same_core (a b : Main.Game.t Q) : Prop :=
  Main.Game.player b = Main.Game.player a /\
  Main.Game.terrain b = Main.Game.terrain a /\
  Main.Game.score b = Main.Game.score a /\
  Main.Game.gameSpeed b = Main.Game.gameSpeed a /\
  Main.Game.currentState b = Main.Game.currentState a.

Section GameSpec.
Context {R : Type} {FO : FloatOps Q} {RO : Random Q R}.

(** The states the program can bring its [Game] and the global random
    generator to: the constructor; [update] with the frame time of the
    main loop, which is not negative; the input handlers and the menu
    actions; writes through the references that [getPlayer],
    [getTerrain], [getObstacles], [getCollectibles], [getTrees] and
    [getGrassPatches] hand out; draws from the generator by the
    renderer. *)
Inductive reachable : Main.Game.t Q * R -> Prop :=
  | reach_new (g : R) : reachable (Main.Game.new g)
  | reach_update (dt : Q) (st : Main.Game.t Q * R) :
      reachable st -> (0 <= dt)%Q -> reachable (Main.Game.update dt st)
  | reach_handleInput (key action : Z) (gm : Main.Game.t Q) (g : R) :
      reachable (gm, g) -> reachable (Main.Game.handleInput key action gm, g)
  | reach_togglePause (gm : Main.Game.t Q) (g : R) :
      reachable (gm, g) -> reachable (Main.Game.togglePause gm, g)
  | reach_startGame (st : Main.Game.t Q * R) :
      reachable st -> reachable (Main.Game.startGame st)
  | reach_returnToMenu (gm : Main.Game.t Q) (g : R) :
      reachable (gm, g) -> reachable (Main.Game.returnToMenu gm, g)
  | reach_getters (gm : Main.Game.t Q) (g : R)
      (pl : Main.MetaBall.t Q) (tr : Main.Terrain.t Q) (obs : list (Main.Obstacle.t Q))
      (cs : list (Main.Vec3.t Q)) (ts : list (Main.Tree.t Q)) (gs : list (Main.Vec3.t Q)) :
      reachable (gm, g) ->
      reachable
        (Main.Game.set_grassPatches
           (Main.Game.set_trees
              (Main.Game.set_collectibles
                 (Main.Game.set_obstacles
                    (Main.Game.set_terrain (Main.Game.set_player gm pl) tr) obs) cs) ts) gs,
         g)
  | reach_draw (gm : Main.Game.t Q) (g g' : R) :
      reachable (gm, g) -> reachable (gm, g').

(** The scenery ends far ahead: the three vectors whose last element
    [update] reads are not empty, and the last obstacle and the last
    grass patch are at [z <= -150], the last tree at [z <= -200]. *)
Definition scenery_is_far (gm : Main.Game.t Q) : Prop :=
  Main.Game.obstacles gm <> [] /\ Main.Game.trees gm <> [] /\
  Main.Game.grassPatches gm <> [] /\
  (Main.Vec3.z (Main.Obstacle.position (back Main.Obstacle.new (Main.Game.obstacles gm)))
   <= - (150))%Q /\
  (Main.Vec3.z (Main.Tree.position (back Main.Tree.new (Main.Game.trees gm)))
   <= - (200))%Q /\
  (Main.Vec3.z (back Main.Vec3.zero (Main.Game.grassPatches gm)) <= - (150))%Q.
End GameSpec.

(** ** Closed instances, for evaluation

    Stand-ins for the functions of libm, used only where a closed term has
    to be computed; nothing that is proved for every libm depends on them.
    [Qsqrt_floor] is the integer square root of [n * d] over [d], exact
    on the squares of rationals; [sin] and [cos] are cut after their first
    term. *)
Definition Qsqrt_floor (q : Q) : Q := Z.sqrt (Qnum q * Zpos (Qden q)) # Qden q.
Definition Q_eval : FloatOps Q := Q_ops Qsqrt_floor (fun a => a) (fun _ => 1%Q).
Definition F32_eval : FloatOps f32 := F32_ops (fun a => a) (fun _ => f32_of_Z 1).

(** a generator whose every draw is 1/2, and [rand()] is 0 *)
Definition fixed_draws {F : Type} {FO : FloatOps F} : Random F unit :=
  {| dis := fun g => (flit (1 # 2), g); rand := fun g => (0, g) |}.

Section Examples.
Context {F : Type} {FO : FloatOps F}.

(** a 100 x 200 grid of cell size 1 whose height is the column number:
    a ramp rising along x *)
Definition ramp : Main.Terrain.t F :=
  Main.Terrain.mk
    (flat_map (fun _ => map of_int (map Z.of_nat (seq 0 100))) (seq 0 200))
    100 200 (flit 1).

(** the same grid, flat at the height 0.1 of the road *)
Definition flat_road : Main.Terrain.t F :=
  Main.Terrain.mk (repeat (flit (1 # 10)) (Z.to_nat (100 * 200))) 100 200 (flit 1).

(** A game in play on [flat_road]: the ball of [MetaBall()] at
    [(0, 0.55, 0)], its lowest point 0.05 below the road, falling at
    [velocity.y = -1]; one obstacle, one collectible, one tree and one
    grass patch, all far from the ball. *)
Definition sunk_ball : Main.MetaBall.t F :=
  Main.MetaBall.set_velocity
    (Main.MetaBall.set_position Main.MetaBall.new
       (Main.Vec3.mk (of_int 0) (flit (55 # 100)) (of_int 0)))
    (Main.Vec3.mk (of_int 0) (of_int (-1)) (of_int 0)).

Definition sunk_game : Main.Game.t F :=
  Main.Game.mk sunk_ball flat_road
    [Main.Obstacle.mk (Main.Vec3.mk (of_int 0) (of_int 0) (of_int (-30)))
       (flit 1) (flit 1) (flit 1)
       (Main.Vec3.mk (flit (9 # 10)) (flit (3 # 10)) (flit (1 # 10))) true (flit 10) 0]
    [Main.Vec3.mk (of_int 0) (of_int 1) (of_int (-20))]
    [Main.Tree.mk (Main.Vec3.mk (of_int 102) (of_int 0) (of_int (-20)))
       (flit 3) (flit (2 # 10)) (flit (15 # 10))
       (Main.Vec3.mk (flit (4 # 10)) (flit (2 # 10)) (flit (1 # 10)))
       (Main.Vec3.mk (flit (1 # 10)) (flit (5 # 10)) (flit (2 # 10)))]
    [Main.Vec3.mk (of_int 101) (flit (1 # 10)) (of_int (-10))]
    (flit 10) (flit 1) (of_int 0) (of_int 0) false false false
    (Main.Vec3.mk (of_int 0) (of_int 5) (of_int 10))
    (Main.Vec3.mk (of_int 0) (of_int 2) (of_int 0))
    (of_int 0) (flit 8) (of_int 0) (flit (1 # 10)) Main.Game.PLAYING.

(** The same game with the scenery far ahead: the obstacle, the tree and
    the grass patch where the last ones of a new game are. *)
Definition far_game : Main.Game.t F :=
  Main.Game.set_grassPatches
    (Main.Game.set_trees
       (Main.Game.set_obstacles sunk_game
          [Main.Obstacle.mk (Main.Vec3.mk (of_int 0) (of_int 0) (of_int (-315)))
             (flit 1) (flit 1) (flit 1)
             (Main.Vec3.mk (flit (9 # 10)) (flit (3 # 10)) (flit (1 # 10))) true (flit 10) 0])
       [Main.Tree.mk (Main.Vec3.mk (of_int 102) (of_int 0) (of_int (-600)))
          (flit 3) (flit (2 # 10)) (flit (15 # 10))
          (Main.Vec3.mk (flit (4 # 10)) (flit (2 # 10)) (flit (1 # 10)))
          (Main.Vec3.mk (flit (1 # 10)) (flit (5 # 10)) (flit (2 # 10)))])
    [Main.Vec3.mk (of_int 101) (flit (1 # 10)) (of_int (-402))].
End Examples.

Section GroundCollisionSpec.
Context {R : Type} {FO : FloatOps Q} {RO : Random Q R}.

(** the height of the terrain under the ball *)
Definition terrainHeightAt (gm : Main.Game.t Q) : Q :=
  Main.Terrain.getHeight (Main.Game.terrain gm)
    (Main.Vec3.x (Main.MetaBall.position (Main.Game.player gm)))
    (Main.Vec3.z (Main.MetaBall.position (Main.Game.player gm))).

(** the distance of the lowest point of the ball to the plane [y = 0] *)
Definition clearance (gm : Main.Game.t Q) : Q :=
  (Main.Vec3.y (Main.MetaBall.position (Main.Game.player gm))
   - Main.MetaBall.radius (Main.Game.player gm))%Q.

(** Claim C1 as the specification states it, for one [update] of the
    game: a ball that starts the step below the terrain ends it on the
    terrain (up to 1e-4), with [velocity.y] reversed and scaled by the
    elasticity. *)
Definition ground_collision_claim (st : Main.Game.t Q * R) (deltaTime : Q) : Prop :=
  let gm := fst st in
  (0 <= deltaTime)%Q ->
  (clearance gm < terrainHeightAt gm)%Q ->
  let gm' := fst (Main.Game.update deltaTime st) in
  (terrainHeightAt gm' - (1 # 10000) <= clearance gm')%Q /\
  (Main.Vec3.y (Main.MetaBall.velocity (Main.Game.player gm'))
   == - Main.Vec3.y (Main.MetaBall.velocity (Main.Game.player gm))
      * Main.MetaBall.elasticity (Main.Game.player gm))%Q.
End GroundCollisionSpec.

(** ** OBJ files *)

(** the first word of a line, which [loadOBJ] dispatches on *)
Definition line_prefix (line : string) : string :=
  fst (read_word (istringstream line)).

Definition is_face_line (line : string) : bool := String.eqb (line_prefix line) "f".
Definition is_position_line (line : string) : bool := String.eqb (line_prefix line) "v".

Section ObjSpec.
Context {F : Type} {FO : FloatOps F}.
Variable scan_float : string -> option (F * string).
Variable indeterminate : F.

(** Claim C3 as the specification states it: the import returns
    failure, and leaves the mesh as it was, when the file cannot be
    opened and when the file has no [v] line. *)
Definition import_failure_claim (fs : filesystem) (filepath : string)
           (mesh : ObjModel.Mesh.t F) : Prop :=
  (fs filepath = None ->
   ObjModel.OBJLoader.loadOBJ scan_float indeterminate fs filepath mesh = Ok (false, mesh)) /\
  (forall content,
      fs filepath = Some content ->
      existsb is_position_line (file_lines content) = false ->
      ObjModel.OBJLoader.loadOBJ scan_float indeterminate fs filepath mesh = Ok (false, mesh)).
End ObjSpec.

(** a reader of floats for the closed examples: it knows the one-digit
    integers *)
Definition scan_digit {F : Type} {FO : FloatOps F} (s : string) : option (F * string) :=
  match s with
  | String c rest =>
      if isdigit c then Some (of_int (Z.of_nat (nat_of_ascii c) - 48), rest) else None
  | EmptyString => None
  end.

(** a file system with one file, whose only line is a face *)
Definition only_a_face : filesystem :=
  fun path => if String.eqb path "face.obj" then Some "f 1 2 3"%string else None.

(** an empty mesh of the viewer, as [Mesh()] builds it *)
Definition empty_mesh {F : Type} {FO : FloatOps F} : ObjModel.Mesh.t F :=
  ObjModel.Mesh.mk [] [] (ObjModel.Vec3.mk (flit 1) (flit 1) (flit 1)) 0 0 0.

(** ** NaN *)

Definition has_nan (v : Main.Vec3.t f32) : bool :=
  is_nan (Main.Vec3.x v) || is_nan (Main.Vec3.y v) || is_nan (Main.Vec3.z v).

Definition all_finite (v : Main.Vec3.t f32) : bool :=
  is_finite (Main.Vec3.x v) && is_finite (Main.Vec3.y v) && is_finite (Main.Vec3.z v).

Definition obj_has_nan (v : ObjModel.Vec3.t f32) : bool :=
  is_nan (ObjModel.Vec3.x v) || is_nan (ObjModel.Vec3.y v) || is_nan (ObjModel.Vec3.z v).

Definition obj_all_finite (v : ObjModel.Vec3.t f32) : bool :=
  is_finite (ObjModel.Vec3.x v) && is_finite (ObjModel.Vec3.y v)
  && is_finite (ObjModel.Vec3.z v).

Section NanSpec.
Context {FO : FloatOps f32}.

(** Claim C4 as the specification states it, for the vectors of
    [main.cpp] and of [load_obj_model.cpp]: whatever the vector and the
    scalar, no component of a quotient or of a normalized vector is a
    NaN. *)
Definition no_nan_claim : Prop :=
  forall (v : Main.Vec3.t f32) (w : ObjModel.Vec3.t f32) (s : f32),
    has_nan (Main.Vec3.div v s) = false /\
    has_nan (Main.Vec3.normalize v) = false /\
    obj_has_nan (ObjModel.Vec3.div w s) = false /\
    obj_has_nan (ObjModel.Vec3.normalize w) = false.
End NanSpec.

(** a float that is [+0], positive, or [+infinity] *)
Definition pos_or_zero (a : spec_float) : bool :=
  match a with
  | S754_zero false | S754_infinity false | S754_finite false _ _ => true
  | _ => false
  end.

(** ** Sample inputs *)

(** the gravity of the game *)
Definition game_gravity : Main.Vec3.t Q := Main.Vec3.mk 0%Q (- (98 # 10))%Q 0%Q.

(** hovering the viewport, a left-button drag of 1000 pixels upwards, and
    a scroll of 50 notches *)
Definition wild_events : list (Viewport.event Q) :=
  [Viewport.Hover true;
   Viewport.MouseButton Viewport.GLFW_MOUSE_BUTTON_LEFT Viewport.GLFW_PRESS 0%Q 0%Q;
   Viewport.CursorPos 0%Q (-1000)%Q;
   Viewport.Scroll 0%Q 50%Q].

Section CameraExamples.
Context {F : Type} {FO : FloatOps F}.

(** an object whose bounding box is a cube of side 100, at the origin *)
Definition wide_object : Viewport.GameObject F :=
  Viewport.mkobj (Viewport.vec3_splat (of_int (-50))) (Viewport.vec3_splat (of_int 50))
                 (Viewport.vec3_splat (of_int 0)).

(** the camera is centred on [wide_object]; then, before the next frame,
    the left button is pressed in the viewport and the cursor moves by one
    pixel *)
Definition centre_then_drag : list (Viewport.event F) :=
  [Viewport.Hover true;
   Viewport.AutoCenter [wide_object] 0;
   Viewport.MouseButton Viewport.GLFW_MOUSE_BUTTON_LEFT Viewport.GLFW_PRESS
                        (of_int 0) (of_int 0);
   Viewport.CursorPos (of_int 1) (of_int 1)].
End CameraExamples.

Definition sample_matrix : Main.Mat4.t Q :=
  map inject_Z [1; 2; 3; 4; 5; 6; 7; 8; 9; 10; 11; 12; 13; 14; 15; 16].

(** a file system without any file *)
Definition no_file : filesystem := fun _ => None.

(** a file system with one file: a triangle and its three positions *)
Definition newline : string := String "010"%char EmptyString.
Definition one_triangle : filesystem :=
  fun path =>
    if String.eqb path "triangle.obj"
    then Some ("v 0 0 0" ++ newline ++ "v 1 0 0" ++ newline ++ "v 0 1 0" ++ newline
               ++ "f 1 2 3")%string
    else None.

Definition one_two_three : Main.Vec3.t f32 :=
  Main.Vec3.mk (f32_of_Z 1) (f32_of_Z 2) (f32_of_Z 3).
Definition obj_origin : ObjModel.Vec3.t f32 :=
  ObjModel.Vec3.mk (S754_zero false) (S754_zero false) (S754_zero false).

(** * Properties *)

(** ** Loops *)

(** an invariant of a [for] loop, indexed by the loop counter *)
Lemma for_loop_invariant {St : Type} (P : Z -> St -> Prop) (body : Z -> St -> St) :
  forall (n : nat) (i : Z) (s : St),
    P i s ->
    (forall j t, i <= j < i + Z.of_nat n -> P j t -> P (j + 1) (body j t)) ->
    P (i + Z.of_nat n) (for_loop n i body s).
Proof.
  induction n as [|n IH]; intros i s Hs Hstep; cbn [for_loop].
  - now rewrite Z.add_0_r.
  - replace (i + Z.of_nat (S n)) with ((i + 1) + Z.of_nat n) by lia.
    apply IH.
    + apply Hstep; [lia | exact Hs].
    + intros j t Hj. apply Hstep. lia.
Qed.

Lemma for_range_invariant {St : Type} (P : Z -> St -> Prop) (body : Z -> St -> St) :
  forall (lo hi : Z) (s : St),
    lo <= hi ->
    P lo s ->
    (forall j t, lo <= j < hi -> P j t -> P (j + 1) (body j t)) ->
    P hi (for_range lo hi body s).
Proof.
  intros lo hi s Hle Hs Hstep. unfold for_range.
  replace hi with (lo + Z.of_nat (Z.to_nat (hi - lo))) at 1 by lia.
  apply for_loop_invariant; [exact Hs|].
  intros j t Hj. apply Hstep. lia.
Qed.

(** a property of the state that every iteration keeps *)
Lemma for_range_preserves {St : Type} (P : St -> Prop) (body : Z -> St -> St) :
  forall (lo hi : Z) (s : St),
    P s -> (forall j t, P t -> P (body j t)) -> P (for_range lo hi body s).
Proof.
  intros lo hi s Hs Hstep. unfold for_range.
  generalize (Z.to_nat (hi - lo)) as n. intros n. revert lo s Hs.
  induction n as [|n IH]; intros lo s Hs; cbn [for_loop]; auto.
Qed.

(** ** Arrays *)

Lemma length_arr_set_nat {A : Type} (a : list A) (i : nat) (v : A) :
  List.length (arr_set_nat a i v) = List.length a.
Proof.
  revert i. induction a as [|h a IH]; intros [|i]; cbn; auto.
Qed.

Lemma length_arr_set {A : Type} (a : list A) (i : Z) (v : A) :
  List.length (arr_set a i v) = List.length a.
Proof.
  unfold arr_set. destruct (i <? 0); [reflexivity | apply length_arr_set_nat].
Qed.

Lemma nth_arr_set_nat {A : Type} (d : A) (a : list A) (i j : nat) (v : A) :
  nth j (arr_set_nat a i v) d
  = if (Nat.eqb i j && Nat.ltb i (List.length a))%bool then v else nth j a d.
Proof.
  revert i j. induction a as [|h a IH]; intros i j.
  - cbn [arr_set_nat List.length]. replace (Nat.ltb i 0) with false
      by (symmetry; apply Nat.ltb_ge; lia).
    rewrite andb_false_r. reflexivity.
  - destruct i as [|i], j as [|j]; cbn [arr_set_nat nth]; try reflexivity.
    rewrite IH. reflexivity.
Qed.

(** reading an array after a write *)
Lemma arr_get_set {A : Type} (d : A) (a : list A) (i j : Z) (v : A) :
  0 <= i < Z.of_nat (List.length a) -> 0 <= j ->
  arr_get d (arr_set a i v) j = if (i =? j)%Z then v else arr_get d a j.
Proof.
  intros Hi Hj. unfold arr_get, arr_set.
  replace (i <? 0) with false by (symmetry; apply Z.ltb_ge; lia).
  replace (j <? 0) with false by (symmetry; apply Z.ltb_ge; lia).
  rewrite nth_arr_set_nat.
  replace (Nat.ltb (Z.to_nat i) (List.length a)) with true
    by (symmetry; apply Nat.ltb_lt; lia).
  rewrite andb_true_r.
  destruct (Z.eqb_spec i j) as [E|E].
  - subst. now rewrite Nat.eqb_refl.
  - replace (Nat.eqb (Z.to_nat i) (Z.to_nat j)) with false; [reflexivity|].
    symmetry. apply Nat.eqb_neq. lia.
Qed.

(** ** Mesh generators *)

Section Generators.
Context {F : Type} {FO : FloatOps F}.

Lemma length_push_back {A : Type} (v : list A) (e : A) :
  List.length (push_back v e) = S (List.length v).
Proof. unfold push_back. rewrite length_app. cbn. lia. Qed.

Lemma generateCube_well_indexed : well_indexed (Main.generateCube (F := F)).
Proof.
  unfold well_indexed. split.
  - reflexivity.
  - cbn. repeat constructor; lia.
Qed.

Lemma generatePyramid_well_indexed : well_indexed (Main.generatePyramid (F := F)).
Proof.
  unfold well_indexed. split.
  - reflexivity.
  - cbn. repeat constructor; lia.
Qed.

Lemma Forall_push_back {A : Type} (P : A -> Prop) (v : list A) (e : A) :
  Forall P v -> P e -> Forall P (push_back v e).
Proof.
  intros Hv He. unfold push_back. apply Forall_app. split; [exact Hv|].
  now constructor.
Qed.

Lemma generateCylinder_well_indexed (segments : Z) :
  0 <= segments -> well_indexed (Main.generateCylinder (F := F) segments).
Proof.
  intros Hseg. unfold Main.generateCylinder.
  (* the first loop pushes two vertices per iteration and no index *)
  match goal with
  | |- well_indexed (for_range 0 segments ?body2 (for_range 0 (segments + 1) ?body1 ?m0)) =>
      set (b1 := body1); set (b2 := body2);
      assert (H1 : Z.of_nat (List.length (Main.Mesh.vertices (for_range 0 (segments + 1) b1 m0)))
                   = 2 * (segments + 1) /\
                   Main.Mesh.indices (for_range 0 (segments + 1) b1 m0) = [])
  end.
  { apply (for_range_invariant
             (fun i m => Z.of_nat (List.length (Main.Mesh.vertices m)) = 2 * i /\
                         Main.Mesh.indices m = [])); [lia | split; reflexivity |].
    intros j t Hj [Hlen Hidx]. subst b1.
    cbn [Main.Mesh.push_vertex Main.Mesh.vertices Main.Mesh.indices].
    rewrite !length_push_back. split; [lia | exact Hidx]. }
  destruct H1 as [Hlen Hidx].
  (* the second loop pushes six indices per iteration and no vertex *)
  set (m1 := for_range 0 (segments + 1) b1 _) in *.
  assert (H2 : Main.Mesh.vertices (for_range 0 segments b2 m1) = Main.Mesh.vertices m1 /\
               Z.of_nat (List.length (Main.Mesh.indices (for_range 0 segments b2 m1)))
               = 6 * segments /\
               Forall (fun i => 0 <= i < 2 * (segments + 1))
                      (Main.Mesh.indices (for_range 0 segments b2 m1))).
  { apply (for_range_invariant
             (fun i m => Main.Mesh.vertices m = Main.Mesh.vertices m1 /\
                         Z.of_nat (List.length (Main.Mesh.indices m)) = 6 * i /\
                         Forall (fun k => 0 <= k < 2 * (segments + 1)) (Main.Mesh.indices m)));
      [lia | rewrite Hidx; repeat split; constructor |].
    intros j t Hj (Hv & Hl & Hall). subst b2.
    cbn [Main.Mesh.push_index Main.Mesh.vertices Main.Mesh.indices].
    rewrite !length_push_back. repeat split; [exact Hv | lia |].
    repeat apply Forall_push_back; auto; lia. }
  destruct H2 as (Hv & Hl & Hall).
  unfold well_indexed. rewrite Hv, Hl, Hlen. split; [|exact Hall].
  replace (6 * segments) with ((2 * segments) * 3) by lia. apply Z_mod_mult.
Qed.

(** C6.  The index lists of the cube, the pyramid and the cylinder (of
    three segments or more) have a length divisible by three, and each
    index is below the number of vertices. *)
Theorem generators_well_indexed :
  forall segments : Z,
    3 <= segments ->
    well_indexed (Main.generateCube (F := F)) /\
    well_indexed (Main.generatePyramid (F := F)) /\
    well_indexed (Main.generateCylinder (F := F) segments).
Proof.
  intros segments Hseg. split; [|split].
  - apply generateCube_well_indexed.
  - apply generatePyramid_well_indexed.
  - apply generateCylinder_well_indexed. lia.
Qed.

(** *** Spheres, trunks and blades *)

(** a loop whose every iteration pushes [k] vertices and no index *)
Lemma vertex_loop (k : Z) (body : Z -> Main.Mesh.t F -> Main.Mesh.t F) :
  0 <= k ->
  (forall j m,
      Z.of_nat (List.length (Main.Mesh.vertices (body j m)))
      = Z.of_nat (List.length (Main.Mesh.vertices m)) + k /\
      Main.Mesh.indices (body j m) = Main.Mesh.indices m) ->
  forall (n : Z) (m : Main.Mesh.t F),
    0 <= n ->
    Z.of_nat (List.length (Main.Mesh.vertices (for_range 0 n body m)))
    = Z.of_nat (List.length (Main.Mesh.vertices m)) + n * k /\
    Main.Mesh.indices (for_range 0 n body m) = Main.Mesh.indices m.
Proof.
  intros Hk Hbody n m Hn.
  apply (for_range_invariant
           (fun i m' => Z.of_nat (List.length (Main.Mesh.vertices m'))
                        = Z.of_nat (List.length (Main.Mesh.vertices m)) + i * k /\
                        Main.Mesh.indices m' = Main.Mesh.indices m));
    [exact Hn | split; [lia | reflexivity] |].
  intros j t Hj [Hl Hi]. destruct (Hbody j t) as [Hl' Hi'].
  split; [lia | congruence].
Qed.

(** a loop whose every iteration pushes [k] indices below [bound] and no
    vertex *)
Lemma index_loop (k bound : Z) (body : Z -> Main.Mesh.t F -> Main.Mesh.t F) (n : Z) :
  0 <= n ->
  (forall j m,
      0 <= j < n ->
      Forall (fun i => 0 <= i < bound) (Main.Mesh.indices m) ->
      Main.Mesh.vertices (body j m) = Main.Mesh.vertices m /\
      Z.of_nat (List.length (Main.Mesh.indices (body j m)))
      = Z.of_nat (List.length (Main.Mesh.indices m)) + k /\
      Forall (fun i => 0 <= i < bound) (Main.Mesh.indices (body j m))) ->
  forall m : Main.Mesh.t F,
    Forall (fun i => 0 <= i < bound) (Main.Mesh.indices m) ->
    Main.Mesh.vertices (for_range 0 n body m) = Main.Mesh.vertices m /\
    Z.of_nat (List.length (Main.Mesh.indices (for_range 0 n body m)))
    = Z.of_nat (List.length (Main.Mesh.indices m)) + n * k /\
    Forall (fun i => 0 <= i < bound) (Main.Mesh.indices (for_range 0 n body m)).
Proof.
  intros Hn Hbody m Hm.
  apply (for_range_invariant
           (fun i m' => Main.Mesh.vertices m' = Main.Mesh.vertices m /\
                        Z.of_nat (List.length (Main.Mesh.indices m'))
                        = Z.of_nat (List.length (Main.Mesh.indices m)) + i * k /\
                        Forall (fun i => 0 <= i < bound) (Main.Mesh.indices m')));
    [exact Hn | repeat split; [lia | exact Hm] |].
  intros j t Hj (Hv & Hl & Hall). destruct (Hbody j t Hj Hall) as (Hv' & Hl' & Hall').
  repeat split; [congruence | lia | exact Hall'].
Qed.

Lemma push_quad_indices (m : Main.Mesh.t F) (first second bound : Z) :
  0 <= first -> first + 1 < bound -> 0 <= second -> second + 1 < bound ->
  Forall (fun i => 0 <= i < bound) (Main.Mesh.indices m) ->
  Main.Mesh.vertices (Main.push_quad m first second) = Main.Mesh.vertices m /\
  Z.of_nat (List.length (Main.Mesh.indices (Main.push_quad m first second)))
  = Z.of_nat (List.length (Main.Mesh.indices m)) + 6 /\
  Forall (fun i => 0 <= i < bound) (Main.Mesh.indices (Main.push_quad m first second)).
Proof.
  intros H1 H2 H3 H4 Hall. unfold Main.push_quad.
  cbn [Main.Mesh.push_index Main.Mesh.vertices Main.Mesh.indices].
  rewrite !length_push_back. repeat split; [lia|].
  repeat apply Forall_push_back; auto; lia.
Qed.

(** the two nested loops that [generateSphere] and [generateTreeFoliage]
    share: a grid of [(rings + 1) * (segments + 1)] vertices, then two
    triangles for each of its [rings * segments] squares *)
Lemma grid_well_indexed (segments rings : Z)
      (vertex : Z -> Z -> Main.Vertex.t F) :
  0 <= segments -> 0 <= rings ->
  let m :=
    for_range 0 rings (fun i mesh =>
      for_range 0 segments (fun j mesh =>
        Main.push_quad mesh (i * (segments + 1) + j) (i * (segments + 1) + j + segments + 1))
        mesh)
      (for_range 0 (rings + 1) (fun i mesh =>
         for_range 0 (segments + 1) (fun j mesh => Main.Mesh.push_vertex mesh (vertex i j))
           mesh) Main.Mesh.empty) in
  well_indexed m /\
  Z.of_nat (List.length (Main.Mesh.vertices m)) = (rings + 1) * (segments + 1) /\
  Z.of_nat (List.length (Main.Mesh.indices m)) = 6 * (rings * segments).
Proof.
  intros Hs Hr m. subst m.
  set (bound := (rings + 1) * (segments + 1)).
  (* the vertices *)
  match goal with
  | |- context [for_range 0 (rings + 1) ?b Main.Mesh.empty] => set (vloop := b)
  end.
  destruct (vertex_loop (segments + 1) vloop) with (n := rings + 1) (m := Main.Mesh.empty (F := F))
    as [Hlen Hidx]; [lia | | lia |].
  { intros i m. subst vloop. cbv beta.
    destruct (vertex_loop 1 (fun j mesh => Main.Mesh.push_vertex mesh (vertex i j)))
      with (n := segments + 1) (m := m) as [Hl Hi]; [lia | | lia |].
    - intros j m'. cbn [Main.Mesh.push_vertex Main.Mesh.vertices Main.Mesh.indices].
      rewrite length_push_back. split; [lia | reflexivity].
    - split; [lia | exact Hi]. }
  cbn [Main.Mesh.empty Main.Mesh.vertices Main.Mesh.indices List.length] in Hlen, Hidx.
  set (m1 := for_range 0 (rings + 1) vloop Main.Mesh.empty) in *.
  (* the indices *)
  match goal with
  | |- context [for_range 0 rings ?b m1] => set (iloop := b)
  end.
  destruct (index_loop (segments * 6) bound iloop rings Hr) with (m := m1)
    as (Hv & Hl & Hall).
  { intros i m Hi Hm. subst iloop. cbv beta.
    destruct (index_loop 6 bound
                (fun j mesh => Main.push_quad mesh (i * (segments + 1) + j)
                                               (i * (segments + 1) + j + segments + 1))
                segments Hs) with (m := m) as (Hv & Hl & Hall); [| exact Hm |].
    - intros j m' Hj Hm'. apply push_quad_indices; try exact Hm'; subst bound; nia.
    - repeat split; [exact Hv | lia | exact Hall]. }
  { rewrite Hidx. constructor. }
  rewrite Hidx in Hl. cbn [List.length] in Hl.
  unfold well_indexed. rewrite Hv, Hl, Hlen. cbn [Z.of_nat]. rewrite !Z.add_0_l.
  split; [split|split].
  - replace (rings * (segments * 6)) with ((2 * rings * segments) * 3) by lia.
    apply Z_mod_mult.
  - exact Hall.
  - reflexivity.
  - lia.
Qed.

(** X1.  For every number of segments and rings that is not negative, the
    sphere of [generateSphere] has [(rings + 1) * (segments + 1)] vertices
    and [6 * rings * segments] indices, each below the number of
    vertices; so has the foliage of [generateTreeFoliage], with
    [rings = segments]. *)
Theorem spheres_well_indexed :
  forall segments rings : Z,
    0 <= segments -> 0 <= rings ->
    let sphere := Main.generateSphere (F := F) segments rings in
    let foliage := Main.generateTreeFoliage (F := F) segments in
    well_indexed sphere /\
    Z.of_nat (List.length (Main.Mesh.vertices sphere)) = (rings + 1) * (segments + 1) /\
    Z.of_nat (List.length (Main.Mesh.indices sphere)) = 6 * (rings * segments) /\
    well_indexed foliage /\
    Z.of_nat (List.length (Main.Mesh.vertices foliage)) = (segments + 1) * (segments + 1) /\
    Z.of_nat (List.length (Main.Mesh.indices foliage)) = 6 * (segments * segments).
Proof.
  intros segments rings Hs Hr sphere foliage.
  split; [|split; [|split]].
  1-3: unfold sphere, Main.generateSphere; cbv zeta;
       apply (grid_well_indexed segments rings
                (fun i j => Main.Vertex.mk _ _ _) Hs Hr).
  unfold foliage, Main.generateTreeFoliage. cbv zeta.
  apply (grid_well_indexed segments segments (fun i j => Main.Vertex.mk _ _ _) Hs Hs).
Qed.

(** X2.  The trunk of [generateTreeTrunk], for a number of segments that
    is not negative, has [2 * (segments + 1)] vertices and
    [6 * segments] indices, each below the number of vertices; the grass
    blade is one triangle over its three vertices. *)
Theorem trunk_and_blade_well_indexed :
  forall segments : Z,
    0 <= segments ->
    let trunk := Main.generateTreeTrunk (F := F) segments in
    well_indexed trunk /\
    Z.of_nat (List.length (Main.Mesh.vertices trunk)) = 2 * (segments + 1) /\
    Z.of_nat (List.length (Main.Mesh.indices trunk)) = 6 * segments /\
    well_indexed (Main.generateGrassBlade (F := F)) /\
    Main.Mesh.indices (Main.generateGrassBlade (F := F)) = [0; 1; 2].
Proof.
  intros segments Hseg trunk.
  assert (Htrunk : well_indexed trunk /\
                   Z.of_nat (List.length (Main.Mesh.vertices trunk)) = 2 * (segments + 1) /\
                   Z.of_nat (List.length (Main.Mesh.indices trunk)) = 6 * segments).
  { unfold trunk, Main.generateTreeTrunk. cbv zeta.
    match goal with
    | |- context [for_range 0 (segments + 1) ?b Main.Mesh.empty] => set (vloop := b)
    end.
    destruct (vertex_loop 2 vloop) with (n := segments + 1) (m := Main.Mesh.empty (F := F))
      as [Hlen Hidx]; [lia | | lia |].
    { intros i m. subst vloop.
      cbn [Main.Mesh.push_vertex Main.Mesh.vertices Main.Mesh.indices].
      rewrite !length_push_back. split; [lia | reflexivity]. }
    cbn [Main.Mesh.empty Main.Mesh.vertices Main.Mesh.indices List.length] in Hlen, Hidx.
    set (m1 := for_range 0 (segments + 1) vloop Main.Mesh.empty) in *.
    match goal with
    | |- context [for_range 0 segments ?b m1] => set (iloop := b)
    end.
    destruct (index_loop 6 (2 * (segments + 1)) iloop segments Hseg) with (m := m1)
      as (Hv & Hl & Hall).
    { intros i m Hi Hm. subst iloop.
      cbn [Main.Mesh.push_index Main.Mesh.vertices Main.Mesh.indices].
      rewrite !length_push_back. repeat split; [lia|].
      repeat apply Forall_push_back; auto; lia. }
    { rewrite Hidx. constructor. }
    rewrite Hidx in Hl. cbn [List.length] in Hl.
    unfold well_indexed. rewrite Hv, Hl, Hlen. cbn [Z.of_nat]. rewrite !Z.add_0_l.
    split; [split|split].
    - replace (segments * 6) with ((2 * segments) * 3) by lia. apply Z_mod_mult.
    - replace ((segments + 1) * 2) with (2 * (segments + 1)) by lia. exact Hall.
    - lia.
    - lia. }
  destruct Htrunk as (H1 & H2 & H3).
  split; [exact H1|]. split; [exact H2|]. split; [exact H3|].
  split; [|reflexivity].
  unfold well_indexed. split; [reflexivity|]. cbn. repeat constructor; lia.
Qed.

(** X3.  The mesh of [Terrain::generateMesh] has six vertices for each of
    the [(width - 1) * (depth - 1)] squares of the grid and no index: it
    is drawn as a list of whole triangles. *)
Theorem terrain_mesh_size :
  forall tr : Main.Terrain.t F,
    1 <= Main.Terrain.width tr -> 1 <= Main.Terrain.depth tr ->
    let mesh := Main.Terrain.generateMesh tr in
    Z.of_nat (List.length (Main.Mesh.vertices mesh))
    = 6 * ((Main.Terrain.width tr - 1) * (Main.Terrain.depth tr - 1)) /\
    Main.Mesh.indices mesh = [].
Proof.
  intros tr Hw Hd mesh. unfold mesh, Main.Terrain.generateMesh.
  match goal with
  | |- context [for_range 0 (Main.Terrain.depth tr - 1) ?b Main.Mesh.empty] => set (zloop := b)
  end.
  destruct (vertex_loop ((Main.Terrain.width tr - 1) * 6) zloop)
    with (n := Main.Terrain.depth tr - 1) (m := Main.Mesh.empty (F := F))
    as [Hlen Hidx]; [lia | | lia |].
  { intros z m. subst zloop. cbv beta.
    match goal with
    | |- context [for_range 0 (Main.Terrain.width tr - 1) ?b m] => set (xloop := b)
    end.
    destruct (vertex_loop 6 xloop) with (n := Main.Terrain.width tr - 1) (m := m)
      as [Hl Hi]; [lia | | lia |].
    - intros x m'. subst xloop. cbv zeta.
      cbn [Main.Mesh.push_vertex Main.Mesh.vertices Main.Mesh.indices].
      rewrite !length_push_back. split; [lia | reflexivity].
    - split; [lia | exact Hi]. }
  cbn [Main.Mesh.empty Main.Mesh.vertices Main.Mesh.indices List.length] in Hlen, Hidx.
  split; [lia | exact Hidx].
Qed.

End Generators.

(** ** Comparisons of the exact instance *)

Lemma Qltb_true (a b : Q) : Qltb a b = true -> (a < b)%Q.
Proof.
  unfold Qltb. intros H. apply negb_true_iff in H.
  apply Qnot_le_lt. intros Hle. apply Qle_bool_iff in Hle. congruence.
Qed.

Lemma Qltb_false (a b : Q) : Qltb a b = false -> (b <= a)%Q.
Proof.
  unfold Qltb. intros H. apply negb_false_iff in H. now apply Qle_bool_iff.
Qed.

Lemma Qltb_of_lt (a b : Q) : (a < b)%Q -> Qltb a b = true.
Proof.
  intros H. unfold Qltb. apply negb_true_iff.
  destruct (Qle_bool b a) eqn:E; [|reflexivity].
  apply Qle_bool_iff in E. exfalso. exact (Qlt_not_le _ _ H E).
Qed.

Lemma Qle_bool_false (a b : Q) : Qle_bool a b = false -> (b < a)%Q.
Proof.
  intros H. apply Qnot_le_lt. intros Hle. apply Qle_bool_iff in Hle. congruence.
Qed.

(** turns the boolean tests of the hypotheses into order facts *)
Ltac qcmp :=
  repeat match goal with
  | H : Qltb _ _ = true |- _ => apply Qltb_true in H
  | H : Qltb _ _ = false |- _ => apply Qltb_false in H
  | H : Qle_bool _ _ = true |- _ => apply Qle_bool_iff in H
  | H : Qle_bool _ _ = false |- _ => apply Qle_bool_false in H
  end.

(** splits on the first test of the goal *)
Ltac case_if :=
  match goal with
  | |- context [if ?c then _ else _] =>
      lazymatch c with
      | context [if _ then _ else _] => fail
      | _ => let E := fresh "E" in destruct c eqn:E
      end
  end.

Section Exact.
Variables qsqrt qsin qcos : Q -> Q.
#[local] Instance QF : FloatOps Q := Q_ops qsqrt qsin qcos.

Ltac ball_simpl :=
  cbn [flt fle of_int flit fadd fsub fmul fneg QF Q_ops
       Main.MetaBall.position Main.MetaBall.velocity Main.MetaBall.radius
       Main.MetaBall.elasticity Main.MetaBall.isAlive Main.MetaBall.health
       Main.MetaBall.set_position Main.MetaBall.set_velocity
       Main.MetaBall.set_acceleration Main.MetaBall.acceleration
       Main.Vec3.x Main.Vec3.y Main.Vec3.z
       Main.Vec3.set_x Main.Vec3.set_y Main.Vec3.set_z] in *.

Lemma keepWithinBounds_ok (b : Main.MetaBall.t Q) :
  (-10 <= Main.Vec3.x (Main.MetaBall.position (Main.MetaBall.keepWithinBounds b)) <= 10)%Q /\
  (-50 <= Main.Vec3.z (Main.MetaBall.position (Main.MetaBall.keepWithinBounds b)))%Q.
Proof.
  unfold Main.MetaBall.keepWithinBounds.
  destruct b as [[px py pz] v a r c ra rs m e h al].
  ball_simpl.
  case_if; ball_simpl; case_if; ball_simpl; case_if; ball_simpl;
    qcmp; unfold inject_Z in *; lra.
Qed.


(** *** The orbit camera *)

Ltac cam_simpl :=
  cbn [flt fle of_int flit fadd fsub fmul fdiv fneg QF Q_ops
       Viewport.cameraDistance Viewport.cameraPitch Viewport.cameraYaw
       Viewport.cameraTarget Viewport.lastMousePos
       Viewport.isViewportHovered Viewport.isMouseDragging Viewport.dragButton
       Viewport.set_cameraDistance Viewport.set_cameraPitch Viewport.set_cameraYaw
       Viewport.set_cameraTarget Viewport.set_lastMousePos
       Viewport.set_isViewportHovered Viewport.set_isMouseDragging
       Viewport.set_dragButton] in *.

Lemma glm_clamp_bounds (v lo hi : Q) :
  (lo <= hi)%Q ->
  (lo <= Viewport.glm_clamp v lo hi <= hi)%Q.
Proof.
  intros Hlh. unfold Viewport.glm_clamp, Viewport.glm_min, Viewport.glm_max.
  cam_simpl. case_if; case_if; qcmp; lra.
Qed.

Lemma glm_max_ge_left (a b : Q) : (a <= Viewport.glm_max a b)%Q.
Proof.
  unfold Viewport.glm_max. cam_simpl. case_if; qcmp; lra.
Qed.

(** closed comparisons of rationals, by computation *)
Ltac qdecide :=
  first [ apply Qle_bool_iff; vm_compute; reflexivity
        | unfold Qlt; vm_compute; reflexivity ].

Lemma pitch_lo_hi : (pitch_lo <= pitch_hi)%Q.
Proof. qdecide. Qed.
Lemma pitch_lo_opp : (pitch_lo == - pitch_hi)%Q.
Proof. vm_compute. reflexivity. Qed.
Lemma pitch_initial : (pitch_lo <= 3 # 10 <= pitch_hi)%Q.
Proof. split; qdecide. Qed.
Lemma pitch_hi_max : (pitch_hi <= maxPitch)%Q.
Proof. qdecide. Qed.
Lemma pitch_hi_half_pi : (pitch_hi < Viewport.pi / 2)%Q.
Proof. qdecide. Qed.

Lemma camera_inv_initial : camera_inv Viewport.initial.
Proof.
  unfold camera_inv, Viewport.initial. cam_simpl.
  split; [apply pitch_initial | lra].
Qed.

(** [scroll_callback] in the hovered viewport clamps the distance,
    whatever it was *)
Lemma scroll_callback_distance (c : Viewport.camera Q) (xoffset yoffset : Q) :
  Viewport.isViewportHovered c = true ->
  ((1 # 2) <= Viewport.cameraDistance (Viewport.scroll_callback xoffset yoffset c) <= 100)%Q.
Proof.
  intros Hh. unfold Viewport.scroll_callback. rewrite Hh. cbn [negb]. cam_simpl.
  apply glm_clamp_bounds. lra.
Qed.

(** [updateCamera] clamps the distance, whatever it was *)
Lemma updateCamera_distance (c : Viewport.camera Q) :
  ((1 # 2) <= Viewport.cameraDistance (Viewport.updateCamera c) <= 100)%Q.
Proof.
  unfold Viewport.updateCamera. cbv zeta.
  repeat (case_if; cam_simpl); qcmp; lra.
Qed.

Lemma updateCamera_pitch (c : Viewport.camera Q) :
  (pitch_lo <= Viewport.cameraPitch c <= pitch_hi)%Q ->
  Viewport.cameraPitch (Viewport.updateCamera c) = Viewport.cameraPitch c.
Proof.
  intros Hp. unfold Viewport.updateCamera. cbv zeta.
  pose proof pitch_hi_max. pose proof pitch_lo_opp.
  fold maxPitch.
  repeat (case_if; cam_simpl); qcmp; try reflexivity; unfold maxPitch in *; lra.
Qed.

Lemma centerAllModels_camera (objects : list (Viewport.GameObject Q)) (c : Viewport.camera Q) :
  Viewport.cameraPitch (Viewport.centerAllModels objects c) = Viewport.cameraPitch c /\
  ((1 # 2) <= Viewport.cameraDistance c ->
   (1 # 2) <= Viewport.cameraDistance (Viewport.centerAllModels objects c))%Q.
Proof.
  unfold Viewport.centerAllModels. destruct objects as [|o objects]; [auto|].
  destruct (fold_left _ _ _) as [bmin bmax]. cam_simpl.
  split; [reflexivity|]. intros _.
  pose proof (glm_max_ge_left 5
    (Viewport.glm_max
       (Viewport.glm_max
          (Viewport.x (Viewport.vec3_sub bmax bmin))
          (Viewport.y (Viewport.vec3_sub bmax bmin)))
       (Viewport.z (Viewport.vec3_sub bmax bmin)) * 2)).
  lra.
Qed.

Lemma autoCenterSelectedModel_camera (objects : list (Viewport.GameObject Q)) (i : Z)
      (c : Viewport.camera Q) :
  Viewport.cameraPitch (Viewport.autoCenterSelectedModel objects i c)
  = Viewport.cameraPitch c /\
  ((1 # 2) <= Viewport.cameraDistance c ->
   (1 # 2) <= Viewport.cameraDistance (Viewport.autoCenterSelectedModel objects i c))%Q.
Proof.
  unfold Viewport.autoCenterSelectedModel.
  destruct (_ && _); [|auto].
  destruct (nth_error _ _) as [obj|]; [|auto]. cam_simpl.
  split; [reflexivity|]. intros _.
  pose proof (glm_max_ge_left 3
    (Viewport.glm_max
       (Viewport.glm_max
          (Viewport.x (Viewport.vec3_sub (Viewport.bboxMax obj) (Viewport.bboxMin obj)))
          (Viewport.y (Viewport.vec3_sub (Viewport.bboxMax obj) (Viewport.bboxMin obj))))
       (Viewport.z (Viewport.vec3_sub (Viewport.bboxMax obj) (Viewport.bboxMin obj))) * 2)).
  lra.
Qed.

(** every writer keeps the pitch within its clamp and the distance at
    0.5 or more *)
Lemma camera_inv_step (c : Viewport.camera Q) (e : Viewport.event Q) :
  camera_inv c -> camera_inv (Viewport.step c e).
Proof.
  unfold camera_inv. intros [Hp Hd].
  destruct e as [b a xp yp | xp yp | xo yo | h | | objects | objects i | | | t];
    cbn [Viewport.step].
  - unfold Viewport.mouse_button_callback.
    repeat case_if; cam_simpl; auto.
  - unfold Viewport.cursor_pos_callback. cbv zeta.
    case_if; [auto|]. case_if; [|case_if]; cam_simpl; auto.
    split; [|assumption].
    fold pitch_lo pitch_hi. apply glm_clamp_bounds, pitch_lo_hi.
  - unfold Viewport.scroll_callback. cbv zeta.
    case_if; cam_simpl; auto.
    split; [assumption|].
    apply glm_clamp_bounds. lra.
  - cam_simpl; auto.
  - rewrite (updateCamera_pitch c Hp). split; [exact Hp|].
    apply updateCamera_distance.
  - destruct (centerAllModels_camera objects c) as [Ep Hd']. rewrite Ep. auto.
  - destruct (autoCenterSelectedModel_camera objects i c) as [Ep Hd']. rewrite Ep. auto.
  - unfold Viewport.newScene. cam_simpl. split; [exact Hp | lra].
  - unfold Viewport.resetCamera. cam_simpl. split; [apply pitch_initial | lra].
  - cam_simpl; auto.
Qed.

(** the distance stays at 100 or less as long as no centring function
    has run since the last frame update *)
Lemma distance_step (c : Viewport.camera Q) (e : Viewport.event Q) (b : bool) :
  (b = false -> Viewport.cameraDistance c <= 100)%Q ->
  centred b e = false ->
  (Viewport.cameraDistance (Viewport.step c e) <= 100)%Q.
Proof.
  intros Hd Hb.
  destruct e as [bt a xp yp | xp yp | xo yo | h | | objects | objects i | | | t];
    cbn [Viewport.step]; cbn [centred is_centring orb] in Hb; try discriminate Hb;
    try apply (updateCamera_distance c); specialize (Hd Hb).
  - unfold Viewport.mouse_button_callback.
    repeat case_if; cam_simpl; auto.
  - unfold Viewport.cursor_pos_callback. cbv zeta.
    case_if; [auto|]. case_if; [|case_if]; cam_simpl; auto.
  - unfold Viewport.scroll_callback. cbv zeta.
    case_if; cam_simpl; auto.
    apply glm_clamp_bounds. lra.
  - cam_simpl; auto.
  - unfold Viewport.newScene. cam_simpl. lra.
  - unfold Viewport.resetCamera. cam_simpl. lra.
  - cam_simpl; auto.
Qed.

Lemma camera_inv_fold (evs : list (Viewport.event Q)) (c : Viewport.camera Q) (b : bool) :
  camera_inv c ->
  (b = false -> Viewport.cameraDistance c <= 100)%Q ->
  camera_inv (fold_left Viewport.step evs c) /\
  (fold_left centred evs b = false ->
   Viewport.cameraDistance (fold_left Viewport.step evs c) <= 100)%Q.
Proof.
  revert c b. induction evs as [|e evs IH]; intros c b Hc Hd; cbn [fold_left].
  - auto.
  - apply IH.
    + now apply camera_inv_step.
    + intros Hb. now apply (distance_step c e b).
Qed.


(** *** Matrices *)

(** C7.  For every 4x4 matrix [M] (sixteen floats),
    [identity() * M] and [M * identity()] have the entries of [M]. *)
Theorem identity_is_neutral :
  forall M : Main.Mat4.t Q,
    List.length M = 16%nat ->
    Forall2 Qeq (Main.Mat4.mul Main.Mat4.identity M) M /\
    Forall2 Qeq (Main.Mat4.mul M Main.Mat4.identity) M.
Proof.
  intros M HM.
  do 16 (destruct M as [|? M]; [discriminate HM|]).
  destruct M; [|discriminate HM]. clear HM.
  split.
  - cbv - [Qplus Qmult Qeq]. repeat constructor; ring.
  - cbv - [Qplus Qmult Qeq]. repeat constructor; ring.
Qed.

(** *** The height field *)

Lemma Qtrunc_unique (q : Q) (n : Z) :
  0 <= n -> (inject_Z n <= q < inject_Z (n + 1))%Q -> Qtrunc q = n.
Proof.
  intros Hn [Hlo Hhi]. destruct q as [a d].
  unfold Qle, Qlt, inject_Z in *. cbn [Qnum Qden] in *.
  unfold Qtrunc. cbn [Qnum Qden].
  rewrite Z.quot_div_nonneg by nia.
  symmetry. apply Z.div_unique with (r := a - Z.pos d * n); nia.
Qed.

(** the cell index that [getHeight] computes, and its ratio *)
Lemma cell_index (X g : Q) (n : Z) :
  (0 < g)%Q -> 0 <= n ->
  (inject_Z n * g <= X < inject_Z (n + 1) * g)%Q ->
  Qtrunc (X / g) = n /\
  (0 <= Qfmod X g / g <= 1)%Q.
Proof.
  intros Hg Hn [Hlo Hhi].
  assert (Hq : Qtrunc (X / g) = n).
  { apply Qtrunc_unique; [exact Hn|]. split.
    - now apply Qle_shift_div_l.
    - now apply Qlt_shift_div_r. }
  split; [exact Hq|].
  unfold Qfmod. rewrite Hq.
  rewrite inject_Z_plus in Hhi. change (inject_Z 1) with 1%Q in Hhi.
  split.
  - apply Qle_shift_div_l; [exact Hg|]. lra.
  - apply Qle_shift_div_r; [exact Hg|]. lra.
Qed.

Lemma lerp_bounds (lo hi a b r : Q) :
  (lo <= a <= hi)%Q -> (lo <= b <= hi)%Q -> (0 <= r <= 1)%Q ->
  (lo <= a * (inject_Z 1 - r) + b * r <= hi)%Q.
Proof.
  intros Ha Hb Hr. change (inject_Z 1) with 1%Q. split; nra.
Qed.


(** *** The game: what the blocks of [update] leave alone *)

Context {R : Type} {RO : Random Q R}.

Ltac game_simpl :=
  cbn [fst snd
       Main.Game.player Main.Game.terrain Main.Game.obstacles Main.Game.collectibles
       Main.Game.trees Main.Game.grassPatches Main.Game.gameSpeed Main.Game.difficulty
       Main.Game.score Main.Game.distance Main.Game.gameOver Main.Game.gamePaused
       Main.Game.inMenu Main.Game.cameraPosition Main.Game.cameraTarget
       Main.Game.cameraAngle Main.Game.cameraDistance Main.Game.environmentRotation
       Main.Game.environmentRotationSpeed Main.Game.currentState
       Main.Game.set_player Main.Game.set_terrain Main.Game.set_obstacles
       Main.Game.set_collectibles Main.Game.set_trees Main.Game.set_grassPatches
       Main.Game.set_gameSpeed Main.Game.set_difficulty Main.Game.set_score
       Main.Game.set_distance Main.Game.set_gameOver Main.Game.set_gamePaused
       Main.Game.set_inMenu Main.Game.set_cameraPosition Main.Game.set_cameraTarget
       Main.Game.set_cameraAngle Main.Game.set_environmentRotation
       Main.Game.set_environmentRotationSpeed Main.Game.set_currentState] in *.

Lemma same_core_refl (a : Main.Game.t Q) : same_core a a.
Proof. repeat split. Qed.

Lemma same_core_trans (a b c : Main.Game.t Q) :
  same_core a b -> same_core b c -> same_core a c.
Proof.
  unfold same_core. intros (A1 & A2 & A3 & A4 & A5) (B1 & B2 & B3 & B4 & B5).
  repeat split; congruence.
Qed.

Ltac draw :=
  repeat match goal with
  | |- context [dis ?g] => destruct (dis g)
  | |- context [rand ?g] => destruct (rand g)
  end.

Lemma generateObstacles_core (n : Z) (st : Main.Game.t Q * R) :
  same_core (fst st) (fst (Main.Game.generateObstacles n st)).
Proof.
  unfold Main.Game.generateObstacles.
  apply (for_range_preserves (fun s => same_core (fst st) (fst s))).
  - apply same_core_refl.
  - intros j [gm g] H. draw. game_simpl.
    eapply same_core_trans; [exact H|]. repeat split.
Qed.

Lemma generateCollectibles_core (n : Z) (st : Main.Game.t Q * R) :
  same_core (fst st) (fst (Main.Game.generateCollectibles n st)).
Proof.
  unfold Main.Game.generateCollectibles.
  apply (for_range_preserves (fun s => same_core (fst st) (fst s))).
  - apply same_core_refl.
  - intros j [gm g] H. draw. game_simpl.
    eapply same_core_trans; [exact H|]. repeat split.
Qed.

Lemma generateTrees_core (n : Z) (st : Main.Game.t Q * R) :
  same_core (fst st) (fst (Main.Game.generateTrees n st)).
Proof.
  unfold Main.Game.generateTrees.
  apply (for_range_preserves (fun s => same_core (fst st) (fst s))).
  - apply same_core_refl.
  - intros j [gm g] H. draw. game_simpl.
    eapply same_core_trans; [exact H|]. repeat split.
Qed.

Lemma generateGrass_core (n : Z) (st : Main.Game.t Q * R) :
  same_core (fst st) (fst (Main.Game.generateGrass n st)).
Proof.
  unfold Main.Game.generateGrass.
  apply (for_range_preserves (fun s => same_core (fst st) (fst s))).
  - apply same_core_refl.
  - intros j [gm g] H. draw. game_simpl.
    eapply same_core_trans; [exact H|]. repeat split.
Qed.

Lemma generateMore_core (st : Main.Game.t Q * R) :
  same_core (fst st) (fst (Main.Game.generateMore st)).
Proof.
  unfold Main.Game.generateMore.
  repeat match goal with
  | |- same_core _ (fst (if ?c then _ else _)) => destruct c
  | |- same_core _ (fst (match ?l with [] => _ | _ :: _ => _ end)) => destruct l
  | |- same_core ?a (fst (Main.Game.generateObstacles _ _)) =>
      eapply same_core_trans; [|apply generateObstacles_core]
  | |- same_core ?a (fst (Main.Game.generateCollectibles _ _)) =>
      eapply same_core_trans; [|apply generateCollectibles_core]
  | |- same_core ?a (fst (Main.Game.generateTrees _ _)) =>
      eapply same_core_trans; [|apply generateTrees_core]
  | |- same_core ?a (fst (Main.Game.generateGrass _ _)) =>
      eapply same_core_trans; [|apply generateGrass_core]
  end; apply same_core_refl.
Qed.

Lemma takeDamage_position (d : Q) (pl : Main.MetaBall.t Q) :
  Main.MetaBall.position (Main.MetaBall.takeDamage d pl) = Main.MetaBall.position pl /\
  Main.MetaBall.radius (Main.MetaBall.takeDamage d pl) = Main.MetaBall.radius pl.
Proof.
  unfold Main.MetaBall.takeDamage. case_if; split; reflexivity.
Qed.

Lemma hitObstacles_position (obs : list (Main.Obstacle.t Q)) :
  forall (pl : Main.MetaBall.t Q) (sc : Q),
    Main.MetaBall.position (snd (fst (Main.Game.hitObstacles obs pl sc)))
      = Main.MetaBall.position pl /\
    Main.MetaBall.radius (snd (fst (Main.Game.hitObstacles obs pl sc)))
      = Main.MetaBall.radius pl.
Proof.
  induction obs as [|o rest IH]; intros pl sc; cbn [Main.Game.hitObstacles].
  - split; reflexivity.
  - case_if.
    + match goal with
      | |- context [Main.Game.hitObstacles rest ?p ?s] =>
          specialize (IH p s); destruct (Main.Game.hitObstacles rest p s) as [[r' p'] s']
      end.
      cbn [fst snd] in *. destruct IH as [IH1 IH2].
      rewrite IH1, IH2.
      cbn [Main.MetaBall.position Main.MetaBall.radius Main.MetaBall.set_velocity].
      apply takeDamage_position.
    + specialize (IH pl sc).
      destruct (Main.Game.hitObstacles rest pl sc) as [[r' p'] s'].
      exact IH.
Qed.

Lemma hitObstacles_score (obs : list (Main.Obstacle.t Q)) :
  forall (pl : Main.MetaBall.t Q) (sc : Q),
    (0 <= sc)%Q -> (0 <= snd (Main.Game.hitObstacles obs pl sc))%Q.
Proof.
  induction obs as [|o rest IH]; intros pl sc Hsc; cbn [Main.Game.hitObstacles].
  - exact Hsc.
  - case_if.
    + match goal with
      | |- context [Main.Game.hitObstacles rest ?p ?s] =>
          specialize (IH p s); destruct (Main.Game.hitObstacles rest p s) as [[r' p'] s']
      end.
      cbn [fst snd] in *. apply IH.
      cbn [flt of_int fsub fmul QF Q_ops]. case_if; qcmp.
      * apply Qle_refl.
      * exact E0.
    + specialize (IH pl sc Hsc).
      destruct (Main.Game.hitObstacles rest pl sc) as [[r' p'] s'].
      exact IH.
Qed.

Lemma pickCollectibles_position (cs : list (Main.Vec3.t Q)) :
  forall (pl : Main.MetaBall.t Q) (sc : Q),
    Main.MetaBall.position (snd (fst (Main.Game.pickCollectibles cs pl sc)))
      = Main.MetaBall.position pl /\
    Main.MetaBall.radius (snd (fst (Main.Game.pickCollectibles cs pl sc)))
      = Main.MetaBall.radius pl.
Proof.
  induction cs as [|c rest IH]; intros pl sc; cbn [Main.Game.pickCollectibles].
  - split; reflexivity.
  - case_if.
    + match goal with
      | |- context [Main.Game.pickCollectibles rest ?p ?s] => specialize (IH p s)
      end.
      exact IH.
    + specialize (IH pl sc).
      destruct (Main.Game.pickCollectibles rest pl sc) as [[r' p'] s'].
      exact IH.
Qed.

Lemma pickCollectibles_score (cs : list (Main.Vec3.t Q)) :
  forall (pl : Main.MetaBall.t Q) (sc : Q),
    (0 <= sc)%Q -> (0 <= snd (Main.Game.pickCollectibles cs pl sc))%Q.
Proof.
  induction cs as [|c rest IH]; intros pl sc Hsc; cbn [Main.Game.pickCollectibles].
  - exact Hsc.
  - case_if.
    + apply IH. cbn [fadd of_int QF Q_ops]. unfold inject_Z. lra.
    + specialize (IH pl sc Hsc).
      destruct (Main.Game.pickCollectibles rest pl sc) as [[r' p'] s'].
      exact IH.
Qed.

(** the score after the blocks of [update] that follow the player's
    move and the terrain *)
Lemma score_after_progress (dt : Q) (gm : Main.Game.t Q) :
  (0 <= dt)%Q -> (0 <= Main.Game.gameSpeed gm)%Q -> (0 <= Main.Game.score gm)%Q ->
  (0 <= Main.Game.score (Main.Game.progress dt gm))%Q /\
  (Main.Game.gameSpeed gm <= Main.Game.gameSpeed (Main.Game.progress dt gm))%Q.
Proof.
  intros Hdt Hgs Hsc. unfold Main.Game.progress. game_simpl.
  cbn [fadd fmul flit QF Q_ops].
  assert (0 <= Main.Game.gameSpeed gm * dt)%Q by (apply Qmult_le_0_compat; assumption).
  split; lra.
Qed.

Lemma checkObstacles_frame (gm : Main.Game.t Q) :
  Main.Game.gameSpeed (Main.Game.checkObstacles gm) = Main.Game.gameSpeed gm /\
  Main.Game.terrain (Main.Game.checkObstacles gm) = Main.Game.terrain gm /\
  Main.Game.currentState (Main.Game.checkObstacles gm) = Main.Game.currentState gm /\
  Main.MetaBall.position (Main.Game.player (Main.Game.checkObstacles gm))
    = Main.MetaBall.position (Main.Game.player gm) /\
  Main.MetaBall.radius (Main.Game.player (Main.Game.checkObstacles gm))
    = Main.MetaBall.radius (Main.Game.player gm) /\
  ((0 <= Main.Game.score gm)%Q -> (0 <= Main.Game.score (Main.Game.checkObstacles gm))%Q).
Proof.
  unfold Main.Game.checkObstacles.
  pose proof (hitObstacles_position (Main.Game.obstacles gm) (Main.Game.player gm)
                (Main.Game.score gm)) as Hp.
  pose proof (hitObstacles_score (Main.Game.obstacles gm) (Main.Game.player gm)
                (Main.Game.score gm)) as Hs.
  destruct (Main.Game.hitObstacles _ _ _) as [[obs pl] sc].
  game_simpl. destruct Hp as [Hp1 Hp2]. repeat split; auto.
Qed.

Lemma checkCollectibles_frame (gm : Main.Game.t Q) :
  Main.Game.gameSpeed (Main.Game.checkCollectibles gm) = Main.Game.gameSpeed gm /\
  Main.Game.terrain (Main.Game.checkCollectibles gm) = Main.Game.terrain gm /\
  Main.Game.currentState (Main.Game.checkCollectibles gm) = Main.Game.currentState gm /\
  Main.MetaBall.position (Main.Game.player (Main.Game.checkCollectibles gm))
    = Main.MetaBall.position (Main.Game.player gm) /\
  Main.MetaBall.radius (Main.Game.player (Main.Game.checkCollectibles gm))
    = Main.MetaBall.radius (Main.Game.player gm) /\
  ((0 <= Main.Game.score gm)%Q -> (0 <= Main.Game.score (Main.Game.checkCollectibles gm))%Q).
Proof.
  unfold Main.Game.checkCollectibles.
  pose proof (pickCollectibles_position (Main.Game.collectibles gm) (Main.Game.player gm)
                (Main.Game.score gm)) as Hp.
  pose proof (pickCollectibles_score (Main.Game.collectibles gm) (Main.Game.player gm)
                (Main.Game.score gm)) as Hs.
  destruct (Main.Game.pickCollectibles _ _ _) as [[cs pl] sc].
  game_simpl. destruct Hp as [Hp1 Hp2]. repeat split; auto.
Qed.

(** [checkGameOver] and [updateCamera] keep the player, the terrain, the
    score and the speed *)
Lemma checkGameOver_frame (gm : Main.Game.t Q) :
  Main.Game.player (Main.Game.checkGameOver gm) = Main.Game.player gm /\
  Main.Game.terrain (Main.Game.checkGameOver gm) = Main.Game.terrain gm /\
  Main.Game.score (Main.Game.checkGameOver gm) = Main.Game.score gm /\
  Main.Game.gameSpeed (Main.Game.checkGameOver gm) = Main.Game.gameSpeed gm.
Proof.
  unfold Main.Game.checkGameOver. case_if; repeat split.
Qed.

Lemma updateCamera_frame (dt : Q) (gm : Main.Game.t Q) :
  Main.Game.player (Main.Game.updateCamera dt gm) = Main.Game.player gm /\
  Main.Game.terrain (Main.Game.updateCamera dt gm) = Main.Game.terrain gm /\
  Main.Game.score (Main.Game.updateCamera dt gm) = Main.Game.score gm /\
  Main.Game.gameSpeed (Main.Game.updateCamera dt gm) = Main.Game.gameSpeed gm.
Proof.
  unfold Main.Game.updateCamera. repeat split.
Qed.

(** the blocks before [progress] keep the score and the speed *)
Lemma before_progress_frame (dt : Q) (gm : Main.Game.t Q) :
  let gm' := Main.Game.terrainCollision
               (Main.Game.updatePlayer dt (Main.Game.rotateEnvironment dt gm)) in
  Main.Game.score gm' = Main.Game.score gm /\
  Main.Game.gameSpeed gm' = Main.Game.gameSpeed gm.
Proof.
  unfold Main.Game.terrainCollision, Main.Game.updatePlayer, Main.Game.rotateEnvironment.
  cbv zeta. repeat case_if; game_simpl; split; reflexivity.
Qed.

(** one [update] while [PLAYING] *)
Lemma update_playing (dt : Q) (gm : Main.Game.t Q) (g : R) :
  Main.Game.currentState gm = Main.Game.PLAYING ->
  Main.Game.update dt (gm, g)
  = Main.Game.generateMore
      (Main.Game.updateCamera dt
         (Main.Game.checkGameOver
            (Main.Game.checkCollectibles
               (Main.Game.checkObstacles
                  (Main.Game.progress dt
                     (Main.Game.terrainCollision
                        (Main.Game.updatePlayer dt
                           (Main.Game.rotateEnvironment dt gm))))))), g).
Proof.
  intros H. unfold Main.Game.update. rewrite H. reflexivity.
Qed.

Lemma update_score_speed (dt : Q) (gm : Main.Game.t Q) (g : R) :
  Main.Game.currentState gm = Main.Game.PLAYING ->
  (0 <= dt)%Q -> (0 <= Main.Game.gameSpeed gm)%Q -> (0 <= Main.Game.score gm)%Q ->
  (0 <= Main.Game.score (fst (Main.Game.update dt (gm, g))))%Q /\
  (Main.Game.gameSpeed gm <= Main.Game.gameSpeed (fst (Main.Game.update dt (gm, g))))%Q.
Proof.
  intros Hst Hdt Hgs Hsc. rewrite (update_playing dt gm g Hst).
  set (g1 := Main.Game.terrainCollision _).
  destruct (before_progress_frame dt gm) as [S1 G1]. fold g1 in S1, G1.
  destruct (score_after_progress dt g1 Hdt) as [S2 G2]; [rewrite G1 | rewrite S1 |]; auto.
  set (g2 := Main.Game.progress dt g1) in *.
  destruct (checkObstacles_frame g2) as (G3 & _ & _ & _ & _ & S3).
  set (g3 := Main.Game.checkObstacles g2) in *.
  destruct (checkCollectibles_frame g3) as (G4 & _ & _ & _ & _ & S4).
  set (g4 := Main.Game.checkCollectibles g3) in *.
  destruct (checkGameOver_frame g4) as (_ & _ & S5 & G5).
  set (g5 := Main.Game.checkGameOver g4) in *.
  destruct (updateCamera_frame dt g5) as (_ & _ & S6 & G6).
  set (g6 := Main.Game.updateCamera dt g5) in *.
  destruct (generateMore_core (g6, g)) as (_ & _ & S7 & G7 & _).
  cbn [fst] in S7, G7.
  rewrite S7, G7, S6, G6, S5, G5, G4, G3, <- G1.
  split; [auto | exact G2].
Qed.

(** *** The score *)

Lemma resetGame_core (st : Main.Game.t Q * R) :
  Main.Game.gameSpeed (fst (Main.Game.resetGame st)) = 10%Q /\
  Main.Game.score (fst (Main.Game.resetGame st)) = 0%Q /\
  Main.Game.currentState (fst (Main.Game.resetGame st)) = Main.Game.PLAYING.
Proof.
  unfold Main.Game.resetGame. destruct st as [gm g].
  destruct (Main.Terrain.new 100 200 (flit 1) g) as [tr g1].
  match goal with
  | |- context [Main.Game.generateGrass 50
                  (Main.Game.generateTrees 30
                     (Main.Game.generateCollectibles 10
                        (Main.Game.generateObstacles 20 ?s)))] =>
      set (s0 := s) in *;
      pose proof (generateObstacles_core 20 s0) as C1;
      set (s1 := Main.Game.generateObstacles 20 s0) in *;
      pose proof (generateCollectibles_core 10 s1) as C2;
      set (s2 := Main.Game.generateCollectibles 10 s1) in *;
      pose proof (generateTrees_core 30 s2) as C3;
      set (s3 := Main.Game.generateTrees 30 s2) in *;
      pose proof (generateGrass_core 50 s3) as C4
  end.
  pose proof (same_core_trans _ _ _ (same_core_trans _ _ _ (same_core_trans _ _ _ C1 C2) C3) C4)
    as (_ & _ & Hs & Hg & Hc).
  cbv zeta. rewrite Hs, Hg, Hc. subst s0. game_simpl. repeat split.
Qed.

Lemma new_core (g : R) :
  Main.Game.gameSpeed (fst (Main.Game.new g)) = 10%Q /\
  Main.Game.score (fst (Main.Game.new g)) = 0%Q /\
  Main.Game.currentState (fst (Main.Game.new g)) = Main.Game.PLAYING.
Proof.
  unfold Main.Game.new.
  destruct (Main.Terrain.new 100 200 (flit 1) g) as [tr g1].
  match goal with
  | |- context [Main.Game.resetGame ?s] =>
      pose proof (resetGame_core s) as H; destruct (Main.Game.resetGame s) as [gm g2]
  end.
  game_simpl. exact H.
Qed.

Lemma handleInput_gameSpeed (key action : Z) (gm : Main.Game.t Q) :
  Main.Game.gameSpeed (Main.Game.handleInput key action gm) = Main.Game.gameSpeed gm.
Proof.
  unfold Main.Game.handleInput, Main.Game.togglePause.
  repeat case_if; try reflexivity.
  destruct (Main.Game.currentState gm); reflexivity.
Qed.

(** the speed of the game never drops below its initial value *)
Lemma reachable_gameSpeed (st : Main.Game.t Q * R) :
  reachable st -> (10 <= Main.Game.gameSpeed (fst st))%Q.
Proof.
  induction 1 as [g | dt st Hr IH Hdt | key action gm g Hr IH | gm g Hr IH
                  | st Hr IH | gm g Hr IH | gm g pl tr obs cs ts gs Hr IH
                  | gm g g' Hr IH].
  - destruct (new_core g) as [H _]. rewrite H. apply Qle_refl.
  - destruct st as [gm g]. cbn [fst] in IH.
    destruct (Main.Game.currentState gm) eqn:Est.
    2: { rewrite (update_playing dt gm g Est).
         destruct (before_progress_frame dt gm) as [_ G1].
         set (g1 := Main.Game.terrainCollision _) in *.
         assert (G2 : (Main.Game.gameSpeed g1 <= Main.Game.gameSpeed (Main.Game.progress dt g1))%Q).
         { unfold Main.Game.progress. game_simpl. cbn [fadd fmul flit QF Q_ops]. lra. }
         set (g2 := Main.Game.progress dt g1) in *.
         destruct (checkObstacles_frame g2) as (G3 & _).
         set (g3 := Main.Game.checkObstacles g2) in *.
         destruct (checkCollectibles_frame g3) as (G4 & _).
         set (g4 := Main.Game.checkCollectibles g3) in *.
         destruct (checkGameOver_frame g4) as (_ & _ & _ & G5).
         set (g5 := Main.Game.checkGameOver g4) in *.
         destruct (updateCamera_frame dt g5) as (_ & _ & _ & G6).
         set (g6 := Main.Game.updateCamera dt g5) in *.
         destruct (generateMore_core (g6, g)) as (_ & _ & _ & G7 & _).
         cbn [fst] in G7. rewrite G7, G6, G5, G4, G3. rewrite G1 in G2. lra. }
    all: unfold Main.Game.update; rewrite Est; exact IH.
  - cbn [fst] in *. now rewrite handleInput_gameSpeed.
  - cbn [fst] in *. unfold Main.Game.togglePause.
    destruct (Main.Game.currentState gm); exact IH.
  - unfold Main.Game.startGame.
    pose proof (resetGame_core st) as [H _].
    destruct (Main.Game.resetGame st) as [gm g]. game_simpl. rewrite H. apply Qle_refl.
  - exact IH.
  - exact IH.
  - exact IH.
Qed.

(** C10.  For every call of [Game::update] with [deltaTime >= 0] while
    [PLAYING], a score that is not negative before the call is not
    negative after it: on every state the program can reach, and more
    generally on every state whose [gameSpeed] is not negative (the
    progression adds [gameSpeed * deltaTime * 0.1]). *)
Theorem score_stays_non_negative :
  forall (st : Main.Game.t Q * R) (deltaTime : Q),
    reachable st \/ (0 <= Main.Game.gameSpeed (fst st))%Q ->
    Main.Game.currentState (fst st) = Main.Game.PLAYING ->
    (0 <= deltaTime)%Q ->
    (0 <= Main.Game.score (fst st))%Q ->
    (0 <= Main.Game.score (fst (Main.Game.update deltaTime st)))%Q.
Proof.
  intros [gm g] dt Hr Hst Hdt Hsc. cbn [fst] in *.
  assert (Hgs : (0 <= Main.Game.gameSpeed gm)%Q).
  { destruct Hr as [Hr | Hgs]; [|exact Hgs].
    pose proof (reachable_gameSpeed _ Hr) as Hgs. cbn [fst] in Hgs. lra. }
  apply update_score_speed; auto.
Qed.

(** *** The ball and the ground *)

Lemma progress_frame (dt : Q) (gm : Main.Game.t Q) :
  Main.Game.player (Main.Game.progress dt gm) = Main.Game.player gm /\
  Main.Game.terrain (Main.Game.progress dt gm) = Main.Game.terrain gm.
Proof. unfold Main.Game.progress. split; reflexivity. Qed.

(** the position of the ball, its radius and the terrain are final once
    the block "Terrain collision" is over *)
Lemma after_terrainCollision_frame (dt : Q) (gm1 : Main.Game.t Q) (g : R) :
  let gm' := fst (Main.Game.generateMore
                    (Main.Game.updateCamera dt
                       (Main.Game.checkGameOver
                          (Main.Game.checkCollectibles
                             (Main.Game.checkObstacles (Main.Game.progress dt gm1)))), g)) in
  Main.MetaBall.position (Main.Game.player gm') = Main.MetaBall.position (Main.Game.player gm1) /\
  Main.MetaBall.radius (Main.Game.player gm') = Main.MetaBall.radius (Main.Game.player gm1) /\
  Main.Game.terrain gm' = Main.Game.terrain gm1.
Proof.
  destruct (progress_frame dt gm1) as [P2 T2].
  set (g2 := Main.Game.progress dt gm1) in *.
  destruct (checkObstacles_frame g2) as (_ & T3 & _ & P3 & R3 & _).
  set (g3 := Main.Game.checkObstacles g2) in *.
  destruct (checkCollectibles_frame g3) as (_ & T4 & _ & P4 & R4 & _).
  set (g4 := Main.Game.checkCollectibles g3) in *.
  destruct (checkGameOver_frame g4) as (P5 & T5 & _ & _).
  set (g5 := Main.Game.checkGameOver g4) in *.
  destruct (updateCamera_frame dt g5) as (P6 & T6 & _ & _).
  set (g6 := Main.Game.updateCamera dt g5) in *.
  destruct (generateMore_core (g6, g)) as (P7 & T7 & _).
  cbn [fst] in P7, T7. cbv zeta.
  rewrite P7, T7, P6, T6, P5, T5, P4, R4, T4, P3, R3, T3, P2, T2.
  repeat split.
Qed.

Ltac terrain_simpl :=
  game_simpl; ball_simpl;
  cbn [Main.MetaBall.set_position Main.MetaBall.set_velocity Main.MetaBall.position
       Main.MetaBall.velocity Main.MetaBall.radius
       Main.Vec3.x Main.Vec3.y Main.Vec3.z Main.Vec3.set_y
       Main.Vec3.sub Main.Vec3.mul Main.Vec3.dot
       fadd fsub fmul flit of_int QF Q_ops] in *.

(** the block "Terrain collision" leaves the ball on or above the
    terrain *)
Lemma terrainCollision_clearance (gm : Main.Game.t Q) :
  (terrainHeightAt (Main.Game.terrainCollision gm)
   <= clearance (Main.Game.terrainCollision gm))%Q.
Proof.
  unfold terrainHeightAt, clearance, Main.Game.terrainCollision.
  cbv zeta. case_if; terrain_simpl; qcmp.
  - lra.
  - exact E.
Qed.

(** ... and, when its test fires, gives the ball a vertical velocity
    that does not depend on the one it had *)
Lemma terrainCollision_velocity (gm : Main.Game.t Q) :
  (clearance gm < terrainHeightAt gm)%Q ->
  let pl := Main.Game.player gm in
  let pl' := Main.Game.player (Main.Game.terrainCollision gm) in
  let n := Main.Terrain.getNormal (Main.Game.terrain gm)
             (Main.Vec3.x (Main.MetaBall.position pl))
             (Main.Vec3.z (Main.MetaBall.position pl)) in
  (Main.Vec3.y (Main.MetaBall.position pl') == terrainHeightAt gm + Main.MetaBall.radius pl)%Q /\
  (Main.Vec3.y (Main.MetaBall.velocity pl')
   == - (Main.Vec3.y n
         * (Main.Vec3.x (Main.MetaBall.velocity pl) * Main.Vec3.x n
            + Main.Vec3.z (Main.MetaBall.velocity pl) * Main.Vec3.z n)
         * (1 # 10)))%Q.
Proof.
  unfold terrainHeightAt, clearance, Main.Game.terrainCollision.
  intros Hlt. cbv zeta.
  apply Qltb_of_lt in Hlt.
  cbn [flt fsub QF Q_ops]. rewrite Hlt. terrain_simpl.
  set (n := Main.Terrain.getNormal _ _ _).
  split; [reflexivity|]. change (inject_Z 0) with 0%Q. ring.
Qed.

(** the blocks of [MetaBall::update], one by one *)
Lemma integrate_rotate_y (dt : Q) (gravity : Main.Vec3.t Q) (b : Main.MetaBall.t Q) :
  let b1 := Main.MetaBall.rotate dt (Main.MetaBall.integrate dt gravity b) in
  let vy := (Main.Vec3.y (Main.MetaBall.velocity b) + Main.Vec3.y gravity * dt)%Q in
  Main.Vec3.y (Main.MetaBall.position b1)
    = (Main.Vec3.y (Main.MetaBall.position b) + vy * dt)%Q /\
  Main.Vec3.y (Main.MetaBall.velocity b1) = vy /\
  Main.MetaBall.radius b1 = Main.MetaBall.radius b /\
  Main.MetaBall.elasticity b1 = Main.MetaBall.elasticity b.
Proof.
  unfold Main.MetaBall.rotate, Main.MetaBall.integrate. cbv zeta.
  case_if; repeat split.
Qed.

Lemma groundCollision_bounce (b : Main.MetaBall.t Q) :
  (Main.Vec3.y (Main.MetaBall.position b) - Main.MetaBall.radius b < 0)%Q ->
  Main.Vec3.y (Main.MetaBall.position (Main.MetaBall.groundCollision b))
    = Main.MetaBall.radius b /\
  Main.Vec3.y (Main.MetaBall.velocity (Main.MetaBall.groundCollision b))
    = (- Main.Vec3.y (Main.MetaBall.velocity b) * Main.MetaBall.elasticity b * (95 # 100))%Q.
Proof.
  intros Hlt. unfold Main.MetaBall.groundCollision.
  cbn [flt fsub of_int QF Q_ops]. change (inject_Z 0) with 0%Q.
  rewrite (Qltb_of_lt _ _ Hlt). split; reflexivity.
Qed.

Lemma keepWithinBounds_y (b : Main.MetaBall.t Q) :
  Main.Vec3.y (Main.MetaBall.position (Main.MetaBall.keepWithinBounds b))
    = Main.Vec3.y (Main.MetaBall.position b) /\
  Main.MetaBall.velocity (Main.MetaBall.keepWithinBounds b) = Main.MetaBall.velocity b.
Proof.
  unfold Main.MetaBall.keepWithinBounds. cbv zeta.
  repeat case_if; split; reflexivity.
Qed.

(** the bounce of [MetaBall::update] on the plane [y = 0] *)
Lemma update_bounce (dt : Q) (gravity : Main.Vec3.t Q) (b : Main.MetaBall.t Q) :
  Main.MetaBall.isAlive b = true ->
  let vy := (Main.Vec3.y (Main.MetaBall.velocity b) + Main.Vec3.y gravity * dt)%Q in
  let py := (Main.Vec3.y (Main.MetaBall.position b) + vy * dt)%Q in
  (py - Main.MetaBall.radius b < 0)%Q ->
  let b' := Main.MetaBall.update dt gravity b in
  Main.Vec3.y (Main.MetaBall.position b') = Main.MetaBall.radius b /\
  Main.Vec3.y (Main.MetaBall.velocity b')
  = (- vy * Main.MetaBall.elasticity b * (95 # 100))%Q.
Proof.
  intros Halive vy py Hlt b'. subst b'.
  unfold Main.MetaBall.update. rewrite Halive. cbn [negb].
  destruct (integrate_rotate_y dt gravity b) as (Hp & Hv & Hr & He).
  fold vy in Hp, Hv. fold py in Hp.
  generalize dependent (Main.MetaBall.rotate dt (Main.MetaBall.integrate dt gravity b)).
  intros b1 Hp Hv Hr He.
  destruct (keepWithinBounds_y (Main.MetaBall.groundCollision b1)) as [Ky Kv].
  rewrite Ky, Kv.
  destruct (groundCollision_bounce b1) as [Gp Gv].
  { rewrite Hp, Hr. exact Hlt. }
  rewrite Gp, Gv, Hr, Hv, He. split; reflexivity.
Qed.

Lemma clearance_final (dt : Q) (gm1 : Main.Game.t Q) (g : R) :
  (terrainHeightAt gm1 <= clearance gm1)%Q ->
  let gm' := fst (Main.Game.generateMore
                    (Main.Game.updateCamera dt
                       (Main.Game.checkGameOver
                          (Main.Game.checkCollectibles
                             (Main.Game.checkObstacles (Main.Game.progress dt gm1)))), g)) in
  (terrainHeightAt gm' <= clearance gm')%Q.
Proof.
  intros H gm'.
  destruct (after_terrainCollision_frame dt gm1 g) as (P & Rd & T).
  fold gm' in P, Rd, T. clearbody gm'.
  unfold terrainHeightAt, clearance in *. rewrite P, Rd, T. exact H.
Qed.

Lemma update_clearance (dt : Q) (gm : Main.Game.t Q) (g : R) :
  Main.Game.currentState gm = Main.Game.PLAYING ->
  (terrainHeightAt (fst (Main.Game.update dt (gm, g)))
   <= clearance (fst (Main.Game.update dt (gm, g))))%Q.
Proof.
  intros Hst. rewrite (update_playing dt gm g Hst).
  apply clearance_final, terrainCollision_clearance.
Qed.



(** *** Vectors *)

(** X4.  The cross product is orthogonal to both of its arguments, and
    changes sign when they are swapped. *)
Theorem cross_is_orthogonal :
  forall a b : Main.Vec3.t Q,
    (Main.Vec3.dot (Main.Vec3.cross a b) a == 0)%Q /\
    (Main.Vec3.dot (Main.Vec3.cross a b) b == 0)%Q /\
    (Main.Vec3.x (Main.Vec3.cross b a) == - Main.Vec3.x (Main.Vec3.cross a b))%Q /\
    (Main.Vec3.y (Main.Vec3.cross b a) == - Main.Vec3.y (Main.Vec3.cross a b))%Q /\
    (Main.Vec3.z (Main.Vec3.cross b a) == - Main.Vec3.z (Main.Vec3.cross a b))%Q.
Proof.
  intros [ax ay az] [bx by_ bz].
  unfold Main.Vec3.dot, Main.Vec3.cross.
  cbn [Main.Vec3.x Main.Vec3.y Main.Vec3.z fadd fsub fmul QF Q_ops].
  repeat split; ring.
Qed.

(** X5.  [normalize] returns a vector of length 1 in both of its
    branches, [v / length] and the fallback [(0, 1, 0)], wherever [sqrt]
    is exact on the squared length of [v]. *)
Theorem normalize_is_unit :
  forall v : Main.Vec3.t Q,
    (qsqrt (Main.Vec3.lengthSquared v) * qsqrt (Main.Vec3.lengthSquared v)
     == Main.Vec3.lengthSquared v)%Q ->
    (Main.Vec3.lengthSquared (Main.Vec3.normalize v) == 1)%Q.
Proof.
  intros [x y z]. unfold Main.Vec3.normalize, Main.Vec3.length, Main.Vec3.lengthSquared.
  cbn [Main.Vec3.x Main.Vec3.y Main.Vec3.z fadd fsub fmul sqrt flt flit QF Q_ops].
  set (n2 := (x * x + y * y + z * z)%Q). set (l := qsqrt n2). intros Hl.
  cbv zeta. destruct (Qltb (1 # 10000) l) eqn:E.
  - apply Qltb_true in E.
    assert (Hpos : (0 < l)%Q) by lra.
    unfold Main.Vec3.div.
    cbn [Main.Vec3.x Main.Vec3.y Main.Vec3.z fabs fdiv flt flit QF Q_ops].
    replace (Qltb (1 # 10000) (Qabs l)) with true.
    2: { symmetry. apply Qltb_of_lt. rewrite Qabs_pos by lra. exact E. }
    cbn [Main.Vec3.x Main.Vec3.y Main.Vec3.z].
    assert (Hne : ~ (l == 0)%Q) by lra.
    transitivity (n2 / (l * l))%Q.
    + unfold n2. field. exact Hne.
    + rewrite Hl. field. intros H0. rewrite H0 in Hl. nra.
  - cbn [Main.Vec3.x Main.Vec3.y Main.Vec3.z of_int QF Q_ops]. reflexivity.
Qed.

(** *** Matrices, continued *)

(** the sixteen entries of a matrix *)
Ltac mat_entries M HM :=
  do 16 (destruct M as [|? M]; [discriminate HM|]);
  destruct M; [|discriminate HM]; clear HM.

(** X6.  The matrix product is associative. *)
Theorem mul_is_associative :
  forall A B C : Main.Mat4.t Q,
    List.length A = 16%nat -> List.length B = 16%nat -> List.length C = 16%nat ->
    Forall2 Qeq (Main.Mat4.mul (Main.Mat4.mul A B) C) (Main.Mat4.mul A (Main.Mat4.mul B C)).
Proof.
  intros A B C HA HB HC.
  mat_entries A HA. mat_entries B HB. mat_entries C HC.
  cbv - [Qplus Qmult Qeq]. repeat constructor; ring.
Qed.

(** X7.  Translations compose by adding their offsets and scalings by
    multiplying their factors; the translation by zero and the scaling by
    one are the identity. *)
Theorem translate_and_scale_compose :
  forall x y z x' y' z' : Q,
    Forall2 Qeq (Main.Mat4.mul (Main.Mat4.translate x y z) (Main.Mat4.translate x' y' z'))
                (Main.Mat4.translate (x + x')%Q (y + y')%Q (z + z')%Q) /\
    Forall2 Qeq (Main.Mat4.mul (Main.Mat4.scale x y z) (Main.Mat4.scale x' y' z'))
                (Main.Mat4.scale (x * x')%Q (y * y')%Q (z * z')%Q) /\
    Main.Mat4.translate 0%Q 0%Q 0%Q = Main.Mat4.identity /\
    Main.Mat4.scale 1%Q 1%Q 1%Q = Main.Mat4.identity.
Proof.
  intros x y z x' y' z'. split; [|split; [|split]].
  - cbv - [Qplus Qmult Qeq]. repeat constructor; ring.
  - cbv - [Qplus Qmult Qeq]. repeat constructor; ring.
  - reflexivity.
  - reflexivity.
Qed.



(** X9.  The view matrix of [lookAt] takes the eye to the origin,
    whatever [normalize] returns for the viewing direction. *)
Theorem lookAt_takes_eye_to_origin :
  forall eye center up : Main.Vec3.t Q,
    let e := Main.Mat4.transform (Main.Mat4.lookAt eye center up) eye in
    (Main.Vec3.x e == 0 /\ Main.Vec3.y e == 0 /\ Main.Vec3.z e == 0)%Q.
Proof.
  intros eye center up. unfold Main.Mat4.lookAt.
  generalize (Main.Vec3.normalize (Main.Vec3.sub center eye)). intros f.
  cbv zeta.
  generalize (Main.Vec3.normalize (Main.Vec3.cross f up)). intros s.
  destruct f as [fx fy fz], s as [sx sy sz], eye as [ex ey ez].
  cbv - [Qplus Qmult Qeq Qopp Qminus]. repeat split; ring.
Qed.


(** *** The height field, continued *)

Lemma Qtrunc_ge (q : Q) (n : Z) : (inject_Z n <= q)%Q -> n <= Qtrunc q.
Proof.
  destruct q as [a d]. unfold Qle, inject_Z, Qtrunc. cbn [Qnum Qden]. intros H.
  rewrite <- (Z.quot_mul n (Z.pos d)) by lia.
  apply Z.quot_le_mono; lia.
Qed.

Lemma Qtrunc_le (q : Q) (n : Z) : (q <= inject_Z n)%Q -> Qtrunc q <= n.
Proof.
  destruct q as [a d]. unfold Qle, inject_Z, Qtrunc. cbn [Qnum Qden]. intros H.
  rewrite <- (Z.quot_mul n (Z.pos d)) by lia.
  apply Z.quot_le_mono; lia.
Qed.

(** an index outside the grid gives the height 0 *)
Lemma getHeight_out_of_grid (tr : Main.Terrain.t Q) (x z : Q) :
  let xi := Qtrunc ((x + inject_Z (Z.quot (Main.Terrain.width tr) 2))
                    / Main.Terrain.gridSize tr) in
  let zi := Qtrunc ((z + inject_Z (Z.quot (Main.Terrain.depth tr) 2))
                    / Main.Terrain.gridSize tr) in
  xi < 0 \/ Main.Terrain.width tr - 1 <= xi \/ zi < 0 \/ Main.Terrain.depth tr - 1 <= zi ->
  Main.Terrain.getHeight tr x z = 0%Q.
Proof.
  intros xi zi H. unfold Main.Terrain.getHeight.
  cbn [to_int fadd fdiv of_int flit QF Q_ops]. fold xi zi.
  replace ((xi <? 0) || (xi >=? Main.Terrain.width tr - 1)
           || (zi <? 0) || (zi >=? Main.Terrain.depth tr - 1)) with true; [reflexivity|].
  symmetry. rewrite !orb_true_iff, !Z.ltb_lt, !Z.geb_leb, !Z.leb_le. tauto.
Qed.

(** X10.  Where [getHeight] answers 0: at and beyond the last column and
    the last row of the grid, and one cell or more before the first
    column and the first row. *)
Theorem getHeight_zero_outside :
  forall (tr : Main.Terrain.t Q) (x z : Q),
    (0 < Main.Terrain.gridSize tr)%Q ->
    let X := (x + inject_Z (Z.quot (Main.Terrain.width tr) 2))%Q in
    let Z_ := (z + inject_Z (Z.quot (Main.Terrain.depth tr) 2))%Q in
    (inject_Z (Main.Terrain.width tr - 1) * Main.Terrain.gridSize tr <= X \/
     X <= - Main.Terrain.gridSize tr \/
     inject_Z (Main.Terrain.depth tr - 1) * Main.Terrain.gridSize tr <= Z_ \/
     Z_ <= - Main.Terrain.gridSize tr)%Q ->
    Main.Terrain.getHeight tr x z = 0%Q.
Proof.
  intros tr x z Hg X Z_ H. apply getHeight_out_of_grid. cbv zeta. fold X Z_.
  set (g := Main.Terrain.gridSize tr) in *.
  destruct H as [H | [H | [H | H]]].
  - right. left. apply Qtrunc_ge. now apply Qle_shift_div_l.
  - left.
    assert (Qtrunc (X / g) <= -1); [|lia].
    apply Qtrunc_le. apply Qle_shift_div_r; [exact Hg|].
    change (inject_Z (-1)) with (-1)%Q. lra.
  - right. right. right. apply Qtrunc_ge. now apply Qle_shift_div_l.
  - right. right. left.
    assert (Qtrunc (Z_ / g) <= -1); [|lia].
    apply Qtrunc_le. apply Qle_shift_div_r; [exact Hg|].
    change (inject_Z (-1)) with (-1)%Q. lra.
Qed.

(** X11.  At a point that falls on the node [(xi, zi)] of the grid,
    [getHeight] returns the sample stored for that node. *)
Theorem getHeight_at_node :
  forall (tr : Main.Terrain.t Q) (x z : Q) (xi zi : Z),
    (0 < Main.Terrain.gridSize tr)%Q ->
    0 <= xi < Main.Terrain.width tr - 1 ->
    0 <= zi < Main.Terrain.depth tr - 1 ->
    (x + inject_Z (Z.quot (Main.Terrain.width tr) 2)
     == inject_Z xi * Main.Terrain.gridSize tr)%Q ->
    (z + inject_Z (Z.quot (Main.Terrain.depth tr) 2)
     == inject_Z zi * Main.Terrain.gridSize tr)%Q ->
    (Main.Terrain.getHeight tr x z == corner tr xi zi)%Q.
Proof.
  intros tr x z xi zi Hg Hxi Hzi Hx Hz.
  set (g := Main.Terrain.gridSize tr) in *.
  set (X := (x + inject_Z (Z.quot (Main.Terrain.width tr) 2))%Q) in *.
  set (Z_ := (z + inject_Z (Z.quot (Main.Terrain.depth tr) 2))%Q) in *.
  assert (HX : (inject_Z xi * g <= X < inject_Z (xi + 1) * g)%Q).
  { rewrite inject_Z_plus. change (inject_Z 1) with 1%Q. rewrite Hx. split; lra. }
  assert (HZ : (inject_Z zi * g <= Z_ < inject_Z (zi + 1) * g)%Q).
  { rewrite inject_Z_plus. change (inject_Z 1) with 1%Q. rewrite Hz. split; lra. }
  destruct (cell_index X g xi Hg (proj1 Hxi) HX) as [Exi _].
  destruct (cell_index Z_ g zi Hg (proj1 Hzi) HZ) as [Ezi _].
  unfold Main.Terrain.getHeight.
  cbn [to_int fmod fadd fsub fmul fdiv of_int flit QF Q_ops].
  fold g X Z_. rewrite Exi, Ezi.
  replace ((xi <? 0) || (xi >=? Main.Terrain.width tr - 1)
           || (zi <? 0) || (zi >=? Main.Terrain.depth tr - 1)) with false
    by (symmetry; rewrite !orb_false_iff, !Z.ltb_ge, !Z.geb_leb, !Z.leb_gt; lia).
  assert (Hrx : (Qfmod X g / g == 0)%Q).
  { unfold Qfmod. rewrite Exi, Hx. field. lra. }
  assert (Hrz : (Qfmod Z_ g / g == 0)%Q).
  { unfold Qfmod. rewrite Ezi, Hz. field. lra. }
  cbv zeta. rewrite Hrx, Hrz. unfold corner. change (inject_Z 1) with 1%Q.
  change (inject_Z 0) with 0%Q. ring.
Qed.


(** *** The height map *)

Lemma length_resize (v : list Q) (n : Z) :
  0 <= n -> Z.of_nat (List.length (Main.Terrain.resize v n)) = n.
Proof.
  intros Hn. unfold Main.Terrain.resize.
  rewrite length_app, length_firstn, repeat_length. lia.
Qed.

(** a column of the road: [fabs(x - width/2) < 4] *)
Lemma road_column (n : Z) : Qltb (Qabs (inject_Z n)) 4 = true <-> -4 < n < 4.
Proof.
  split.
  - intros H. apply Qltb_true in H. apply Qabs_Qlt_condition in H.
    destruct H as [H1 H2]. unfold Qlt, inject_Z in *. cbn in *. lia.
  - intros H. apply Qltb_of_lt. apply Qabs_Qlt_condition.
    unfold Qlt, inject_Z. cbn. lia.
Qed.

(** the height map that the constructor fills: its size, and its samples
    on the columns of the road *)
Lemma generateHeightMap_road (tr : Main.Terrain.t Q) (g : R) :
  (forall g', 0 <= fst (dis g') < 1)%Q ->
  0 <= Main.Terrain.width tr -> 0 <= Main.Terrain.depth tr ->
  let tr' := fst (Main.Terrain.generateHeightMap tr g) in
  Main.Terrain.width tr' = Main.Terrain.width tr /\
  Main.Terrain.depth tr' = Main.Terrain.depth tr /\
  Main.Terrain.gridSize tr' = Main.Terrain.gridSize tr /\
  Z.of_nat (List.length (Main.Terrain.heightMap tr'))
  = Main.Terrain.width tr * Main.Terrain.depth tr /\
  forall x z,
    0 <= x < Main.Terrain.width tr -> 0 <= z < Main.Terrain.depth tr ->
    -4 < x - Z.quot (Main.Terrain.width tr) 2 < 4 ->
    (1 # 20 <= corner tr' x z < 3 # 20)%Q.
Proof.
  intros Hdis Hw Hd. unfold Main.Terrain.generateHeightMap.
  set (w := Main.Terrain.width tr) in *. set (d := Main.Terrain.depth tr) in *.
  set (P := fun v : Q => (1 # 20 <= v < 3 # 20)%Q).
  set (road := fun x : Z => -4 < x - Z.quot w 2 < 4).
  pose (Inv := fun (z x : Z) (st : list Q * R) =>
    Z.of_nat (List.length (fst st)) = w * d /\
    (forall x' z', 0 <= x' < w -> 0 <= z' < z -> road x' ->
                   P (arr_get (inject_Z 0) (fst st) (z' * w + x'))) /\
    (forall x', 0 <= x' < x -> road x' ->
                P (arr_get (inject_Z 0) (fst st) (z * w + x')))).
  match goal with
  | |- context [for_range 0 d ?b (?hm0, g)] => set (zloop := b); set (h0 := hm0)
  end.
  assert (Hfinal : Inv d 0 (for_range 0 d zloop (h0, g))).
  { apply (for_range_invariant (fun z st => Inv z 0 st)); [exact Hd | |].
    - unfold Inv. cbn [fst]. split; [|split].
      + unfold h0. rewrite length_resize by nia. unfold w, d. lia.
      + intros; lia.
      + intros; lia.
    - intros z st Hz HI. subst zloop. cbv beta.
      match goal with
      | |- context [for_range 0 w ?b st] => set (xloop := b)
      end.
      assert (Hrow : Inv z w (for_range 0 w xloop st)).
      { apply (for_range_invariant (fun x st' => Inv z x st')); [exact Hw | exact HI |].
        intros x [hm g1] Hx (Hlen & Hprev & Hrow). subst xloop. cbv beta iota zeta.
        cbn [fst] in Hlen, Hprev, Hrow.
        specialize (Hdis g1). destruct (dis g1) as [r g2]. cbn [fst] in Hdis.
        cbn [fst snd]. unfold Inv. cbn [fst].
        assert (Hk : 0 <= z * w + x < Z.of_nat (List.length hm)) by nia.
        split; [|split].
        - rewrite length_arr_set. exact Hlen.
        - intros x' z' Hx' Hz' Hr. rewrite arr_get_set by nia.
          replace (z * w + x =? z' * w + x') with false by (symmetry; apply Z.eqb_neq; nia).
          now apply Hprev.
        - intros x' Hx' Hr. rewrite arr_get_set by nia.
          destruct (Z.eqb_spec (z * w + x) (z * w + x')) as [E|E].
          + assert (x' = x) by lia. subst x'.
            cbn [fabs flt flit fadd fsub fmul of_int QF Q_ops].
            replace (Qltb (Qabs (inject_Z (x - Z.quot w 2))) 4) with true
              by (symmetry; apply road_column; exact Hr).
            unfold P. split; lra.
          + apply Hrow; [lia | exact Hr]. }
      destruct Hrow as (Hlen & Hprev & Hrow).
      unfold Inv. split; [exact Hlen|]. split; [|intros; lia].
      intros x' z' Hx' Hz' Hr.
      destruct (Z.eq_dec z' z) as [->|Hne].
      + now apply Hrow.
      + apply Hprev; [exact Hx' | lia | exact Hr]. }
  destruct (for_range 0 d zloop (h0, g)) as [hm g'].
  destruct Hfinal as (Hlen & Hprev & _). cbn [fst] in Hlen, Hprev.
  cbv zeta. cbn [fst Main.Terrain.width Main.Terrain.depth Main.Terrain.gridSize
                 Main.Terrain.heightMap].
  repeat split; try exact Hlen.
  - unfold corner. cbn [Main.Terrain.heightMap Main.Terrain.width].
    apply (Hprev x z); assumption.
  - unfold corner. cbn [Main.Terrain.heightMap Main.Terrain.width].
    apply (Hprev x z); assumption.
Qed.


Lemma Qtrunc_floor (q : Q) :
  (0 <= q)%Q -> (inject_Z (Qtrunc q) <= q < inject_Z (Qtrunc q + 1))%Q.
Proof.
  destruct q as [a d]. unfold Qle, Qlt, inject_Z, Qtrunc. cbn [Qnum Qden]. intros H.
  rewrite Z.quot_div_nonneg by lia.
  pose proof (Z.div_mod a (Z.pos d) ltac:(lia)) as Hdm.
  pose proof (Z.mod_pos_bound a (Z.pos d) ltac:(lia)) as Hm.
  nia.
Qed.

Lemma road_flat_on (tr : Main.Terrain.t Q) (x z : Q) :
  Main.Terrain.width tr = 100 -> Main.Terrain.depth tr = 200 ->
  Main.Terrain.gridSize tr = 1%Q ->
  (forall a b : Z, 0 <= a < 100 -> 0 <= b < 200 -> -4 < a - 50 < 4 ->
                   (1 # 20 <= corner tr a b < 3 # 20)%Q) ->
  (-3 <= x < 3)%Q -> (-100 <= z < 99)%Q ->
  (1 # 20 <= Main.Terrain.getHeight tr x z <= 3 # 20)%Q.
Proof.
  intros Ew Ed Eg Hroad Hx Hz.
  set (X := (x + inject_Z (Z.quot (Main.Terrain.width tr) 2))%Q).
  set (Z_ := (z + inject_Z (Z.quot (Main.Terrain.depth tr) 2))%Q).
  assert (EX : (X == x + 50)%Q) by (unfold X; rewrite Ew; reflexivity).
  assert (EZ : (Z_ == z + 100)%Q) by (unfold Z_; rewrite Ed; reflexivity).
  assert (HX0 : (0 <= X)%Q) by lra. assert (HZ0 : (0 <= Z_)%Q) by lra.
  pose proof (Qtrunc_floor X HX0) as HfX. pose proof (Qtrunc_floor Z_ HZ0) as HfZ.
  set (xi := Qtrunc X) in *. set (zi := Qtrunc Z_) in *.
  assert (Hxi : 47 <= xi <= 52).
  { destruct HfX as [H1 H2]. rewrite EX in H1, H2.
    split.
    - assert (47 < xi + 1); [|lia]. rewrite Zlt_Qlt.
      change (inject_Z 47) with 47%Q. lra.
    - assert (xi < 53); [|lia]. rewrite Zlt_Qlt.
      change (inject_Z 53) with 53%Q. lra. }
  assert (Hzi : 0 <= zi <= 198).
  { destruct HfZ as [H1 H2]. rewrite EZ in H1, H2.
    split.
    - assert (0 < zi + 1); [|lia]. rewrite Zlt_Qlt.
      change (inject_Z 0) with 0%Q. lra.
    - assert (zi < 199); [|lia]. rewrite Zlt_Qlt.
      change (inject_Z 199) with 199%Q. lra. }
  assert (Hg : (0 < Main.Terrain.gridSize tr)%Q) by (rewrite Eg; reflexivity).
  assert (HcX : (inject_Z xi * Main.Terrain.gridSize tr <= X
                 < inject_Z (xi + 1) * Main.Terrain.gridSize tr)%Q)
    by (rewrite Eg; split; lra).
  assert (HcZ : (inject_Z zi * Main.Terrain.gridSize tr <= Z_
                 < inject_Z (zi + 1) * Main.Terrain.gridSize tr)%Q)
    by (rewrite Eg; split; lra).
  destruct (cell_index X _ xi Hg ltac:(lia) HcX) as [Exi Hrx].
  destruct (cell_index Z_ _ zi Hg ltac:(lia) HcZ) as [Ezi Hrz].
  unfold Main.Terrain.getHeight.
  cbn [to_int fmod fadd fsub fmul fdiv of_int flit QF Q_ops].
  fold X Z_. rewrite Exi, Ezi.
  replace ((xi <? 0) || (xi >=? Main.Terrain.width tr - 1)
           || (zi <? 0) || (zi >=? Main.Terrain.depth tr - 1)) with false
    by (symmetry; rewrite Ew, Ed, !orb_false_iff, !Z.ltb_ge, !Z.geb_leb, !Z.leb_gt; lia).
  assert (B : forall a b, xi <= a <= xi + 1 -> zi <= b <= zi + 1 ->
                          (1 # 20 <= corner tr a b <= 3 # 20)%Q).
  { intros a b Ha Hb. destruct (Hroad a b) as [H1 H2]; try lia. split; lra. }
  unfold corner in B. rewrite Ew in B. rewrite Ew.
  pose proof (B xi zi ltac:(lia) ltac:(lia)) as B1.
  pose proof (B (xi + 1) zi ltac:(lia) ltac:(lia)) as B2.
  pose proof (B xi (zi + 1) ltac:(lia) ltac:(lia)) as B3.
  pose proof (B (xi + 1) (zi + 1) ltac:(lia) ltac:(lia)) as B4.
  replace (zi * 100 + xi + 1) with (zi * 100 + (xi + 1)) by lia.
  replace ((zi + 1) * 100 + xi + 1) with ((zi + 1) * 100 + (xi + 1)) by lia.
  cbv zeta. apply lerp_bounds; [apply lerp_bounds | apply lerp_bounds | ]; assumption.
Qed.

(** X12.  The road is flat.  On the terrain that the game builds (100 by
    200 samples, cell size 1), with random draws in [[0, 1)], the height
    at every point of the strip [-3 <= x < 3] along the whole length of
    the grid is between 0.05 and 0.15. *)
Theorem road_is_flat :
  (forall g', 0 <= fst (dis g') < 1)%Q ->
  forall (g : R) (x z : Q),
    (-3 <= x < 3)%Q -> (-100 <= z < 99)%Q ->
    (1 # 20 <= Main.Terrain.getHeight (fst (Main.Terrain.new 100 200 (flit 1) g)) x z
     <= 3 # 20)%Q.
Proof.
  intros Hdis g x z Hx Hz. unfold Main.Terrain.new.
  pose proof (generateHeightMap_road (Main.Terrain.mk [] 100 200 1%Q) g Hdis
                (Pos2Z.is_nonneg 100) (Pos2Z.is_nonneg 200)) as H.
  cbv zeta in H. revert H.
  change (flit 1) with 1%Q.
  generalize (fst (Main.Terrain.generateHeightMap (Main.Terrain.mk [] 100 200 1%Q) g)).
  intros tr (Ew & Ed & Eg & _ & Hroad).
  apply road_flat_on; try assumption.
Qed.


(** *** The rules of the game *)

(** a live ball forgets its acceleration: [update] overwrites it with
    gravity before reading it *)
Lemma update_forgets_acceleration (dt : Q) (grav a : Main.Vec3.t Q) (b : Main.MetaBall.t Q) :
  Main.MetaBall.isAlive b = true ->
  Main.MetaBall.update dt grav (Main.MetaBall.set_acceleration b a)
  = Main.MetaBall.update dt grav b.
Proof.
  intros H. unfold Main.MetaBall.update.
  cbn [Main.MetaBall.isAlive Main.MetaBall.set_acceleration]. rewrite H. cbn [negb].
  reflexivity.
Qed.

Lemma game_update_forgets_acceleration (dt : Q) (a : Main.Vec3.t Q)
      (gm : Main.Game.t Q) (g : R) :
  Main.Game.currentState gm = Main.Game.PLAYING ->
  Main.MetaBall.isAlive (Main.Game.player gm) = true ->
  Main.Game.update dt
    (Main.Game.set_player gm (Main.MetaBall.set_acceleration (Main.Game.player gm) a), g)
  = Main.Game.update dt (gm, g).
Proof.
  intros Hst H. rewrite !update_playing by exact Hst.
  do 7 f_equal.
  unfold Main.Game.updatePlayer, Main.Game.rotateEnvironment. game_simpl.
  case_if; game_simpl; rewrite update_forgets_acceleration by exact H; reflexivity.
Qed.

(** X13.  The movement keys do not move the ball.  W, A, S, D and the
    arrow keys add a force to the acceleration of the ball, and the next
    [update] overwrites the acceleration with gravity before it reads it:
    with a live ball, the frame after a movement key is the frame
    without it. *)
Theorem movement_keys_do_nothing (dt : Q) (key action : Z) (gm : Main.Game.t Q) (g : R) :
  In key [Main.GLFW_KEY_W; Main.GLFW_KEY_UP; Main.GLFW_KEY_S; Main.GLFW_KEY_DOWN;
          Main.GLFW_KEY_A; Main.GLFW_KEY_LEFT; Main.GLFW_KEY_D; Main.GLFW_KEY_RIGHT] ->
  Main.MetaBall.isAlive (Main.Game.player gm) = true ->
  Main.Game.update dt (Main.Game.handleInput key action gm, g)
  = Main.Game.update dt (gm, g).
Proof.
  intros Hkey Halive. unfold Main.Game.handleInput.
  destruct (Main.Game.GameState_eqb (Main.Game.currentState gm) Main.Game.PLAYING
            && (action =? Main.GLFW_PRESS)%Z) eqn:E; [|reflexivity].
  apply andb_prop in E. destruct E as [E _].
  assert (Hst : Main.Game.currentState gm = Main.Game.PLAYING)
    by (destruct (Main.Game.currentState gm); try discriminate; reflexivity).
  cbn [In] in Hkey.
  repeat (destruct Hkey as [<- | Hkey];
          [ cbv [Main.GLFW_KEY_W Main.GLFW_KEY_UP Main.GLFW_KEY_S Main.GLFW_KEY_DOWN
                 Main.GLFW_KEY_A Main.GLFW_KEY_LEFT Main.GLFW_KEY_D Main.GLFW_KEY_RIGHT];
            cbn [Z.eqb Pos.eqb orb];
            unfold Main.MetaBall.applyForce;
            now apply game_update_forgets_acceleration | ]).
  contradiction.
Qed.


Lemma generateMore_player_state (st : Main.Game.t Q * R) :
  Main.Game.player (fst (Main.Game.generateMore st)) = Main.Game.player (fst st) /\
  Main.Game.currentState (fst (Main.Game.generateMore st)) = Main.Game.currentState (fst st).
Proof.
  destruct (generateMore_core st) as (H1 & _ & _ & _ & H2). split; assumption.
Qed.

(** X14.  The game ends with the ball.  Whatever the state before, a
    game that is [PLAYING] after [update] has a live ball with health
    above zero. *)
Theorem playing_means_alive (dt : Q) (st : Main.Game.t Q * R) :
  Main.Game.currentState (fst (Main.Game.update dt st)) = Main.Game.PLAYING ->
  Main.MetaBall.isAlive (Main.Game.player (fst (Main.Game.update dt st))) = true /\
  (0 < Main.MetaBall.health (Main.Game.player (fst (Main.Game.update dt st))))%Q.
Proof.
  destruct st as [gm g].
  destruct (Main.Game.GameState_eqb (Main.Game.currentState gm) Main.Game.PLAYING) eqn:E.
  - assert (Hst : Main.Game.currentState gm = Main.Game.PLAYING)
      by (destruct (Main.Game.currentState gm); try discriminate; reflexivity).
    rewrite (update_playing dt gm g Hst).
    match goal with
    | |- context [Main.Game.checkGameOver ?x] => generalize x
    end.
    intros g4.
    destruct (generateMore_player_state
                (Main.Game.updateCamera dt (Main.Game.checkGameOver g4), g)) as [P S].
    cbn [fst] in P, S. rewrite P, S.
    unfold Main.Game.updateCamera. game_simpl.
    unfold Main.Game.checkGameOver.
    match goal with
    | |- context [if ?c then _ else _] => destruct c eqn:C
    end; game_simpl; [discriminate|].
    intros _. apply orb_false_elim in C. destruct C as [C1 C2].
    apply negb_false_iff in C1. cbn [fle of_int QF Q_ops] in C2. qcmp.
    split; [exact C1 | exact C2].
  - unfold Main.Game.update. rewrite E. cbn [negb fst].
    intros H. rewrite H in E. discriminate.
Qed.

(** X15.  Collecting.  The pass over the collectibles removes exactly
    those within reach of the ball (nearer than its radius plus 0.5),
    keeps the others in order, pays 50 points for each one removed and
    never takes the health of a ball at 100 or less above 100, nor
    lowers it. *)
Theorem collectibles_pay_fifty (cs : list (Main.Vec3.t Q)) (pl : Main.MetaBall.t Q) (sc : Q) :
  let r := Main.Game.pickCollectibles cs pl sc in
  let reach c :=
    Qltb (Main.Vec3.length (Main.Vec3.sub (Main.MetaBall.position pl) c))
         (Main.MetaBall.radius pl + (1 # 2)) in
  fst (fst r) = filter (fun c => negb (reach c)) cs /\
  (snd r == sc + 50 * inject_Z (Z.of_nat (List.length (filter reach cs))))%Q /\
  ((Main.MetaBall.health pl <= 100)%Q ->
   (Main.MetaBall.health pl <= Main.MetaBall.health (snd (fst r)) <= 100)%Q).
Proof.
  cbv zeta. revert pl sc.
  induction cs as [|c rest IH]; intros pl sc; cbn [Main.Game.pickCollectibles filter].
  - cbn [fst snd List.length Z.of_nat]. repeat split; try lra. 
    change (inject_Z 0) with 0%Q. lra.
  - cbn [flt fadd flit QF Q_ops].
    destruct (Qltb (Main.Vec3.length (Main.Vec3.sub (Main.MetaBall.position pl) c))
                   (Main.MetaBall.radius pl + (1 # 2))) eqn:E; cbn [negb].
    + match goal with
      | |- context [Main.Game.pickCollectibles rest ?p ?s] =>
          specialize (IH p s); set (r := Main.Game.pickCollectibles rest p s) in *
      end.
      cbn [Main.MetaBall.position Main.MetaBall.radius Main.MetaBall.set_health
           Main.MetaBall.health] in IH.
      destruct IH as (I1 & I2 & I3). split; [exact I1|]. split.
      * rewrite I2. cbn [List.length]. rewrite Nat2Z.inj_succ, <- Z.add_1_r, inject_Z_plus.
        cbn [of_int QF Q_ops]. change (inject_Z 50) with 50%Q. change (inject_Z 1) with 1%Q.
        ring.
      * intros H. unfold std_min in I3. cbn [flt fadd flit QF Q_ops] in I3.
        destruct (Qltb 100 (Main.MetaBall.health pl + 10)) eqn:E2; qcmp;
          (destruct I3 as [J1 J2]; [lra|]; split; lra).
    + specialize (IH pl sc).
      destruct (Main.Game.pickCollectibles rest pl sc) as [[r' p'] s'].
      cbn [fst snd] in *. destruct IH as (I1 & I2 & I3).
      split; [now rewrite I1|]. split; assumption.
Qed.


(** whether a ball touches an obstacle depends on its position and radius only *)
Lemma checkCollision_ext (b b' : Main.MetaBall.t Q) (o : Main.Obstacle.t Q) :
  Main.MetaBall.position b' = Main.MetaBall.position b ->
  Main.MetaBall.radius b' = Main.MetaBall.radius b ->
  Main.Obstacle.checkCollision b' o = Main.Obstacle.checkCollision b o.
Proof.
  intros H1 H2. unfold Main.Obstacle.checkCollision. rewrite H1, H2. reflexivity.
Qed.

Lemma hitObstacles_spent (obs : list (Main.Obstacle.t Q)) :
  forall (pl b : Main.MetaBall.t Q) (sc : Q),
    Main.MetaBall.position b = Main.MetaBall.position pl ->
    Main.MetaBall.radius b = Main.MetaBall.radius pl ->
    Forall (fun o => Main.Obstacle.checkCollision b o = false)
           (fst (fst (Main.Game.hitObstacles obs pl sc))) /\
    List.length (fst (fst (Main.Game.hitObstacles obs pl sc))) = List.length obs /\
    map (@Main.Obstacle.position Q) (fst (fst (Main.Game.hitObstacles obs pl sc)))
    = map (@Main.Obstacle.position Q) obs.
Proof.
  induction obs as [|o rest IH]; intros pl b sc Hp Hr; cbn [Main.Game.hitObstacles].
  - cbn [fst map List.length]. repeat split. constructor.
  - destruct (Main.Obstacle.checkCollision pl o) eqn:E.
    + match goal with
      | |- context [Main.Game.hitObstacles rest ?p ?s] =>
          specialize (IH p b s); destruct (Main.Game.hitObstacles rest p s) as [[r' p'] s']
      end.
      cbn [fst snd map List.length] in *.
      destruct IH as (I1 & I2 & I3).
      * cbn [Main.MetaBall.position Main.MetaBall.set_velocity].
        rewrite Hp. symmetry. apply takeDamage_position.
      * cbn [Main.MetaBall.radius Main.MetaBall.set_velocity].
        rewrite Hr. symmetry. apply takeDamage_position.
      * split; [|split].
        -- constructor; [|exact I1].
           unfold Main.Obstacle.checkCollision.
           cbn [Main.Obstacle.isActive Main.Obstacle.set_isActive negb]. reflexivity.
        -- now rewrite I2.
        -- now rewrite I3.
    + specialize (IH pl b sc Hp Hr).
      destruct (Main.Game.hitObstacles rest pl sc) as [[r' p'] s'].
      cbn [fst snd map List.length] in *.
      destruct IH as (I1 & I2 & I3). split; [|split].
      * constructor; [|exact I1].
        rewrite (checkCollision_ext pl b o Hp Hr). exact E.
      * now rewrite I2.
      * now rewrite I3.
Qed.

Lemma hitObstacles_none (obs : list (Main.Obstacle.t Q)) (pl : Main.MetaBall.t Q) (sc : Q) :
  Forall (fun o => Main.Obstacle.checkCollision pl o = false) obs ->
  Main.Game.hitObstacles obs pl sc = (obs, pl, sc).
Proof.
  induction 1 as [|o rest Ho _ IH]; cbn [Main.Game.hitObstacles]; [reflexivity|].
  rewrite Ho, IH. reflexivity.
Qed.

(** X16.  An obstacle hits once.  The pass over the obstacles keeps
    their number, order and positions; afterwards no obstacle touches
    the ball any more, so that a second pass changes nothing: neither
    the obstacles, nor the ball, nor the score. *)
Theorem obstacles_hit_once (obs : list (Main.Obstacle.t Q)) (pl : Main.MetaBall.t Q) (sc : Q) :
  let '(obs', pl', sc') := Main.Game.hitObstacles obs pl sc in
  List.length obs' = List.length obs /\
  map (@Main.Obstacle.position Q) obs' = map (@Main.Obstacle.position Q) obs /\
  Forall (fun o => Main.Obstacle.checkCollision pl' o = false) obs' /\
  Main.Game.hitObstacles obs' pl' sc' = (obs', pl', sc').
Proof.
  pose proof (hitObstacles_position obs pl sc) as [Hp Hr].
  pose proof (fun b => hitObstacles_spent obs pl b sc) as Hs.
  destruct (Main.Game.hitObstacles obs pl sc) as [[obs' pl'] sc'].
  cbn [fst snd] in *.
  destruct (Hs pl' Hp Hr) as (H1 & H2 & H3).
  repeat split; auto using hitObstacles_none.
Qed.


(** *** A new game *)

(** each generator appends to its own vector and touches nothing else *)
Lemma generateObstacles_appends (n : Z) (gm : Main.Game.t Q) (g : R) :
  0 <= n ->
  exists obs g',
    Main.Game.generateObstacles n (gm, g) = (Main.Game.set_obstacles gm obs, g') /\
    Z.of_nat (List.length obs) = Z.of_nat (List.length (Main.Game.obstacles gm)) + n.
Proof.
  intros Hn. unfold Main.Game.generateObstacles.
  apply (for_range_invariant
           (fun j s => exists obs g',
                s = (Main.Game.set_obstacles gm obs, g') /\
                Z.of_nat (List.length obs)
                = Z.of_nat (List.length (Main.Game.obstacles gm)) + j)); [exact Hn | |].
  - exists (Main.Game.obstacles gm), g. split; [destruct gm; reflexivity | lia].
  - intros j s Hj (obs & g' & -> & Hl). draw. game_simpl.
    eexists _, _. split; [reflexivity|]. rewrite length_push_back. lia.
Qed.

Lemma generateCollectibles_appends (n : Z) (gm : Main.Game.t Q) (g : R) :
  0 <= n ->
  exists cs g',
    Main.Game.generateCollectibles n (gm, g) = (Main.Game.set_collectibles gm cs, g') /\
    Z.of_nat (List.length cs) = Z.of_nat (List.length (Main.Game.collectibles gm)) + n.
Proof.
  intros Hn. unfold Main.Game.generateCollectibles.
  apply (for_range_invariant
           (fun j s => exists cs g',
                s = (Main.Game.set_collectibles gm cs, g') /\
                Z.of_nat (List.length cs)
                = Z.of_nat (List.length (Main.Game.collectibles gm)) + j)); [exact Hn | |].
  - exists (Main.Game.collectibles gm), g. split; [destruct gm; reflexivity | lia].
  - intros j s Hj (cs & g' & -> & Hl). draw. game_simpl.
    eexists _, _. split; [reflexivity|]. rewrite length_push_back. lia.
Qed.

Lemma generateTrees_appends (n : Z) (gm : Main.Game.t Q) (g : R) :
  0 <= n ->
  exists ts g',
    Main.Game.generateTrees n (gm, g) = (Main.Game.set_trees gm ts, g') /\
    Z.of_nat (List.length ts) = Z.of_nat (List.length (Main.Game.trees gm)) + n.
Proof.
  intros Hn. unfold Main.Game.generateTrees.
  apply (for_range_invariant
           (fun j s => exists ts g',
                s = (Main.Game.set_trees gm ts, g') /\
                Z.of_nat (List.length ts)
                = Z.of_nat (List.length (Main.Game.trees gm)) + j)); [exact Hn | |].
  - exists (Main.Game.trees gm), g. split; [destruct gm; reflexivity | lia].
  - intros j s Hj (ts & g' & -> & Hl). draw. game_simpl.
    eexists _, _. split; [reflexivity|]. rewrite length_push_back. lia.
Qed.

Lemma generateGrass_appends (n : Z) (gm : Main.Game.t Q) (g : R) :
  0 <= n ->
  exists gs g',
    Main.Game.generateGrass n (gm, g) = (Main.Game.set_grassPatches gm gs, g') /\
    Z.of_nat (List.length gs) = Z.of_nat (List.length (Main.Game.grassPatches gm)) + n.
Proof.
  intros Hn. unfold Main.Game.generateGrass.
  apply (for_range_invariant
           (fun j s => exists gs g',
                s = (Main.Game.set_grassPatches gm gs, g') /\
                Z.of_nat (List.length gs)
                = Z.of_nat (List.length (Main.Game.grassPatches gm)) + j)); [exact Hn | |].
  - exists (Main.Game.grassPatches gm), g. split; [destruct gm; reflexivity | lia].
  - intros j s Hj (gs & g' & -> & Hl). draw. game_simpl.
    eexists _, _. split; [reflexivity|]. rewrite length_push_back. lia.
Qed.

(** X17.  A new game.  [startGame] gives, from any state, a game that is
    [PLAYING] and out of the menu, with the initial ball, no score, no
    distance, speed 10, difficulty 1, and exactly 20 obstacles, 10
    collectibles, 30 trees and 50 grass patches; the camera is the one of
    the state before. *)
Theorem startGame_is_fresh (st : Main.Game.t Q * R) :
  let gm := fst (Main.Game.startGame st) in
  Main.Game.currentState gm = Main.Game.PLAYING /\
  Main.Game.inMenu gm = false /\ Main.Game.gameOver gm = false /\
  Main.Game.gamePaused gm = false /\
  Main.Game.player gm = Main.MetaBall.new /\
  Main.Game.score gm = 0%Q /\ Main.Game.distance gm = 0%Q /\
  Main.Game.gameSpeed gm = 10%Q /\ Main.Game.difficulty gm = 1%Q /\
  List.length (Main.Game.obstacles gm) = 20%nat /\
  List.length (Main.Game.collectibles gm) = 10%nat /\
  List.length (Main.Game.trees gm) = 30%nat /\
  List.length (Main.Game.grassPatches gm) = 50%nat /\
  Main.Game.cameraPosition gm = Main.Game.cameraPosition (fst st) /\
  Main.Game.cameraTarget gm = Main.Game.cameraTarget (fst st) /\
  Main.Game.cameraAngle gm = Main.Game.cameraAngle (fst st) /\
  Main.Game.cameraDistance gm = Main.Game.cameraDistance (fst st).
Proof.
  destruct st as [gm0 g0]. unfold Main.Game.startGame, Main.Game.resetGame.
  destruct (Main.Terrain.new 100 200 (flit 1) g0) as [tr g1]. cbv zeta.
  match goal with
  | |- context [Main.Game.generateObstacles 20 (?gm, ?g)] =>
      destruct (generateObstacles_appends 20 gm g ltac:(lia)) as (obs & g2 & -> & Lo)
  end.
  match goal with
  | |- context [Main.Game.generateCollectibles 10 (?gm, ?g)] =>
      destruct (generateCollectibles_appends 10 gm g ltac:(lia)) as (cs & g3 & -> & Lc)
  end.
  match goal with
  | |- context [Main.Game.generateTrees 30 (?gm, ?g)] =>
      destruct (generateTrees_appends 30 gm g ltac:(lia)) as (ts & g4 & -> & Lt)
  end.
  match goal with
  | |- context [Main.Game.generateGrass 50 (?gm, ?g)] =>
      destruct (generateGrass_appends 50 gm g ltac:(lia)) as (gs & g5 & -> & Lg)
  end.
  game_simpl. cbn [List.length] in Lo, Lc, Lt, Lg.
  repeat split; try reflexivity; lia.
Qed.


(** *** Where the scenery is put *)

Lemma inject_Z_nonneg (j : Z) : 0 <= j -> (0 <= inject_Z j)%Q.
Proof. intros H. unfold Qle, inject_Z. cbn [Qnum Qden]. lia. Qed.

Section Scenery.
Hypothesis Hdis : forall g : R, (0 <= fst (dis g) < 1)%Q.

Ltac draw_bounded :=
  repeat match goal with
  | |- context [dis ?g] =>
      let H := fresh "D" in
      pose proof (Hdis g) as H; destruct (dis g); cbn [fst] in H
  | |- context [rand ?g] => destruct (rand g)
  end.

Lemma generateObstacles_placed (P : Main.Obstacle.t Q -> Prop) (n : Z)
      (gm : Main.Game.t Q) (g : R) :
  (forall o : Main.Obstacle.t Q,
      (- (3 # 2) <= Main.Vec3.x (Main.Obstacle.position o) < 3 # 2)%Q ->
      (Main.Vec3.y (Main.Obstacle.position o) == 0)%Q ->
      (Main.Vec3.z (Main.Obstacle.position o) <= - (30))%Q ->
      (1 # 2 <= Main.Obstacle.width o < 3 # 2)%Q ->
      (1 # 2 <= Main.Obstacle.height o < 5 # 2)%Q ->
      (1 # 2 <= Main.Obstacle.depth o < 3 # 2)%Q ->
      (10 <= Main.Obstacle.damage o < 20)%Q ->
      Main.Obstacle.isActive o = true -> P o) ->
  0 <= n ->
  Forall P (Main.Game.obstacles gm) ->
  Forall P (Main.Game.obstacles (fst (Main.Game.generateObstacles n (gm, g)))).
Proof.
  intros HP Hn H0. unfold Main.Game.generateObstacles.
  apply (for_range_invariant
           (fun (j : Z) (s : Main.Game.t Q * R) => Forall P (Main.Game.obstacles (fst s))));
    [exact Hn | exact H0 |].
  intros j [gm' g'] Hj H. draw_bounded. game_simpl.
  apply Forall_push_back; [exact H|]. apply HP;
    cbn [Main.Obstacle.position Main.Obstacle.width Main.Obstacle.height
         Main.Obstacle.depth Main.Obstacle.damage Main.Obstacle.isActive
         Main.Obstacle.new Main.Vec3.x Main.Vec3.y Main.Vec3.z
         fadd fsub fmul fneg flit of_int QF Q_ops];
    try reflexivity; try (split; lra).
  pose proof (inject_Z_nonneg j ltac:(lia)). lra.
Qed.

Lemma generateCollectibles_placed (P : Main.Vec3.t Q -> Prop) (n : Z)
      (gm : Main.Game.t Q) (g : R) :
  (forall c : Main.Vec3.t Q,
      (- (3) <= Main.Vec3.x c < 3)%Q -> (1 <= Main.Vec3.y c < 3)%Q ->
      (Main.Vec3.z c <= - (20))%Q -> P c) ->
  0 <= n ->
  Forall P (Main.Game.collectibles gm) ->
  Forall P (Main.Game.collectibles (fst (Main.Game.generateCollectibles n (gm, g)))).
Proof.
  intros HP Hn H0. unfold Main.Game.generateCollectibles.
  apply (for_range_invariant
           (fun (j : Z) (s : Main.Game.t Q * R) =>
              Forall P (Main.Game.collectibles (fst s))));
    [exact Hn | exact H0 |].
  intros j [gm' g'] Hj H. draw_bounded. game_simpl.
  apply Forall_push_back; [exact H|]. apply HP;
    cbn [Main.Vec3.x Main.Vec3.y Main.Vec3.z fadd fsub fmul fneg flit of_int QF Q_ops];
    try (split; lra).
  pose proof (inject_Z_nonneg j ltac:(lia)). lra.
Qed.

(** X18.  Obstacles and collectibles of a new game.  With random draws
    in [[0, 1)], every obstacle of a new game is active, stands at
    ground level on the middle of the road ([-1.5 <= x < 1.5], [z <=
    -30]), is between 0.5 and 1.5 wide and deep and between 0.5 and 2.5
    high, and costs between 10 and 20 health; every collectible floats
    over the road ([-3 <= x < 3]) at a height between 1 and 3. *)
Theorem scenery_on_the_road (st : Main.Game.t Q * R) :
  let gm := fst (Main.Game.startGame st) in
  Forall (fun o =>
            Main.Obstacle.isActive o = true /\
            (- (3 # 2) <= Main.Vec3.x (Main.Obstacle.position o) < 3 # 2)%Q /\
            (Main.Vec3.y (Main.Obstacle.position o) == 0)%Q /\
            (Main.Vec3.z (Main.Obstacle.position o) <= - (30))%Q /\
            (1 # 2 <= Main.Obstacle.width o < 3 # 2)%Q /\
            (1 # 2 <= Main.Obstacle.height o < 5 # 2)%Q /\
            (1 # 2 <= Main.Obstacle.depth o < 3 # 2)%Q /\
            (10 <= Main.Obstacle.damage o < 20)%Q)
         (Main.Game.obstacles gm) /\
  Forall (fun c =>
            (- (3) <= Main.Vec3.x c < 3)%Q /\ (1 <= Main.Vec3.y c < 3)%Q /\
            (Main.Vec3.z c <= - (20))%Q)
         (Main.Game.collectibles gm).
Proof.
  destruct st as [gm0 g0]. unfold Main.Game.startGame, Main.Game.resetGame.
  destruct (Main.Terrain.new 100 200 (flit 1) g0) as [tr g1]. cbv zeta.
  match goal with
  | |- context [Main.Game.generateObstacles 20 (?gm, ?g)] =>
      pose proof (generateObstacles_placed
                    (fun o =>
                       Main.Obstacle.isActive o = true /\
                       (- (3 # 2) <= Main.Vec3.x (Main.Obstacle.position o) < 3 # 2)%Q /\
                       (Main.Vec3.y (Main.Obstacle.position o) == 0)%Q /\
                       (Main.Vec3.z (Main.Obstacle.position o) <= - (30))%Q /\
                       (1 # 2 <= Main.Obstacle.width o < 3 # 2)%Q /\
                       (1 # 2 <= Main.Obstacle.height o < 5 # 2)%Q /\
                       (1 # 2 <= Main.Obstacle.depth o < 3 # 2)%Q /\
                       (10 <= Main.Obstacle.damage o < 20)%Q)
                    20 gm g ltac:(intros; repeat split; tauto) ltac:(lia)
                    ltac:(constructor)) as PO;
      destruct (generateObstacles_appends 20 gm g ltac:(lia)) as (obs & g2 & E & _);
      rewrite E in PO |- *; clear E
  end.
  match goal with
  | |- context [Main.Game.generateCollectibles 10 (?gm, ?g)] =>
      pose proof (generateCollectibles_placed
                    (fun c =>
                       (- (3) <= Main.Vec3.x c < 3)%Q /\ (1 <= Main.Vec3.y c < 3)%Q /\
                       (Main.Vec3.z c <= - (20))%Q)
                    10 gm g ltac:(intros; repeat split; tauto) ltac:(lia)
                    ltac:(constructor)) as PC;
      destruct (generateCollectibles_appends 10 gm g ltac:(lia)) as (cs & g3 & E & _);
      rewrite E in PC |- *; clear E
  end.
  match goal with
  | |- context [Main.Game.generateTrees 30 (?gm, ?g)] =>
      destruct (generateTrees_appends 30 gm g ltac:(lia)) as (ts & g4 & -> & _)
  end.
  match goal with
  | |- context [Main.Game.generateGrass 50 (?gm, ?g)] =>
      destruct (generateGrass_appends 50 gm g ltac:(lia)) as (gs & g5 & -> & _)
  end.
  game_simpl. split; assumption.
Qed.


Lemma generateTrees_placed (P : Main.Tree.t Q -> Prop) (n : Z)
      (gm : Main.Game.t Q) (g : R) :
  Main.Terrain.width (Main.Game.terrain gm) = 100 ->
  Main.Terrain.gridSize (Main.Game.terrain gm) = 1%Q ->
  (forall t : Main.Tree.t Q,
      Main.Vec3.y (Main.Tree.position t) = 0%Q ->
      (102 <= Main.Vec3.x (Main.Tree.position t)
       \/ Main.Vec3.x (Main.Tree.position t) <= - (102))%Q -> P t) ->
  Forall P (Main.Game.trees gm) ->
  Forall P (Main.Game.trees (fst (Main.Game.generateTrees n (gm, g)))).
Proof.
  intros Hw Hg HP H0. unfold Main.Game.generateTrees.
  apply (for_range_preserves
           (fun s : Main.Game.t Q * R =>
              Main.Game.terrain (fst s) = Main.Game.terrain gm /\
              Forall P (Main.Game.trees (fst s)))); [split; [reflexivity | exact H0] |].
  intros j [gm' g'] [Ht H]. cbn [fst] in Ht, H. draw_bounded. game_simpl.
  split; [exact Ht|].
  apply Forall_push_back; [exact H|]. rewrite Ht.
  cbn [fadd fsub fmul fneg flit of_int QF Q_ops].
  change (inject_Z (Z.quot 200 2)) with 100%Q.
  apply HP; cbn [Main.Tree.position Main.Vec3.x Main.Vec3.y].
  - apply getHeight_out_of_grid. cbv zeta. rewrite Hw, Hg.
    change (inject_Z (Z.quot 100 2)) with 50%Q.
    match goal with
    | |- context [@flt Q _ ?a ?b] => destruct (@flt Q _ a b)
    end.
    + right. left. apply Qtrunc_ge. change (inject_Z (100 - 1)) with 99%Q.
      apply Qle_shift_div_l; [reflexivity|]. lra.
    + left.
      match goal with
      | |- Qtrunc ?e < 0 => assert (Qtrunc e <= -1); [|lia]
      end.
      apply Qtrunc_le. apply Qle_shift_div_r; [reflexivity|].
      change (inject_Z (-1)) with (-1)%Q. lra.
  - match goal with
    | |- context [@flt Q _ ?a ?b] => destruct (@flt Q _ a b)
    end; [left | right]; lra.
Qed.


Lemma generateGrass_placed (P : Main.Vec3.t Q -> Prop) (n : Z)
      (gm : Main.Game.t Q) (g : R) :
  Main.Terrain.width (Main.Game.terrain gm) = 100 ->
  Main.Terrain.gridSize (Main.Game.terrain gm) = 1%Q ->
  (forall p : Main.Vec3.t Q,
      (Main.Vec3.y p == 1 # 10)%Q ->
      (101 <= Main.Vec3.x p \/ Main.Vec3.x p <= - (101))%Q -> P p) ->
  Forall P (Main.Game.grassPatches gm) ->
  Forall P (Main.Game.grassPatches (fst (Main.Game.generateGrass n (gm, g)))).
Proof.
  intros Hw Hg HP H0. unfold Main.Game.generateGrass.
  apply (for_range_preserves
           (fun s : Main.Game.t Q * R =>
              Main.Game.terrain (fst s) = Main.Game.terrain gm /\
              Forall P (Main.Game.grassPatches (fst s))));
    [split; [reflexivity | exact H0] |].
  intros j [gm' g'] [Ht H]. cbn [fst] in Ht, H. draw_bounded. game_simpl.
  split; [exact Ht|].
  apply Forall_push_back; [exact H|]. rewrite Ht.
  cbn [fadd fsub fmul fneg flit of_int QF Q_ops].
  change (inject_Z (Z.quot 200 2)) with 100%Q.
  apply HP; cbn [Main.Vec3.x Main.Vec3.y].
  - rewrite getHeight_out_of_grid; [reflexivity|]. cbv zeta. rewrite Hw, Hg.
    change (inject_Z (Z.quot 100 2)) with 50%Q.
    match goal with
    | |- context [@flt Q _ ?a ?b] => destruct (@flt Q _ a b)
    end.
    + right. left. apply Qtrunc_ge. change (inject_Z (100 - 1)) with 99%Q.
      apply Qle_shift_div_l; [reflexivity|]. lra.
    + left.
      match goal with
      | |- Qtrunc ?e < 0 => assert (Qtrunc e <= -1); [|lia]
      end.
      apply Qtrunc_le. apply Qle_shift_div_r; [reflexivity|].
      change (inject_Z (-1)) with (-1)%Q. lra.
  - match goal with
    | |- context [@flt Q _ ?a ?b] => destruct (@flt Q _ a b)
    end; [left | right]; lra.
Qed.

(** X19.  Trees and grass stand beside the terrain, not on it.  The
    generators place them from a width of 200 while the terrain of the
    game is 100 wide: with random draws in [[0, 1)], every tree of a new
    game is at [|x| >= 102] and every grass patch at [|x| >= 101], where
    [getHeight] answers 0, so all trees stand at height 0 and all grass
    at height 0.1, whatever the relief. *)
Theorem trees_stand_off_the_terrain (st : Main.Game.t Q * R) :
  let gm := fst (Main.Game.startGame st) in
  Main.Terrain.width (Main.Game.terrain gm) = 100 /\
  Forall (fun t =>
            Main.Vec3.y (Main.Tree.position t) = 0%Q /\
            (102 <= Main.Vec3.x (Main.Tree.position t)
             \/ Main.Vec3.x (Main.Tree.position t) <= - (102))%Q)
         (Main.Game.trees gm) /\
  Forall (fun p =>
            (Main.Vec3.y p == 1 # 10)%Q /\
            (101 <= Main.Vec3.x p \/ Main.Vec3.x p <= - (101))%Q)
         (Main.Game.grassPatches gm).
Proof.
  destruct st as [gm0 g0]. unfold Main.Game.startGame, Main.Game.resetGame.
  unfold Main.Terrain.new.
  pose proof (generateHeightMap_road (Main.Terrain.mk [] 100 200 1%Q) g0 Hdis
                (Pos2Z.is_nonneg 100) (Pos2Z.is_nonneg 200)) as H.
  cbv zeta in H. destruct H as (Ew & _ & Eg & _).
  change (flit 1) with 1%Q.
  destruct (Main.Terrain.generateHeightMap (Main.Terrain.mk [] 100 200 1%Q) g0)
    as [tr g1].
  cbn [fst Main.Terrain.width Main.Terrain.gridSize] in Ew, Eg. cbv zeta.
  match goal with
  | |- context [Main.Game.generateObstacles 20 (?gm, ?g)] =>
      destruct (generateObstacles_appends 20 gm g ltac:(lia)) as (obs & g2 & -> & _)
  end.
  match goal with
  | |- context [Main.Game.generateCollectibles 10 (?gm, ?g)] =>
      destruct (generateCollectibles_appends 10 gm g ltac:(lia)) as (cs & g3 & -> & _)
  end.
  match goal with
  | |- context [Main.Game.generateTrees 30 (?gm, ?g)] =>
      pose proof (generateTrees_placed
                    (fun t =>
                       Main.Vec3.y (Main.Tree.position t) = 0%Q /\
                       (102 <= Main.Vec3.x (Main.Tree.position t)
                        \/ Main.Vec3.x (Main.Tree.position t) <= - (102))%Q)
                    30 gm g Ew Eg ltac:(intros; split; assumption)
                    ltac:(constructor)) as PT;
      destruct (generateTrees_appends 30 gm g ltac:(lia)) as (ts & g4 & E & _);
      rewrite E in PT |- *; clear E
  end.
  match goal with
  | |- context [Main.Game.generateGrass 50 (?gm, ?g)] =>
      pose proof (generateGrass_placed
                    (fun p =>
                       (Main.Vec3.y p == 1 # 10)%Q /\
                       (101 <= Main.Vec3.x p \/ Main.Vec3.x p <= - (101))%Q)
                    50 gm g Ew Eg ltac:(intros; split; assumption)
                    ltac:(constructor)) as PG;
      destruct (generateGrass_appends 50 gm g ltac:(lia)) as (gs & g5 & E & _);
      rewrite E in PG |- *; clear E
  end.
  game_simpl. repeat split; assumption.
Qed.
End Scenery.


(** *** The scenery ahead *)

Lemma last_of_map {A B : Type} (f : A -> B) (l : list A) (d : A) :
  last (map f l) (f d) = f (last l d).
Proof.
  induction l as [|a [|b l] IH]; cbn [map last] in *; auto.
Qed.

Lemma back_push_back {A : Type} (l : list A) (e d : A) : back d (push_back l e) = e.
Proof. unfold back, push_back. apply last_last. Qed.

Lemma Qltb_of_le (a b : Q) : (b <= a)%Q -> Qltb a b = false.
Proof.
  intros H. unfold Qltb. apply negb_false_iff. now apply Qle_bool_iff.
Qed.

(** the blocks of [update] before "Check collisions with obstacles"
    leave the scenery alone and keep a live ball at [z >= -50] *)
Lemma terrainCollision_scenery (gm : Main.Game.t Q) :
  Main.Game.obstacles (Main.Game.terrainCollision gm) = Main.Game.obstacles gm /\
  Main.Game.trees (Main.Game.terrainCollision gm) = Main.Game.trees gm /\
  Main.Game.grassPatches (Main.Game.terrainCollision gm) = Main.Game.grassPatches gm /\
  Main.Vec3.z (Main.MetaBall.position (Main.Game.player (Main.Game.terrainCollision gm)))
  = Main.Vec3.z (Main.MetaBall.position (Main.Game.player gm)).
Proof.
  unfold Main.Game.terrainCollision. cbv zeta. case_if; [|repeat split].
  game_simpl.
  cbn [Main.MetaBall.set_position Main.MetaBall.set_velocity Main.MetaBall.position
       Main.Vec3.z Main.Vec3.set_y].
  repeat split.
Qed.

Lemma scenery_before_obstacles (dt : Q) (gm : Main.Game.t Q) :
  let gm' := Main.Game.progress dt
               (Main.Game.terrainCollision
                  (Main.Game.updatePlayer dt (Main.Game.rotateEnvironment dt gm))) in
  Main.Game.obstacles gm' = Main.Game.obstacles gm /\
  Main.Game.trees gm' = Main.Game.trees gm /\
  Main.Game.grassPatches gm' = Main.Game.grassPatches gm /\
  Main.Vec3.z (Main.MetaBall.position (Main.Game.player gm'))
  = Main.Vec3.z (Main.MetaBall.position
                   (Main.MetaBall.update dt
                      (Main.Vec3.mk (inject_Z 0) (- (98 # 10))%Q (inject_Z 0))
                      (Main.Game.player gm))).
Proof.
  cbv zeta.
  set (g1 := Main.Game.updatePlayer dt (Main.Game.rotateEnvironment dt gm)).
  assert (F1 : Main.Game.obstacles g1 = Main.Game.obstacles gm /\
               Main.Game.trees g1 = Main.Game.trees gm /\
               Main.Game.grassPatches g1 = Main.Game.grassPatches gm /\
               Main.Game.player g1
               = Main.MetaBall.update dt
                   (Main.Vec3.mk (inject_Z 0) (- (98 # 10))%Q (inject_Z 0))
                   (Main.Game.player gm)).
  { unfold g1, Main.Game.updatePlayer, Main.Game.rotateEnvironment. cbv zeta.
    case_if; game_simpl; repeat split. }
  clearbody g1. destruct F1 as (O1 & T1 & G1 & P1).
  destruct (terrainCollision_scenery g1) as (O2 & T2 & G2 & P2).
  set (g2 := Main.Game.terrainCollision g1) in *. clearbody g2.
  unfold Main.Game.progress. game_simpl.
  rewrite O2, O1, T2, T1, G2, G1, P2, P1. repeat split.
Qed.

Lemma scenery_after_obstacles (dt : Q) (gm : Main.Game.t Q) :
  let gm' := Main.Game.updateCamera dt
               (Main.Game.checkGameOver
                  (Main.Game.checkCollectibles (Main.Game.checkObstacles gm))) in
  map (@Main.Obstacle.position Q) (Main.Game.obstacles gm')
  = map (@Main.Obstacle.position Q) (Main.Game.obstacles gm) /\
  Main.Game.trees gm' = Main.Game.trees gm /\
  Main.Game.grassPatches gm' = Main.Game.grassPatches gm /\
  Main.MetaBall.position (Main.Game.player gm')
  = Main.MetaBall.position (Main.Game.player gm).
Proof.
  cbv zeta.
  set (g3 := Main.Game.checkObstacles gm).
  assert (F3 : map (@Main.Obstacle.position Q) (Main.Game.obstacles g3)
               = map (@Main.Obstacle.position Q) (Main.Game.obstacles gm) /\
               Main.Game.trees g3 = Main.Game.trees gm /\
               Main.Game.grassPatches g3 = Main.Game.grassPatches gm /\
               Main.MetaBall.position (Main.Game.player g3)
               = Main.MetaBall.position (Main.Game.player gm)).
  { unfold g3, Main.Game.checkObstacles.
    pose proof (hitObstacles_spent (Main.Game.obstacles gm) (Main.Game.player gm)
                  (Main.Game.player gm) (Main.Game.score gm) eq_refl eq_refl)
      as (_ & _ & Hm).
    pose proof (hitObstacles_position (Main.Game.obstacles gm) (Main.Game.player gm)
                  (Main.Game.score gm)) as [Hp _].
    destruct (Main.Game.hitObstacles _ _ _) as [[obs pl] sc].
    game_simpl. repeat split; assumption. }
  clearbody g3. destruct F3 as (O3 & T3 & G3 & P3).
  set (g4 := Main.Game.checkCollectibles g3).
  assert (F4 : Main.Game.obstacles g4 = Main.Game.obstacles g3 /\
               Main.Game.trees g4 = Main.Game.trees g3 /\
               Main.Game.grassPatches g4 = Main.Game.grassPatches g3 /\
               Main.MetaBall.position (Main.Game.player g4)
               = Main.MetaBall.position (Main.Game.player g3)).
  { unfold g4, Main.Game.checkCollectibles.
    pose proof (pickCollectibles_position (Main.Game.collectibles g3) (Main.Game.player g3)
                  (Main.Game.score g3)) as [Hp _].
    destruct (Main.Game.pickCollectibles _ _ _) as [[cs pl] sc].
    game_simpl. repeat split; assumption. }
  clearbody g4. destruct F4 as (O4 & T4 & G4 & P4).
  unfold Main.Game.updateCamera, Main.Game.checkGameOver. cbv zeta.
  case_if; game_simpl; rewrite ?O4, ?O3, ?T4, ?T3, ?G4, ?G3, ?P4, ?P3; repeat split.
Qed.

Lemma scenery_before_generateMore (dt : Q) (gm : Main.Game.t Q) :
  let gm' := Main.Game.updateCamera dt
               (Main.Game.checkGameOver
                  (Main.Game.checkCollectibles
                     (Main.Game.checkObstacles
                        (Main.Game.progress dt
                           (Main.Game.terrainCollision
                              (Main.Game.updatePlayer dt
                                 (Main.Game.rotateEnvironment dt gm))))))) in
  map (@Main.Obstacle.position Q) (Main.Game.obstacles gm')
  = map (@Main.Obstacle.position Q) (Main.Game.obstacles gm) /\
  Main.Game.trees gm' = Main.Game.trees gm /\
  Main.Game.grassPatches gm' = Main.Game.grassPatches gm /\
  (Main.MetaBall.isAlive (Main.Game.player gm) = true ->
   (-50 <= Main.Vec3.z (Main.MetaBall.position (Main.Game.player gm')))%Q).
Proof.
  cbv zeta.
  destruct (scenery_before_obstacles dt gm) as (O1 & T1 & G1 & P1).
  set (g2 := Main.Game.progress dt _) in *. clearbody g2.
  destruct (scenery_after_obstacles dt g2) as (O2 & T2 & G2 & P2).
  set (g5 := Main.Game.updateCamera dt _) in *. clearbody g5.
  rewrite O2, O1, T2, T1, G2, G1, P2, P1. repeat split.
  intros Halive. unfold Main.MetaBall.update. rewrite Halive. cbn [negb].
  apply keepWithinBounds_ok.
Qed.

(** with the scenery far ahead of a ball at [z >= -50], "Generate
    more" can add collectibles only *)
Lemma generateMore_far (gm : Main.Game.t Q) (g : R) :
  scenery_is_far gm ->
  (-50 <= Main.Vec3.z (Main.MetaBall.position (Main.Game.player gm)))%Q ->
  exists cs g', Main.Game.generateMore (gm, g) = (Main.Game.set_collectibles gm cs, g').
Proof.
  intros (_ & _ & _ & F1 & F2 & F3) P.
  unfold Main.Game.generateMore. cbn [fst]. cbv zeta.
  cbn [flt fsub of_int QF Q_ops].
  change (inject_Z 100) with 100%Q. change (inject_Z 150) with 150%Q.
  match goal with
  | |- context [Qltb ?a ?b] => rewrite (Qltb_of_le a b) by lra
  end.
  cbn [fst].
  match goal with
  | |- context [match Main.Game.collectibles gm with [] => ?a | _ :: _ => ?b end] =>
      set (s2 := match Main.Game.collectibles gm with [] => a | _ :: _ => b end)
  end.
  assert (Hc : exists cs g', s2 = (Main.Game.set_collectibles gm cs, g')).
  { unfold s2.
    destruct (generateCollectibles_appends 3 gm g ltac:(lia)) as (cs & g' & E & _).
    destruct (Main.Game.collectibles gm) eqn:Ec.
    - exists cs, g'. exact E.
    - case_if.
      + exists cs, g'. exact E.
      + exists (Main.Game.collectibles gm), g. destruct gm; reflexivity. }
  clearbody s2. destruct Hc as (cs & g' & ->). exists cs, g'. game_simpl.
  match goal with
  | |- context [Qltb ?a ?b] => rewrite (Qltb_of_le a b) by lra
  end.
  game_simpl.
  match goal with
  | |- context [Qltb ?a ?b] => rewrite (Qltb_of_le a b) by lra
  end.
  reflexivity.
Qed.

(** [scenery_is_far] reads the positions only *)
Lemma scenery_is_far_ext (a b : Main.Game.t Q) :
  map (@Main.Obstacle.position Q) (Main.Game.obstacles b)
  = map (@Main.Obstacle.position Q) (Main.Game.obstacles a) ->
  Main.Game.trees b = Main.Game.trees a ->
  Main.Game.grassPatches b = Main.Game.grassPatches a ->
  scenery_is_far a -> scenery_is_far b.
Proof.
  intros O T G (N1 & N2 & N3 & F1 & F2 & F3). unfold scenery_is_far.
  rewrite T, G. repeat split; try assumption.
  - intros E. rewrite E in O. destruct (Main.Game.obstacles a); [tauto | discriminate].
  - unfold back in *.
    rewrite <- (last_of_map (@Main.Obstacle.position Q) (Main.Game.obstacles b)), O,
      last_of_map.
    exact F1.
Qed.

(** X20.  The scenery is never extended.  A live ball is kept at [z >=
    -50], and [update] adds obstacles, trees or grass only when the last
    one is nearer than 100 (trees: 150) ahead of the ball: while the
    scenery ends far ahead, a frame adds none, and the scenery still
    ends far ahead afterwards. *)
Theorem scenery_is_never_extended (dt : Q) (gm : Main.Game.t Q) (g : R) :
  Main.Game.currentState gm = Main.Game.PLAYING ->
  Main.MetaBall.isAlive (Main.Game.player gm) = true ->
  scenery_is_far gm ->
  let gm' := fst (Main.Game.update dt (gm, g)) in
  map (@Main.Obstacle.position Q) (Main.Game.obstacles gm')
  = map (@Main.Obstacle.position Q) (Main.Game.obstacles gm) /\
  Main.Game.trees gm' = Main.Game.trees gm /\
  Main.Game.grassPatches gm' = Main.Game.grassPatches gm /\
  scenery_is_far gm'.
Proof.
  intros Hst Halive Hfar. cbv zeta. rewrite (update_playing dt gm g Hst).
  pose proof (scenery_before_generateMore dt gm) as H. cbv zeta in H.
  revert H.
  match goal with
  | |- context [Main.Game.generateMore (?x, g)] => generalize x
  end.
  intros g5 (O & T & G & P). specialize (P Halive).
  pose proof (scenery_is_far_ext gm g5 O T G Hfar) as Hfar5.
  destruct (generateMore_far g5 g Hfar5 P) as (cs & g' & E). rewrite E. clear E.
  assert (F : scenery_is_far (Main.Game.set_collectibles g5 cs))
    by (apply (scenery_is_far_ext g5); [reflexivity .. | exact Hfar5]).
  cbn [fst]. game_simpl. auto.
Qed.


(** the last element that each generator leaves *)
Lemma generateObstacles_last (n : Z) (gm : Main.Game.t Q) (g : R) :
  0 < n ->
  Main.Game.obstacles (fst (Main.Game.generateObstacles n (gm, g))) <> [] /\
  Main.Vec3.z (Main.Obstacle.position
                 (back Main.Obstacle.new
                       (Main.Game.obstacles (fst (Main.Game.generateObstacles n (gm, g))))))
  = (- (30) - inject_Z (n - 1) * 15)%Q.
Proof.
  intros Hn. unfold Main.Game.generateObstacles.
  apply (for_range_invariant
           (fun (j : Z) (s : Main.Game.t Q * R) =>
              0 < j ->
              Main.Game.obstacles (fst s) <> [] /\
              Main.Vec3.z (Main.Obstacle.position
                             (back Main.Obstacle.new (Main.Game.obstacles (fst s))))
              = (- (30) - inject_Z (j - 1) * 15)%Q)); [lia | lia | | exact Hn].
  intros j [gm' g'] Hj _ _. draw. game_simpl. rewrite back_push_back. split.
  - unfold push_back. intros E. apply app_eq_nil in E. destruct E; discriminate.
  - rewrite Z.add_simpl_r. reflexivity.
Qed.

Lemma generateTrees_last (n : Z) (gm : Main.Game.t Q) (g : R) :
  0 < n ->
  Main.Game.trees (fst (Main.Game.generateTrees n (gm, g))) <> [] /\
  Main.Vec3.z (Main.Tree.position
                 (back Main.Tree.new
                       (Main.Game.trees (fst (Main.Game.generateTrees n (gm, g))))))
  = (- (20) - inject_Z (n - 1) * 20)%Q.
Proof.
  intros Hn. unfold Main.Game.generateTrees.
  apply (for_range_invariant
           (fun (j : Z) (s : Main.Game.t Q * R) =>
              0 < j ->
              Main.Game.trees (fst s) <> [] /\
              Main.Vec3.z (Main.Tree.position
                             (back Main.Tree.new (Main.Game.trees (fst s))))
              = (- (20) - inject_Z (j - 1) * 20)%Q)); [lia | lia | | exact Hn].
  intros j [gm' g'] Hj _ _. draw. game_simpl. rewrite back_push_back. split.
  - unfold push_back. intros E. apply app_eq_nil in E. destruct E; discriminate.
  - rewrite Z.add_simpl_r. reflexivity.
Qed.

Lemma generateGrass_last (n : Z) (gm : Main.Game.t Q) (g : R) :
  0 < n ->
  Main.Game.grassPatches (fst (Main.Game.generateGrass n (gm, g))) <> [] /\
  Main.Vec3.z (back Main.Vec3.zero
                    (Main.Game.grassPatches (fst (Main.Game.generateGrass n (gm, g)))))
  = (- (10) - inject_Z (n - 1) * 8)%Q.
Proof.
  intros Hn. unfold Main.Game.generateGrass.
  apply (for_range_invariant
           (fun (j : Z) (s : Main.Game.t Q * R) =>
              0 < j ->
              Main.Game.grassPatches (fst s) <> [] /\
              Main.Vec3.z (back Main.Vec3.zero (Main.Game.grassPatches (fst s)))
              = (- (10) - inject_Z (j - 1) * 8)%Q)); [lia | lia | | exact Hn].
  intros j [gm' g'] Hj _ _. draw. game_simpl. rewrite back_push_back. split.
  - unfold push_back. intros E. apply app_eq_nil in E. destruct E; discriminate.
  - rewrite Z.add_simpl_r. reflexivity.
Qed.

(** X21.  Where the scenery of a new game ends: the last obstacle is at
    [z = -315], the last tree at [z = -600] and the last grass patch at
    [z = -402], whatever the random draws; the scenery of a new game is
    far ahead. *)
Theorem new_game_scenery_is_far (st : Main.Game.t Q * R) :
  let gm := fst (Main.Game.startGame st) in
  (Main.Vec3.z (Main.Obstacle.position (back Main.Obstacle.new (Main.Game.obstacles gm)))
   == - (315))%Q /\
  (Main.Vec3.z (Main.Tree.position (back Main.Tree.new (Main.Game.trees gm)))
   == - (600))%Q /\
  (Main.Vec3.z (back Main.Vec3.zero (Main.Game.grassPatches gm)) == - (402))%Q /\
  scenery_is_far gm.
Proof.
  destruct st as [gm0 g0]. unfold Main.Game.startGame, Main.Game.resetGame.
  destruct (Main.Terrain.new 100 200 (flit 1) g0) as [tr g1]. cbv zeta.
  match goal with
  | |- context [Main.Game.generateObstacles 20 (?gm, ?g)] =>
      destruct (generateObstacles_last 20 gm g ltac:(lia)) as [NO LO];
      destruct (generateObstacles_appends 20 gm g ltac:(lia)) as (obs & g2 & E & _);
      rewrite E in NO, LO |- *; clear E
  end.
  match goal with
  | |- context [Main.Game.generateCollectibles 10 (?gm, ?g)] =>
      destruct (generateCollectibles_appends 10 gm g ltac:(lia)) as (cs & g3 & -> & _)
  end.
  match goal with
  | |- context [Main.Game.generateTrees 30 (?gm, ?g)] =>
      destruct (generateTrees_last 30 gm g ltac:(lia)) as [NT LT];
      destruct (generateTrees_appends 30 gm g ltac:(lia)) as (ts & g4 & E & _);
      rewrite E in NT, LT |- *; clear E
  end.
  match goal with
  | |- context [Main.Game.generateGrass 50 (?gm, ?g)] =>
      destruct (generateGrass_last 50 gm g ltac:(lia)) as [NG LG];
      destruct (generateGrass_appends 50 gm g ltac:(lia)) as (gs & g5 & E & _);
      rewrite E in NG, LG |- *; clear E
  end.
  unfold scenery_is_far. game_simpl. rewrite LO, LT, LG.
  repeat split; try assumption; try reflexivity; apply Qle_bool_iff; reflexivity.
Qed.


(** *** Frames *)

(** "Generate more" writes to the four vectors of the scenery only *)
Lemma generateMore_writes_scenery (gm : Main.Game.t Q) (g : R) :
  exists obs cs ts gs g',
    Main.Game.generateMore (gm, g)
    = (Main.Game.set_grassPatches
         (Main.Game.set_trees
            (Main.Game.set_collectibles (Main.Game.set_obstacles gm obs) cs) ts) gs, g').
Proof.
  unfold Main.Game.generateMore. cbn [fst].
  set (pz := Main.Vec3.z (Main.MetaBall.position (Main.Game.player gm))).
  clearbody pz. cbv zeta.
  assert (H1 : forall c : bool,
             exists obs g1,
               (if c then Main.Game.generateObstacles 5 (gm, g) else (gm, g))
               = (Main.Game.set_obstacles gm obs, g1)).
  { intros [|].
    - destruct (generateObstacles_appends 5 gm g ltac:(lia)) as (obs & g1 & E & _).
      now exists obs, g1.
    - exists (Main.Game.obstacles gm), g. destruct gm; reflexivity. }
  match goal with
  | |- context [if ?c then Main.Game.generateObstacles 5 (gm, g) else (gm, g)] =>
      destruct (H1 c) as (obs & g1 & E1); rewrite E1; clear E1 H1
  end.
  cbn [fst]. set (gm1 := Main.Game.set_obstacles gm obs).
  assert (H2 : exists cs g2,
             match Main.Game.collectibles gm1 with
             | [] => Main.Game.generateCollectibles 3 (gm1, g1)
             | _ :: _ =>
                 if (Main.Vec3.z (back Main.Vec3.zero (Main.Game.collectibles gm1))
                     [>] pz [-] of_int 80)%flt
                 then Main.Game.generateCollectibles 3 (gm1, g1) else (gm1, g1)
             end = (Main.Game.set_collectibles gm1 cs, g2)).
  { destruct (generateCollectibles_appends 3 gm1 g1 ltac:(lia)) as (cs & g2 & E & _).
    destruct (Main.Game.collectibles gm1) eqn:Ec.
    - now exists cs, g2.
    - case_if.
      + now exists cs, g2.
      + exists (Main.Game.collectibles gm1), g1. unfold gm1. destruct gm; reflexivity. }
  destruct H2 as (cs & g2 & E2). rewrite E2. clear E2.
  cbn [fst]. set (gm2 := Main.Game.set_collectibles gm1 cs).
  assert (H3 : forall c : bool,
             exists ts g3,
               (if c then Main.Game.generateTrees 5 (gm2, g2) else (gm2, g2))
               = (Main.Game.set_trees gm2 ts, g3)).
  { intros [|].
    - destruct (generateTrees_appends 5 gm2 g2 ltac:(lia)) as (ts & g3 & E & _).
      now exists ts, g3.
    - exists (Main.Game.trees gm2), g2. unfold gm2, gm1. destruct gm; reflexivity. }
  match goal with
  | |- context [if ?c then Main.Game.generateTrees 5 (gm2, g2) else (gm2, g2)] =>
      destruct (H3 c) as (ts & g3 & E3); rewrite E3; clear E3 H3
  end.
  cbn [fst]. set (gm3 := Main.Game.set_trees gm2 ts).
  case_if.
  - destruct (generateGrass_appends 10 gm3 g3 ltac:(lia)) as (gs & g4 & E4 & _).
    exists obs, cs, ts, gs, g4. exact E4.
  - exists obs, cs, ts, (Main.Game.grassPatches gm3), g3.
    unfold gm3, gm2, gm1. destruct gm; reflexivity.
Qed.

Lemma time_after_progress (dt : Q) (a : Main.Game.t Q) :
  let b := Main.Game.updateCamera dt
             (Main.Game.checkGameOver
                (Main.Game.checkCollectibles (Main.Game.checkObstacles a))) in
  Main.Game.distance b = Main.Game.distance a /\
  Main.Game.gameSpeed b = Main.Game.gameSpeed a /\
  Main.Game.difficulty b = Main.Game.difficulty a /\
  Main.Game.terrain b = Main.Game.terrain a.
Proof.
  cbv zeta. unfold Main.Game.checkObstacles.
  destruct (Main.Game.hitObstacles _ _ _) as [[o1 p1] s1].
  unfold Main.Game.checkCollectibles. game_simpl.
  destruct (Main.Game.pickCollectibles _ _ _) as [[c2 p2] s2].
  unfold Main.Game.updateCamera, Main.Game.checkGameOver. cbv zeta.
  case_if; game_simpl; repeat split.
Qed.

Lemma time_before_progress (dt : Q) (a : Main.Game.t Q) :
  let b := Main.Game.terrainCollision
             (Main.Game.updatePlayer dt (Main.Game.rotateEnvironment dt a)) in
  Main.Game.distance b = Main.Game.distance a /\
  Main.Game.gameSpeed b = Main.Game.gameSpeed a /\
  Main.Game.difficulty b = Main.Game.difficulty a /\
  Main.Game.terrain b = Main.Game.terrain a.
Proof.
  cbv zeta.
  set (a1 := Main.Game.updatePlayer dt (Main.Game.rotateEnvironment dt a)).
  assert (F : Main.Game.distance a1 = Main.Game.distance a /\
              Main.Game.gameSpeed a1 = Main.Game.gameSpeed a /\
              Main.Game.difficulty a1 = Main.Game.difficulty a /\
              Main.Game.terrain a1 = Main.Game.terrain a).
  { unfold a1, Main.Game.updatePlayer, Main.Game.rotateEnvironment. cbv zeta.
    case_if; game_simpl; repeat split. }
  clearbody a1. destruct F as (D & S & Y & T). rewrite <- D, <- S, <- Y, <- T.
  unfold Main.Game.terrainCollision. cbv zeta. case_if; game_simpl; repeat split.
Qed.

(** X22.  What a frame adds.  While [PLAYING], [update] adds [gameSpeed
    * dt] to the distance, [dt / 10] to the speed and [dt / 100] to the
    difficulty, whatever happens to the ball in the same frame, and
    leaves the terrain as it is. *)
Theorem frame_advances_by_time (dt : Q) (gm : Main.Game.t Q) (g : R) :
  Main.Game.currentState gm = Main.Game.PLAYING ->
  let gm' := fst (Main.Game.update dt (gm, g)) in
  (Main.Game.distance gm' == Main.Game.distance gm + Main.Game.gameSpeed gm * dt)%Q /\
  (Main.Game.gameSpeed gm' == Main.Game.gameSpeed gm + dt * (1 # 10))%Q /\
  (Main.Game.difficulty gm' == Main.Game.difficulty gm + dt * (1 # 100))%Q /\
  Main.Game.terrain gm' = Main.Game.terrain gm.
Proof.
  intros Hst. cbv zeta. rewrite (update_playing dt gm g Hst).
  pose proof (time_before_progress dt gm) as H1. cbv zeta in H1. revert H1.
  generalize (Main.Game.terrainCollision
                (Main.Game.updatePlayer dt (Main.Game.rotateEnvironment dt gm))).
  intros g1 (D1 & S1 & Y1 & T1).
  pose proof (time_after_progress dt (Main.Game.progress dt g1)) as H2.
  cbv zeta in H2. revert H2.
  generalize (Main.Game.updateCamera dt
                (Main.Game.checkGameOver
                   (Main.Game.checkCollectibles
                      (Main.Game.checkObstacles (Main.Game.progress dt g1))))).
  intros g5 (D2 & S2 & Y2 & T2).
  destruct (generateMore_writes_scenery g5 g) as (obs & cs & ts & gs & g' & E).
  rewrite E. clear E. cbn [fst]. game_simpl.
  rewrite D2, S2, Y2, T2. unfold Main.Game.progress. game_simpl.
  rewrite D1, S1, Y1, T1.
  cbn [fadd fmul flit QF Q_ops]. repeat split; reflexivity.
Qed.

(** X23.  Pause.  From a running game, [togglePause] gives a state in
    which [update] changes nothing and [handleInput] ignores every key;
    a second [togglePause] gives back the running game as it was. *)
Theorem pause_freezes_the_game (gm : Main.Game.t Q) (g : R) :
  Main.Game.currentState gm = Main.Game.PLAYING ->
  Main.Game.gamePaused gm = false ->
  let paused := Main.Game.togglePause gm in
  (forall dt, Main.Game.update dt (paused, g) = (paused, g)) /\
  (forall key action, Main.Game.handleInput key action paused = paused) /\
  Main.Game.togglePause paused = gm.
Proof.
  intros Hst Hp. cbv zeta.
  assert (E : Main.Game.togglePause gm
              = Main.Game.set_gamePaused
                  (Main.Game.set_currentState gm Main.Game.PAUSED) true)
    by (unfold Main.Game.togglePause; rewrite Hst; reflexivity).
  rewrite E. split; [|split].
  - intros dt. unfold Main.Game.update. game_simpl. reflexivity.
  - intros key action. unfold Main.Game.handleInput. game_simpl. reflexivity.
  - unfold Main.Game.togglePause. game_simpl. destruct gm. game_simpl.
    subst. reflexivity.
Qed.

(** X24.  The camera follows without overshoot.  For a frame time
    between 0 and 0.2, every coordinate of the new camera target lies
    between the old target and the ball; the camera itself is placed 4
    above the new target. *)
Theorem camera_follows_the_ball (dt : Q) (gm : Main.Game.t Q) :
  (0 <= dt <= 1 # 5)%Q ->
  let gm' := Main.Game.updateCamera dt gm in
  let between a b c := ((a <= b <= c) \/ (c <= b <= a))%Q in
  between (Main.Vec3.x (Main.Game.cameraTarget gm)) (Main.Vec3.x (Main.Game.cameraTarget gm'))
          (Main.Vec3.x (Main.MetaBall.position (Main.Game.player gm))) /\
  between (Main.Vec3.y (Main.Game.cameraTarget gm)) (Main.Vec3.y (Main.Game.cameraTarget gm'))
          (Main.Vec3.y (Main.MetaBall.position (Main.Game.player gm))) /\
  between (Main.Vec3.z (Main.Game.cameraTarget gm)) (Main.Vec3.z (Main.Game.cameraTarget gm'))
          (Main.Vec3.z (Main.MetaBall.position (Main.Game.player gm))) /\
  (Main.Vec3.y (Main.Game.cameraPosition gm')
   == Main.Vec3.y (Main.Game.cameraTarget gm') + 4)%Q.
Proof.
  intros Hdt. cbv zeta. unfold Main.Game.updateCamera. cbv zeta. game_simpl.
  destruct (Main.Game.cameraTarget gm) as [tx ty tz].
  destruct (Main.MetaBall.position (Main.Game.player gm)) as [px py pz].
  unfold Main.Vec3.lerp, Main.Vec3.add, Main.Vec3.mul.
  cbn [Main.Vec3.x Main.Vec3.y Main.Vec3.z fadd fsub fmul flit QF Q_ops].
  assert (B : forall a b : Q,
             ((a <= a * (1 - dt * 5) + b * (dt * 5) <= b)
              \/ (b <= a * (1 - dt * 5) + b * (dt * 5) <= a))%Q).
  { intros a b. destruct (Qlt_le_dec a b) as [H | H]; [left | right]; split; nra. }
  split; [apply B | split; [apply B | split; [apply B | reflexivity]]].
Qed.


(** *** Centring the camera *)

Lemma glm_min_le (a b : Q) :
  (Viewport.glm_min a b <= a)%Q /\ (Viewport.glm_min a b <= b)%Q.
Proof.
  unfold Viewport.glm_min. cbn [flt QF Q_ops]. case_if; qcmp; split; lra.
Qed.

Lemma glm_max_ge (a b : Q) :
  (a <= Viewport.glm_max a b)%Q /\ (b <= Viewport.glm_max a b)%Q.
Proof.
  unfold Viewport.glm_max. cbn [flt QF Q_ops]. case_if; qcmp; split; lra.
Qed.

(** the collective bounding box of [centerAllModels] contains the box of
    every object, and shrinks no bound it starts from *)
Lemma collective_box (objects : list (Viewport.GameObject Q)) :
  forall acc : Viewport.vec3 Q * Viewport.vec3 Q,
    let r := fold_left
               (fun '(bmin, bmax) obj =>
                  let objMin := Viewport.vec3_add (Viewport.bboxMin obj)
                                                  (Viewport.position obj) in
                  let objMax := Viewport.vec3_add (Viewport.bboxMax obj)
                                                  (Viewport.position obj) in
                  (Viewport.mkvec3
                     (Viewport.glm_min (Viewport.x bmin) (Viewport.x objMin))
                     (Viewport.glm_min (Viewport.y bmin) (Viewport.y objMin))
                     (Viewport.glm_min (Viewport.z bmin) (Viewport.z objMin)),
                   Viewport.mkvec3
                     (Viewport.glm_max (Viewport.x bmax) (Viewport.x objMax))
                     (Viewport.glm_max (Viewport.y bmax) (Viewport.y objMax))
                     (Viewport.glm_max (Viewport.z bmax) (Viewport.z objMax))))
               objects acc in
    ((Viewport.x (fst r) <= Viewport.x (fst acc) /\
      Viewport.y (fst r) <= Viewport.y (fst acc) /\
      Viewport.z (fst r) <= Viewport.z (fst acc) /\
      Viewport.x (snd acc) <= Viewport.x (snd r) /\
      Viewport.y (snd acc) <= Viewport.y (snd r) /\
      Viewport.z (snd acc) <= Viewport.z (snd r))%Q) /\
    Forall (fun obj =>
              (Viewport.x (fst r) <= Viewport.x (Viewport.bboxMin obj)
                                     + Viewport.x (Viewport.position obj) /\
               Viewport.y (fst r) <= Viewport.y (Viewport.bboxMin obj)
                                     + Viewport.y (Viewport.position obj) /\
               Viewport.z (fst r) <= Viewport.z (Viewport.bboxMin obj)
                                     + Viewport.z (Viewport.position obj) /\
               Viewport.x (Viewport.bboxMax obj) + Viewport.x (Viewport.position obj)
               <= Viewport.x (snd r) /\
               Viewport.y (Viewport.bboxMax obj) + Viewport.y (Viewport.position obj)
               <= Viewport.y (snd r) /\
               Viewport.z (Viewport.bboxMax obj) + Viewport.z (Viewport.position obj)
               <= Viewport.z (snd r))%Q) objects.
Proof.
  induction objects as [|obj rest IH]; intros [bmin bmax]; cbv zeta; cbn [fold_left].
  - cbn [fst snd]. split; [repeat split; apply Qle_refl | constructor].
  - match goal with
    | |- context [fold_left ?f rest ?a] => specialize (IH a); cbv zeta in IH;
        set (r := fold_left f rest a) in *
    end.
    clearbody r. destruct IH as [(A1 & A2 & A3 & A4 & A5 & A6) IH].
    cbn [fst snd Viewport.x Viewport.y Viewport.z Viewport.vec3_add
         fadd QF Q_ops] in A1, A2, A3, A4, A5, A6.
    pose proof (glm_min_le (Viewport.x bmin)
                  (Viewport.x (Viewport.bboxMin obj) + Viewport.x (Viewport.position obj))).
    pose proof (glm_min_le (Viewport.y bmin)
                  (Viewport.y (Viewport.bboxMin obj) + Viewport.y (Viewport.position obj))).
    pose proof (glm_min_le (Viewport.z bmin)
                  (Viewport.z (Viewport.bboxMin obj) + Viewport.z (Viewport.position obj))).
    pose proof (glm_max_ge (Viewport.x bmax)
                  (Viewport.x (Viewport.bboxMax obj) + Viewport.x (Viewport.position obj))).
    pose proof (glm_max_ge (Viewport.y bmax)
                  (Viewport.y (Viewport.bboxMax obj) + Viewport.y (Viewport.position obj))).
    pose proof (glm_max_ge (Viewport.z bmax)
                  (Viewport.z (Viewport.bboxMax obj) + Viewport.z (Viewport.position obj))).
    cbn [fst snd]. split; [repeat split; lra|].
    constructor; [repeat split; lra | exact IH].
Qed.


(** X25.  Centring frames the whole scene.  After [centerAllModels],
    along each axis the box of every object of the scene, moved to its
    position, lies within a quarter of the camera distance from the
    camera target; the distance is at least 5 when there is an object,
    and an empty scene leaves the camera as it is. *)
Theorem centerAllModels_frames_the_scene
        (objects : list (Viewport.GameObject Q)) (c : Viewport.camera Q) :
  let c' := Viewport.centerAllModels objects c in
  let t := Viewport.cameraTarget c' in
  let q := ((1 # 4) * Viewport.cameraDistance c')%Q in
  Forall (fun obj =>
            (Viewport.x t - q <= Viewport.x (Viewport.bboxMin obj)
                                 + Viewport.x (Viewport.position obj) /\
             Viewport.y t - q <= Viewport.y (Viewport.bboxMin obj)
                                 + Viewport.y (Viewport.position obj) /\
             Viewport.z t - q <= Viewport.z (Viewport.bboxMin obj)
                                 + Viewport.z (Viewport.position obj) /\
             Viewport.x (Viewport.bboxMax obj) + Viewport.x (Viewport.position obj)
             <= Viewport.x t + q /\
             Viewport.y (Viewport.bboxMax obj) + Viewport.y (Viewport.position obj)
             <= Viewport.y t + q /\
             Viewport.z (Viewport.bboxMax obj) + Viewport.z (Viewport.position obj)
             <= Viewport.z t + q)%Q) objects /\
  (objects <> [] -> (5 <= Viewport.cameraDistance c')%Q) /\
  (objects = [] -> c' = c).
Proof.
  cbv zeta. destruct objects as [|o rest].
  - split; [constructor|]. split; [intros H; now destruct H | reflexivity].
  - unfold Viewport.centerAllModels.
    match goal with
    | |- context [fold_left ?f (o :: rest) ?a] =>
        pose proof (collective_box (o :: rest) a) as H; cbv zeta in H;
        change (fold_left _ (o :: rest) a) with (fold_left f (o :: rest) a) in H;
        revert H; generalize (fold_left f (o :: rest) a)
    end.
    intros [[ax ay az] [bx by_ bz]] [_ H]. cam_simpl.
    cbn [fst snd Viewport.x Viewport.y Viewport.z Viewport.vec3_add Viewport.vec3_sub
         Viewport.vec3_mul fadd fsub fmul flit QF Q_ops] in *.
    pose proof (glm_max_ge (Viewport.glm_max (bx - ax)%Q (by_ - ay)%Q) (bz - az)%Q)
      as [M1 M2].
    pose proof (glm_max_ge (bx - ax)%Q (by_ - ay)%Q) as [M3 M4].
    revert M1 M2.
    generalize (Viewport.glm_max (Viewport.glm_max (bx - ax)%Q (by_ - ay)%Q) (bz - az)%Q).
    intros m M1 M2.
    pose proof (glm_max_ge 5%Q (m * 2)%Q) as [D1 D2]. revert D1 D2.
    generalize (Viewport.glm_max 5%Q (m * 2)%Q). intros d D1 D2.
    split; [|split; [intros _; exact D1 | discriminate]].
    eapply Forall_impl; [|exact H]. cbn beta.
    intros obj (B1 & B2 & B3 & B4 & B5 & B6). repeat split; lra.
Qed.


(** X26.  The frame update of the camera is idempotent: a second
    [updateCamera] changes nothing, so the limits it enforces hold from
    one frame to the next without drift. *)
Theorem updateCamera_is_idempotent (c : Viewport.camera Q) :
  Viewport.updateCamera (Viewport.updateCamera c) = Viewport.updateCamera c.
Proof.
  destruct c as [d yaw pitch t m drag b h].
  unfold Viewport.updateCamera. cbv zeta. cam_simpl.
  assert (HM : (0 < Viewport.pi / 2 - (1 # 100))%Q) by reflexivity.
  revert HM. generalize (Viewport.pi / 2 - (1 # 100))%Q. intros M HM.
  repeat (case_if; cam_simpl); qcmp; try reflexivity; exfalso; lra.
Qed.

End Exact.

(** ** Concrete runs *)

Section Runs.
#[local] Existing Instance Q_eval.
#[local] Existing Instance F32_eval.
#[local] Existing Instance fixed_draws.

(** what one step of 0.01 s does on [sunk_game]: the ball is put on the
    road and stopped *)
Lemma sunk_game_update :
  let pl' := Main.Game.player (fst (Main.Game.update (1 # 100)%Q (sunk_game, tt))) in
  (Main.Vec3.y (Main.MetaBall.position pl') == 6 # 10)%Q /\
  (Main.Vec3.y (Main.MetaBall.velocity pl') == 0)%Q.
Proof.
  cbv zeta. split; apply Qeq_bool_iff; vm_compute; reflexivity.
Qed.

(** the same step on binary32: [position.y] is the float next to 0.6,
    [velocity.y] is +0 *)
Lemma sunk_game_update_binary32 :
  let pl' := Main.Game.player (fst (Main.Game.update (f32_lit (1 # 100)) (sunk_game, tt))) in
  Main.Vec3.y (Main.MetaBall.position pl') = S754_finite false 10066330 (-24) /\
  Main.Vec3.y (Main.MetaBall.velocity pl') = S754_zero false.
Proof. cbv zeta. split; vm_compute; reflexivity. Qed.



(** The first column of [ramp] is at [x = -50]; at [x = -50.5], half a
    cell outside the grid, [getHeight] does not answer 0 but extends the
    slope of the first cell. *)
Lemma getHeight_left_of_grid_exact :
  (Main.Terrain.getHeight ramp (-101 # 2)%Q 0%Q == - (1 # 2))%Q.
Proof. apply Qeq_bool_iff. vm_compute. reflexivity. Qed.

(** C2.  [Terrain::getHeight] half a cell left of the grid, in exact
    arithmetic and on binary32: the answer is -0.5, where the claim has
    0.  The conversion to [int] truncates [-0.5] to the column 0, which
    passes the bounds test, and [fmod] gives the negative ratio -0.5. *)
Theorem getHeight_left_of_grid :
  (Main.Terrain.getHeight ramp (-101 # 2)%Q 0%Q == - (1 # 2))%Q /\
  Main.Terrain.getHeight ramp (f32_lit (-101 # 2)) (f32_of_Z 0)
    = SFopp (f32_lit (1 # 2)).
Proof.
  split; [exact getHeight_left_of_grid_exact|].
  vm_compute. reflexivity.
Qed.
End Runs.

(** ** The OBJ import *)

Section ObjImport.
Context {F : Type} {FO : FloatOps F}.
Variable scan_float : string -> option (F * string).
Variable indeterminate : F.

#[local] Abbreviation loadOBJ := (ObjModel.OBJLoader.loadOBJ scan_float indeterminate).
#[local] Abbreviation parseLine := (ObjModel.OBJLoader.parseLine scan_float indeterminate).
#[local] Abbreviation parseLines := (ObjModel.OBJLoader.parseLines scan_float indeterminate).

(** a line that is not a face adds no vertex, and cannot fail *)
Lemma parseLine_not_face (p : ObjModel.OBJLoader.parsed) (line : string) :
  is_face_line line = false ->
  exists p', parseLine p line = Ok p' /\
             ObjModel.OBJLoader.vertices p' = ObjModel.OBJLoader.vertices p.
Proof.
  unfold is_face_line, line_prefix, ObjModel.OBJLoader.parseLine. intros Hf.
  destruct (read_word (istringstream line)) as [prefix iss]. cbn [fst] in Hf.
  destruct (String.eqb prefix "v").
  { repeat match goal with
           | |- context [ObjModel.OBJLoader.read_float ?s ?o ?i] =>
               destruct (ObjModel.OBJLoader.read_float s o i)
           end.
    eexists. split; reflexivity. }
  destruct (String.eqb prefix "vn").
  { repeat match goal with
           | |- context [ObjModel.OBJLoader.read_float ?s ?o ?i] =>
               destruct (ObjModel.OBJLoader.read_float s o i)
           end.
    eexists. split; reflexivity. }
  destruct (String.eqb prefix "vt").
  { repeat match goal with
           | |- context [ObjModel.OBJLoader.read_float ?s ?o ?i] =>
               destruct (ObjModel.OBJLoader.read_float s o i)
           end.
    eexists. split; reflexivity. }
  rewrite Hf. eexists. split; reflexivity.
Qed.

Lemma parseLines_no_face (ls : list string) :
  forall p : ObjModel.OBJLoader.parsed,
    existsb is_face_line ls = false ->
    exists p', parseLines p ls = Ok p' /\
               ObjModel.OBJLoader.vertices p' = ObjModel.OBJLoader.vertices p.
Proof.
  induction ls as [|line rest IH]; intros p Hno; cbn [ObjModel.OBJLoader.parseLines].
  - eexists. split; reflexivity.
  - cbn [existsb] in Hno. apply orb_false_iff in Hno. destruct Hno as [Hl Hrest].
    destruct (parseLine_not_face p line Hl) as (p1 & E1 & V1).
    rewrite E1. cbn [bind].
    destruct (IH p1 Hrest) as (p2 & E2 & V2).
    exists p2. split; [exact E2 | congruence].
Qed.


(** with no position parsed, a face cannot be read: [std::stoi] raises
    or [positions[posIdx]] is read outside the empty vector *)
Lemma parseVertex_no_position (p : ObjModel.OBJLoader.parsed) (vertexStr : string) :
  ObjModel.OBJLoader.positions p = [] ->
  ObjModel.OBJLoader.parseVertex p vertexStr = Throw \/
  ObjModel.OBJLoader.parseVertex p vertexStr = Undefined.
Proof.
  intros Hp. unfold ObjModel.OBJLoader.parseVertex.
  repeat match goal with
         | |- context [getline_delim ?d ?s] => destruct (getline_delim d s)
         end.
  unfold ObjModel.OBJLoader.stoi_minus_1.
  destruct (stoi _); cbn [bind]; [|now left].
  destruct (is_empty _); [|destruct (stoi _)]; cbn [bind]; try (now left).
  all: destruct (is_empty _); [|destruct (stoi _)]; cbn [bind]; try (now left).
  all: rewrite Hp; unfold ObjModel.OBJLoader.unchecked; cbn [List.length Z.of_nat];
    match goal with
    | |- context [(0 <=? ?i) && (?i <? 0)] =>
        replace ((0 <=? i) && (i <? 0)) with false
          by (symmetry; apply andb_false_iff; destruct (Z.ltb_spec i 0); [left; apply Z.leb_gt; lia | now right])
    end; cbn [bind]; now right.
Qed.

Lemma is_face_line_prefix (line : string) :
  is_face_line line = true -> line_prefix line = "f"%string.
Proof. unfold is_face_line. apply String.eqb_eq. Qed.

Lemma parseLine_face_no_position (p : ObjModel.OBJLoader.parsed) (line : string) :
  ObjModel.OBJLoader.positions p = [] ->
  is_face_line line = true ->
  parseLine p line = Throw \/ parseLine p line = Undefined.
Proof.
  intros Hp Hf. apply is_face_line_prefix in Hf.
  unfold line_prefix in Hf. unfold ObjModel.OBJLoader.parseLine.
  destruct (read_word (istringstream line)) as [prefix iss]. cbn [fst] in Hf. subst prefix.
  cbn [String.eqb Ascii.eqb Bool.eqb andb].
  repeat match goal with
         | |- context [read_word ?s] => destruct (read_word s)
         end.
  match goal with
  | |- context [ObjModel.OBJLoader.parseVertex p ?v] =>
      destruct (parseVertex_no_position p v Hp) as [E|E]; rewrite E; cbn [bind]; auto
  end.
Qed.

Lemma parseLine_keeps_positions (p : ObjModel.OBJLoader.parsed) (line : string) :
  is_position_line line = false ->
  is_face_line line = false ->
  exists p', parseLine p line = Ok p' /\
             ObjModel.OBJLoader.positions p' = ObjModel.OBJLoader.positions p.
Proof.
  unfold is_position_line, is_face_line, line_prefix, ObjModel.OBJLoader.parseLine.
  intros Hv Hf.
  destruct (read_word (istringstream line)) as [prefix iss]. cbn [fst] in Hv, Hf.
  rewrite Hv.
  destruct (String.eqb prefix "vn").
  { repeat match goal with
           | |- context [ObjModel.OBJLoader.read_float ?s ?o ?i] =>
               destruct (ObjModel.OBJLoader.read_float s o i)
           end.
    eexists. split; reflexivity. }
  destruct (String.eqb prefix "vt").
  { repeat match goal with
           | |- context [ObjModel.OBJLoader.read_float ?s ?o ?i] =>
               destruct (ObjModel.OBJLoader.read_float s o i)
           end.
    eexists. split; reflexivity. }
  rewrite Hf. eexists. split; reflexivity.
Qed.

Lemma parseLines_face_no_position (ls : list string) :
  forall p : ObjModel.OBJLoader.parsed,
    ObjModel.OBJLoader.positions p = [] ->
    existsb is_position_line ls = false ->
    existsb is_face_line ls = true ->
    parseLines p ls = Throw \/ parseLines p ls = Undefined.
Proof.
  induction ls as [|line rest IH]; intros p Hp Hv Hf; cbn [existsb] in *.
  - discriminate Hf.
  - apply orb_false_iff in Hv. destruct Hv as [Hv Hvs].
    cbn [ObjModel.OBJLoader.parseLines].
    destruct (is_face_line line) eqn:El.
    + destruct (parseLine_face_no_position p line Hp El) as [E|E];
        rewrite E; cbn [bind]; auto.
    + cbn [orb] in Hf.
      destruct (parseLine_keeps_positions p line Hv El) as (p1 & E1 & P1).
      rewrite E1. cbn [bind]. apply IH; [congruence | assumption | assumption].
Qed.

(** What the unchecked read does to the second half of the claim: a
    file with a face and no [v] line never makes [loadOBJ] return. *)
Lemma loadOBJ_face_without_position
      (fs : filesystem) (filepath : string) (mesh : ObjModel.Mesh.t F) (content : string) :
  fs filepath = Some content ->
  existsb is_position_line (file_lines content) = false ->
  existsb is_face_line (file_lines content) = true ->
  loadOBJ fs filepath mesh = Throw \/ loadOBJ fs filepath mesh = Undefined.
Proof.
  intros E Hv Hf. unfold ObjModel.OBJLoader.loadOBJ. rewrite E.
  destruct (parseLines_face_no_position (file_lines content)
              (ObjModel.OBJLoader.mkp [] [] [] [] []) eq_refl Hv Hf) as [H|H];
    rewrite H; cbn [bind]; auto.
Qed.

(** *** What a successful import returns *)

Lemma triangle_list_grow (n m : nat) (ids : list Z) :
  (n <= m)%nat -> Forall (fun i => 0 <= i < Z.of_nat n) ids ->
  Forall (fun i => 0 <= i < Z.of_nat m) ids.
Proof.
  intros Hnm H. eapply Forall_impl; [|exact H]. cbn beta. intros i Hi. lia.
Qed.

(** the indices that a face adds: one triangle over three new vertices,
    or two over four *)
Lemma triangle_list_face3 (n : nat) (ids : list Z) :
  triangle_list n ids ->
  triangle_list (S (S (S n)))
    (push_back (push_back (push_back ids (Z.of_nat n)) (Z.of_nat n + 1)) (Z.of_nat n + 2)).
Proof.
  intros [Hm Hr]. split.
  - rewrite !length_push_back, !Nat2Z.inj_succ, <- !Z.add_1_r.
    replace (Z.of_nat (List.length ids) + 1 + 1 + 1)
      with (Z.of_nat (List.length ids) + 1 * 3) by lia.
    rewrite Z.mod_add by lia. exact Hm.
  - repeat apply Forall_push_back; try lia.
    apply (triangle_list_grow n); [lia | exact Hr].
Qed.

Lemma triangle_list_face4 (n : nat) (ids : list Z) :
  triangle_list n ids ->
  triangle_list (S (S (S (S n))))
    (push_back
       (push_back
          (push_back
             (push_back (push_back (push_back ids (Z.of_nat n)) (Z.of_nat n + 1))
                        (Z.of_nat n + 2))
             (Z.of_nat n)) (Z.of_nat n + 2)) (Z.of_nat n + 3)).
Proof.
  intros H. pose proof (triangle_list_face3 n ids H) as [Hm3 Hr3]. destruct H as [_ Hr].
  split.
  - rewrite (length_push_back (push_back (push_back _ _) _)).
    rewrite (length_push_back (push_back _ _)). rewrite (length_push_back _ (Z.of_nat n)).
    rewrite !Nat2Z.inj_succ, <- !Z.add_1_r.
    match goal with
    | |- (?a + 1 + 1 + 1) mod 3 = 0 => replace (a + 1 + 1 + 1) with (a + 1 * 3) by lia
    end.
    rewrite Z.mod_add by lia. exact Hm3.
  - repeat apply Forall_push_back; try lia.
    apply (triangle_list_grow n); [lia | exact Hr].
Qed.

(** a line keeps the indices a triangle list over the vertices *)
Lemma parseLine_triangle_list (p p' : ObjModel.OBJLoader.parsed) (line : string) :
  parseLine p line = Ok p' ->
  triangle_list (List.length (ObjModel.OBJLoader.vertices p)) (ObjModel.OBJLoader.indices p) ->
  triangle_list (List.length (ObjModel.OBJLoader.vertices p')) (ObjModel.OBJLoader.indices p').
Proof.
  unfold ObjModel.OBJLoader.parseLine.
  destruct (read_word (istringstream line)) as [prefix iss].
  destruct (String.eqb prefix "v").
  { repeat match goal with
           | |- context [ObjModel.OBJLoader.read_float ?s ?o ?i] =>
               destruct (ObjModel.OBJLoader.read_float s o i)
           end.
    intros H; inversion H; subst; clear H. auto. }
  destruct (String.eqb prefix "vn").
  { repeat match goal with
           | |- context [ObjModel.OBJLoader.read_float ?s ?o ?i] =>
               destruct (ObjModel.OBJLoader.read_float s o i)
           end.
    intros H; inversion H; subst; clear H. auto. }
  destruct (String.eqb prefix "vt").
  { repeat match goal with
           | |- context [ObjModel.OBJLoader.read_float ?s ?o ?i] =>
               destruct (ObjModel.OBJLoader.read_float s o i)
           end.
    intros H; inversion H; subst; clear H. auto. }
  destruct (String.eqb prefix "f"); [|intros H; inversion H; subst; auto].
  repeat match goal with
         | |- context [read_word ?s] =>
             let w := fresh "w" in let s' := fresh "s" in destruct (read_word s) as [w s']
         end.
  repeat match goal with
         | |- context [ObjModel.OBJLoader.parseVertex p ?v] =>
             destruct (ObjModel.OBJLoader.parseVertex p v); cbn [bind]; try discriminate
         end.
  all: intros H Ht;
    pose proof (triangle_list_face3 _ _ Ht) as T3;
    pose proof (triangle_list_face4 _ _ Ht) as T4.
  all: repeat match type of H with
              | context [if ?c then _ else _] => destruct c
              end;
    cbn [bind] in H; try discriminate; inversion H; subst; clear H;
    cbn [ObjModel.OBJLoader.vertices ObjModel.OBJLoader.indices];
    rewrite !length_push_back; assumption.
Qed.

Lemma parseLines_triangle_list (ls : list string) :
  forall p p' : ObjModel.OBJLoader.parsed,
    parseLines p ls = Ok p' ->
    triangle_list (List.length (ObjModel.OBJLoader.vertices p))
                  (ObjModel.OBJLoader.indices p) ->
    triangle_list (List.length (ObjModel.OBJLoader.vertices p'))
                  (ObjModel.OBJLoader.indices p').
Proof.
  induction ls as [|line rest IH]; intros p p' H Hp; cbn [ObjModel.OBJLoader.parseLines] in H.
  - inversion H; subst. exact Hp.
  - destruct (parseLine p line) as [p1| |] eqn:E1; cbn [bind] in H; try discriminate.
    apply (IH p1 p' H). exact (parseLine_triangle_list p p1 line E1 Hp).
Qed.

Lemma length_add_normal (vs : list (ObjModel.Vertex.t F)) (i : Z) (n : ObjModel.Vec3.t F) :
  List.length (ObjModel.OBJLoader.add_normal vs i n) = List.length vs.
Proof. unfold ObjModel.OBJLoader.add_normal. apply length_arr_set. Qed.

Lemma length_accumulateNormals (ids : list Z) :
  forall vs : list (ObjModel.Vertex.t F),
    List.length (ObjModel.OBJLoader.accumulateNormals vs ids) = List.length vs.
Proof.
  assert (H : forall (n : nat) (ids : list Z) (vs : list (ObjModel.Vertex.t F)),
             (List.length ids <= n)%nat ->
             List.length (ObjModel.OBJLoader.accumulateNormals vs ids) = List.length vs).
  { induction n as [|n IH]; intros l vs Hl.
    - destruct l; [reflexivity | cbn [List.length] in Hl; lia].
    - destruct l as [|i1 [|i2 [|i3 rest]]]; try reflexivity.
      cbn [ObjModel.OBJLoader.accumulateNormals]. cbv zeta.
      rewrite IH by (cbn [List.length] in Hl; lia).
      now rewrite !length_add_normal. }
  intros vs. now apply (H (List.length ids)).
Qed.

Lemma length_calculateNormals (vs : list (ObjModel.Vertex.t F)) (ids : list Z) :
  List.length (ObjModel.OBJLoader.calculateNormals vs ids) = List.length vs.
Proof.
  unfold ObjModel.OBJLoader.calculateNormals. cbv zeta.
  now rewrite length_map, length_accumulateNormals, length_map.
Qed.

(** X27.  What a successful import returns.  When [loadOBJ] returns
    success, the mesh has at least one vertex, its indices come three by
    three and each one names a vertex of the mesh, and the colour and the
    buffer names of the mesh are the ones it had. *)
Theorem loadOBJ_success_is_well_indexed
        (fs : filesystem) (filepath : string) (mesh mesh' : ObjModel.Mesh.t F) :
  loadOBJ fs filepath mesh = Ok (true, mesh') ->
  ObjModel.Mesh.vertices mesh' <> [] /\
  triangle_list (List.length (ObjModel.Mesh.vertices mesh')) (ObjModel.Mesh.indices mesh') /\
  ObjModel.Mesh.color mesh' = ObjModel.Mesh.color mesh /\
  ObjModel.Mesh.VAO mesh' = ObjModel.Mesh.VAO mesh /\
  ObjModel.Mesh.VBO mesh' = ObjModel.Mesh.VBO mesh /\
  ObjModel.Mesh.EBO mesh' = ObjModel.Mesh.EBO mesh.
Proof.
  unfold ObjModel.OBJLoader.loadOBJ.
  destruct (fs filepath) as [content|]; [|discriminate].
  destruct (parseLines _ _) as [p| |] eqn:Ep; cbn [bind]; try discriminate.
  pose proof (parseLines_triangle_list _ _ _ Ep) as Ht.
  cbn [ObjModel.OBJLoader.vertices ObjModel.OBJLoader.indices List.length] in Ht.
  specialize (Ht (conj eq_refl (Forall_nil _))).
  destruct (ObjModel.OBJLoader.vertices p) as [|v vs] eqn:Ev; [discriminate|].
  intros H. inversion H; subst; clear H.
  cbn [ObjModel.Mesh.vertices ObjModel.Mesh.indices ObjModel.Mesh.color ObjModel.Mesh.VAO
       ObjModel.Mesh.VBO ObjModel.Mesh.EBO ObjModel.Mesh.set_vertices
       ObjModel.Mesh.set_indices].
  destruct (ObjModel.OBJLoader.normals p).
  - rewrite length_calculateNormals. repeat split; try apply Ht.
    intros E. apply (f_equal (@List.length _)) in E.
    rewrite length_calculateNormals in E. discriminate E.
  - repeat split; try apply Ht. discriminate.
Qed.


(** *** Normals and positions *)

Lemma map_arr_set_nat {A B : Type} (f : A -> B) (d : A) (a : list A) (i : nat) (v : A) :
  f v = f (nth i a d) -> map f (arr_set_nat a i v) = map f a.
Proof.
  revert i. induction a as [|h a IH]; intros [|i] H; cbn [arr_set_nat map nth] in *.
  - reflexivity.
  - reflexivity.
  - now rewrite H.
  - now rewrite IH.
Qed.

(** [add_normal] writes to the normal of one vertex *)
Lemma map_add_normal {B : Type} (f : ObjModel.Vertex.t F -> B)
      (vs : list (ObjModel.Vertex.t F)) (i : Z) (n : ObjModel.Vec3.t F) :
  (forall v m, f (ObjModel.Vertex.set_normal v m) = f v) ->
  map f (ObjModel.OBJLoader.add_normal vs i n) = map f vs.
Proof.
  intros Hf. unfold ObjModel.OBJLoader.add_normal, ObjModel.OBJLoader.vertex_at,
               arr_set, arr_get.
  destruct (i <? 0); [reflexivity|].
  apply map_arr_set_nat with (d := ObjModel.Vertex.mk
                                     (ObjModel.Vec3.mk (of_int 0) (of_int 0) (of_int 0))
                                     (ObjModel.Vec3.mk (of_int 0) (of_int 0) (of_int 0))
                                     (ObjModel.Vec2.mk (of_int 0) (of_int 0))
                                     (ObjModel.Vec3.mk (of_int 1) (of_int 1) (of_int 1))).
  apply Hf.
Qed.

Lemma map_accumulateNormals {B : Type} (f : ObjModel.Vertex.t F -> B) (ids : list Z) :
  (forall v m, f (ObjModel.Vertex.set_normal v m) = f v) ->
  forall vs : list (ObjModel.Vertex.t F),
    map f (ObjModel.OBJLoader.accumulateNormals vs ids) = map f vs.
Proof.
  intros Hf.
  assert (H : forall (n : nat) (ids : list Z) (vs : list (ObjModel.Vertex.t F)),
             (List.length ids <= n)%nat ->
             map f (ObjModel.OBJLoader.accumulateNormals vs ids) = map f vs).
  { induction n as [|n IH]; intros l vs Hl.
    - destruct l; [reflexivity | cbn [List.length] in Hl; lia].
    - destruct l as [|i1 [|i2 [|i3 rest]]]; try reflexivity.
      cbn [ObjModel.OBJLoader.accumulateNormals]. cbv zeta.
      rewrite IH by (cbn [List.length] in Hl; lia).
      now rewrite !map_add_normal. }
  intros vs. now apply (H (List.length ids)).
Qed.

Lemma map_calculateNormals {B : Type} (f : ObjModel.Vertex.t F -> B)
      (vs : list (ObjModel.Vertex.t F)) (ids : list Z) :
  (forall v m, f (ObjModel.Vertex.set_normal v m) = f v) ->
  map f (ObjModel.OBJLoader.calculateNormals vs ids) = map f vs.
Proof.
  intros Hf. unfold ObjModel.OBJLoader.calculateNormals. cbv zeta.
  rewrite map_map.
  rewrite (map_ext _ f) by (intros v; apply Hf).
  rewrite map_accumulateNormals by exact Hf.
  rewrite map_map. apply map_ext. intros v. apply Hf.
Qed.


(** a vertex that [parseVertex] builds has one of the positions read so far *)
Lemma parseVertex_position (p : ObjModel.OBJLoader.parsed) (vertexStr : string)
      (v : ObjModel.Vertex.t F) :
  ObjModel.OBJLoader.parseVertex p vertexStr = Ok v ->
  In (ObjModel.Vertex.position v) (ObjModel.OBJLoader.positions p).
Proof.
  unfold ObjModel.OBJLoader.parseVertex.
  repeat match goal with
         | |- context [getline_delim ?d ?s] => destruct (getline_delim d s)
         end.
  destruct (ObjModel.OBJLoader.stoi_minus_1 _) as [posIdx| |]; cbn [bind]; try discriminate.
  match goal with
  | |- context [bind ?r _] => destruct r as [texIdx| |]; cbn [bind]; try discriminate
  end.
  match goal with
  | |- context [bind ?r _] => destruct r as [normIdx| |]; cbn [bind]; try discriminate
  end.
  unfold ObjModel.OBJLoader.unchecked.
  destruct ((0 <=? posIdx) && (posIdx <? _)); cbn [bind]; try discriminate.
  destruct (nth_error _ _) as [pos|] eqn:En; cbn [bind]; try discriminate.
  intros H. inversion H; subst; clear H. cbn [ObjModel.Vertex.position].
  eapply nth_error_In. exact En.
Qed.

Lemma parseLine_positions (p p' : ObjModel.OBJLoader.parsed) (line : string) :
  parseLine p line = Ok p' ->
  Forall (fun v => In (ObjModel.Vertex.position v) (ObjModel.OBJLoader.positions p))
         (ObjModel.OBJLoader.vertices p) ->
  Forall (fun v => In (ObjModel.Vertex.position v) (ObjModel.OBJLoader.positions p'))
         (ObjModel.OBJLoader.vertices p').
Proof.
  unfold ObjModel.OBJLoader.parseLine.
  destruct (read_word (istringstream line)) as [prefix iss].
  destruct (String.eqb prefix "v").
  { repeat match goal with
           | |- context [ObjModel.OBJLoader.read_float ?s ?o ?i] =>
               destruct (ObjModel.OBJLoader.read_float s o i)
           end.
    intros H; inversion H; subst; clear H.
    cbn [ObjModel.OBJLoader.vertices ObjModel.OBJLoader.positions].
    intros Hp. eapply Forall_impl; [|exact Hp]. cbn beta. intros v Hv.
    unfold push_back. apply in_or_app. now left. }
  destruct (String.eqb prefix "vn").
  { repeat match goal with
           | |- context [ObjModel.OBJLoader.read_float ?s ?o ?i] =>
               destruct (ObjModel.OBJLoader.read_float s o i)
           end.
    intros H; inversion H; subst; clear H. auto. }
  destruct (String.eqb prefix "vt").
  { repeat match goal with
           | |- context [ObjModel.OBJLoader.read_float ?s ?o ?i] =>
               destruct (ObjModel.OBJLoader.read_float s o i)
           end.
    intros H; inversion H; subst; clear H. auto. }
  destruct (String.eqb prefix "f"); [|intros H; inversion H; subst; auto].
  repeat match goal with
         | |- context [read_word ?s] =>
             let w := fresh "w" in let s' := fresh "s" in destruct (read_word s) as [w s']
         end.
  repeat match goal with
         | |- context [ObjModel.OBJLoader.parseVertex p ?v] =>
             let E := fresh "V" in
             destruct (ObjModel.OBJLoader.parseVertex p v) eqn:E; cbn [bind];
             try discriminate;
             try apply parseVertex_position in E
         end.
  all: intros H Hp.
  all: repeat match type of H with
              | context [if ?c then _ else _] => destruct c
              end;
    cbn [bind] in H; try discriminate; inversion H; subst; clear H;
    cbn [ObjModel.OBJLoader.vertices ObjModel.OBJLoader.positions];
    repeat apply Forall_push_back; assumption.
Qed.

Lemma parseLines_positions (ls : list string) :
  forall p p' : ObjModel.OBJLoader.parsed,
    parseLines p ls = Ok p' ->
    Forall (fun v => In (ObjModel.Vertex.position v) (ObjModel.OBJLoader.positions p))
           (ObjModel.OBJLoader.vertices p) ->
    Forall (fun v => In (ObjModel.Vertex.position v) (ObjModel.OBJLoader.positions p'))
           (ObjModel.OBJLoader.vertices p').
Proof.
  induction ls as [|line rest IH]; intros p p' H Hp; cbn [ObjModel.OBJLoader.parseLines] in H.
  - inversion H; subst. exact Hp.
  - destruct (parseLine p line) as [p1| |] eqn:E1; cbn [bind] in H; try discriminate.
    apply (IH p1 p' H). exact (parseLine_positions p p1 line E1 Hp).
Qed.



(** *** The fallback house *)

(** X30.  The house that replaces a missing model.  Its mesh has 44
    vertices and 20 triangles that only name vertices of the mesh; the
    quads of the door, of the two windows and of the floor each use the
    indices of the four vertices before their own, so that seven
    vertices are never drawn: 21, 22, 23 and the four vertices of the
    floor, 40 to 43. *)
Theorem house_never_draws_its_floor (mesh : ObjModel.Mesh.t F) :
  let house := ObjModel.generateSimpleHouse mesh in
  List.length (ObjModel.Mesh.vertices house) = 44%nat /\
  List.length (ObjModel.Mesh.indices house) = 60%nat /\
  triangle_list (List.length (ObjModel.Mesh.vertices house)) (ObjModel.Mesh.indices house) /\
  (forall i, In i [21; 22; 23; 40; 41; 42; 43] -> ~ In i (ObjModel.Mesh.indices house)) /\
  ObjModel.Mesh.VAO house = ObjModel.Mesh.VAO mesh /\
  ObjModel.Mesh.VBO house = ObjModel.Mesh.VBO mesh /\
  ObjModel.Mesh.EBO house = ObjModel.Mesh.EBO mesh.
Proof.
  cbv zeta.
  assert (Ei : ObjModel.Mesh.indices (ObjModel.generateSimpleHouse mesh)
               = [0; 1; 2; 2; 3; 0; 4; 5; 6; 6; 7; 4; 8; 9; 10; 10; 11; 8;
                  12; 13; 14; 14; 15; 12; 16; 17; 18; 19; 20; 18; 19; 16; 18; 20; 17; 18;
                  24; 25; 26; 26; 27; 24; 28; 29; 30; 30; 31; 28;
                  32; 33; 34; 34; 35; 32; 36; 37; 38; 38; 39; 36]) by reflexivity.
  assert (El : List.length (ObjModel.Mesh.vertices (ObjModel.generateSimpleHouse mesh))
               = 44%nat) by reflexivity.
  rewrite Ei, El. split; [reflexivity|]. split; [reflexivity|]. split; [|split].
  - split; [reflexivity|]. repeat constructor; lia.
  - intros i Hi Hin. cbn [In] in Hi, Hin.
    repeat (destruct Hi as [<- | Hi]; [repeat (destruct Hin as [Hin | Hin]; [discriminate|]);
                                       exact Hin |]).
    exact Hi.
  - repeat split.
Qed.

End ObjImport.

(** ** binary32: where a NaN can come from *)

Section Rounding.
Variables prec emax : Z.

Lemma shr_1_nonneg (mrs : shr_record) : 0 <= shr_m mrs -> 0 <= shr_m (shr_1 mrs).
Proof.
  destruct mrs as [m r s]. cbn [shr_m]. intros Hm.
  destruct m as [|p|p]; [cbn; lia | | lia].
  destruct p; cbn; lia.
Qed.

Lemma iter_shr_1_nonneg (p : positive) :
  forall mrs, 0 <= shr_m mrs -> 0 <= shr_m (iter_pos shr_1 p mrs).
Proof.
  induction p as [p IH | p IH |]; intros mrs Hm; cbn [iter_pos].
  - apply IH, IH, shr_1_nonneg, Hm.
  - apply IH, IH, Hm.
  - apply shr_1_nonneg, Hm.
Qed.

Lemma shr_m_of_loc (m : Z) (l : location) : shr_m (shr_record_of_loc m l) = m.
Proof. destruct l as [|[| |]]; reflexivity. Qed.

Lemma shr_fexp_nonneg (m e : Z) (l : location) :
  0 <= m -> 0 <= shr_m (fst (shr_fexp prec emax m e l)).
Proof.
  intros Hm. unfold shr_fexp, shr.
  destruct (fexp prec emax (Zdigits2 m + e) - e) as [|p|p]; cbn [fst].
  - now rewrite shr_m_of_loc.
  - apply iter_shr_1_nonneg. now rewrite shr_m_of_loc.
  - now rewrite shr_m_of_loc.
Qed.

Lemma round_nearest_even_nonneg (m : Z) (l : location) :
  0 <= m -> 0 <= round_nearest_even m l.
Proof.
  intros Hm. destruct l as [|[| |]]; cbn [round_nearest_even]; try lia.
  destruct (Z.even m); lia.
Qed.

(** rounding a mantissa that is not negative never makes a NaN, and
    keeps the sign it is given *)
Lemma binary_round_aux_sign (s : bool) (m e : Z) (l : location) :
  0 <= m ->
  match binary_round_aux prec emax s m e l with
  | S754_zero s' | S754_infinity s' | S754_finite s' _ _ => s' = s
  | S754_nan => False
  end.
Proof.
  intros Hm. unfold binary_round_aux.
  pose proof (shr_fexp_nonneg m e l Hm) as H1.
  destruct (shr_fexp prec emax m e l) as [mrs' e']. cbn [fst] in H1.
  pose proof (shr_fexp_nonneg (round_nearest_even (shr_m mrs') (loc_of_shr_record mrs'))
                e' loc_Exact (round_nearest_even_nonneg _ _ H1)) as H2.
  destruct (shr_fexp prec emax _ e' loc_Exact) as [mrs'' e'']. cbn [fst] in H2.
  destruct (shr_m mrs'') as [|p|p]; [reflexivity | | lia].
  destruct (e'' <=? emax - prec); reflexivity.
Qed.

Lemma binary_round_aux_not_nan (s : bool) (m e : Z) (l : location) :
  0 <= m -> is_nan (binary_round_aux prec emax s m e l) = false.
Proof.
  intros Hm. pose proof (binary_round_aux_sign s m e l Hm) as H.
  destruct (binary_round_aux prec emax s m e l); [reflexivity.. | contradiction | reflexivity].
Qed.

Lemma binary_round_aux_pos (m e : Z) (l : location) :
  0 <= m -> pos_or_zero (binary_round_aux prec emax false m e l) = true.
Proof.
  intros Hm. pose proof (binary_round_aux_sign false m e l Hm) as H.
  destruct (binary_round_aux prec emax false m e l); try contradiction; subst; reflexivity.
Qed.

Lemma SFmul_square_pos (a : spec_float) :
  is_finite a = true -> pos_or_zero (SFmul prec emax a a) = true.
Proof.
  destruct a as [s|s| |s m e]; cbn [is_finite]; try discriminate; intros _.
  - cbn. now destruct s.
  - cbn [SFmul]. replace (xorb s s) with false by now destruct s.
    apply binary_round_aux_pos. lia.
Qed.

Lemma SFadd_pos (a b : spec_float) :
  pos_or_zero a = true -> pos_or_zero b = true ->
  pos_or_zero (SFadd prec emax a b) = true.
Proof.
  destruct a as [[|]|[|]| |[|] ma ea]; cbn [pos_or_zero]; try discriminate; intros _;
  destruct b as [[|]|[|]| |[|] mb eb]; cbn [pos_or_zero]; try discriminate; intros _;
  try reflexivity.
  cbn [SFadd cond_Zopp]. unfold binary_normalize.
  destruct (Z.pos (fst (shl_align ma ea (Z.min ea eb)))
            + Z.pos (fst (shl_align mb eb (Z.min ea eb)))) as [|p|p] eqn:E; try lia.
  unfold binary_round.
  destruct (shl_align p _ _) as [mz ez].
  apply binary_round_aux_pos. lia.
Qed.

Lemma SFsqrt_pos (a : spec_float) :
  pos_or_zero a = true -> pos_or_zero (SFsqrt prec emax a) = true.
Proof.
  destruct a as [[|]|[|]| |[|] m e]; cbn [pos_or_zero]; try discriminate; intros _;
  try reflexivity.
  cbn [SFsqrt]. unfold SFsqrt_core_binary.
  match goal with
  | |- context [Z.sqrtrem ?n] =>
      pose proof (Z.sqrtrem_sqrt n) as Hs; pose proof (Z.sqrt_nonneg n) as Hn;
      destruct (Z.sqrtrem n) as [q r]
  end.
  cbn [fst] in Hs. apply binary_round_aux_pos. lia.
Qed.

(** a finite number divided by a number that is neither a NaN nor a
    zero is not a NaN *)
Lemma SFdiv_not_nan (a b : spec_float) :
  is_finite a = true ->
  match b with S754_nan | S754_zero _ => False | _ => True end ->
  is_nan (SFdiv prec emax a b) = false.
Proof.
  destruct a as [sa|sa| |sa ma ea]; cbn [is_finite]; try discriminate; intros _;
  destruct b as [sb|sb| |sb mb eb]; try contradiction; intros _; try reflexivity.
  cbn [SFdiv]. unfold SFdiv_core_binary.
  match goal with
  | |- context [Z.div_eucl ?n ?d] =>
      assert (Hq : 0 <= fst (Z.div_eucl n d));
      [ change (fst (Z.div_eucl n d)) with (n / d); apply Z.div_pos; [|lia]
      | destruct (Z.div_eucl n d) as [q r] ]
  end.
  - destruct (ea - eb - _) as [|p|p]; try lia. apply Z.shiftl_nonneg. lia.
  - cbn [fst] in Hq. now apply binary_round_aux_not_nan.
Qed.

Lemma pos_or_zero_not_nan (a : spec_float) : pos_or_zero a = true -> is_nan a = false.
Proof. destruct a as [[|]|[|]| |[|] m e]; cbn; congruence. Qed.

Lemma is_finite_not_nan (a : spec_float) : is_finite a = true -> is_nan a = false.
Proof. destruct a; cbn; congruence. Qed.

(** what a true comparison tells about its larger side *)
Lemma SFltb_pos_right (c a : spec_float) :
  pos_or_zero c = true -> SFltb c a = true ->
  match a with S754_nan | S754_zero _ => False | _ => True end.
Proof.
  unfold SFltb.
  destruct c as [[|]|[|]| |[|] mc ec]; cbn [pos_or_zero]; try discriminate; intros _;
  destruct a as [sa|sa| |sa ma ea]; cbn [SFcompare]; try discriminate; auto.
Qed.
Lemma binary_normalize_not_nan (m e : Z) (s : bool) :
  is_nan (binary_normalize prec emax m e s) = false.
Proof.
  unfold binary_normalize, binary_round.
  destruct m as [|p|p]; [reflexivity | |];
    destruct (shl_align p e _) as [mz ez];
    apply binary_round_aux_not_nan; lia.
Qed.

(** the product of two finite numbers is not a NaN *)
Lemma SFmul_finite (a b : spec_float) :
  is_finite a = true -> is_finite b = true -> is_nan (SFmul prec emax a b) = false.
Proof.
  destruct a as [sa|sa| |sa ma ea]; cbn [is_finite]; try discriminate; intros _;
  destruct b as [sb|sb| |sb mb eb]; cbn [is_finite]; try discriminate; intros _;
  try reflexivity.
  cbn [SFmul]. apply binary_round_aux_not_nan. lia.
Qed.

(** nor is the product of a number that is not a NaN by a finite number
    other than zero *)
Lemma SFmul_not_nan (a b : spec_float) :
  is_nan a = false ->
  match b with S754_finite _ _ _ => True | _ => False end ->
  is_nan (SFmul prec emax a b) = false.
Proof.
  destruct a as [sa|sa| |sa ma ea]; cbn [is_nan]; try discriminate; intros _;
  destruct b as [sb|sb| |sb mb eb]; try contradiction; intros _; try reflexivity.
  cbn [SFmul]. apply binary_round_aux_not_nan. lia.
Qed.

(** a finite number times a zero is a zero *)
Lemma SFmul_zero_r (a : spec_float) (s : bool) :
  is_finite a = true -> is_finite (SFmul prec emax a (S754_zero s)) = true.
Proof.
  destruct a as [sa|sa| |sa ma ea]; cbn [is_finite]; try discriminate; reflexivity.
Qed.

(** a finite number plus a number that is not a NaN is not a NaN *)
Lemma SFadd_finite_l (a b : spec_float) :
  is_finite a = true -> is_nan b = false -> is_nan (SFadd prec emax a b) = false.
Proof.
  destruct a as [sa|sa| |sa ma ea]; cbn [is_finite]; try discriminate; intros _;
  destruct b as [sb|sb| |sb mb eb]; cbn [is_nan]; try discriminate; intros _;
  try reflexivity.
  - now destruct sa, sb.
  - cbn [SFadd]. apply binary_normalize_not_nan.
Qed.

(** a finite number plus a finite number that [SFmul_zero_r] gave is
    finite *)
Lemma SFadd_zero_r (a b : spec_float) :
  is_finite a = true ->
  match b with S754_zero _ => True | _ => False end ->
  is_finite (SFadd prec emax a b) = true.
Proof.
  destruct a as [sa|sa| |sa ma ea]; cbn [is_finite]; try discriminate; intros _;
  destruct b as [sb|sb| |sb mb eb]; try contradiction; intros _; try reflexivity.
  now destruct sa, sb.
Qed.

Lemma SFmul_zero_shape (a : spec_float) (s : bool) :
  is_finite a = true ->
  match SFmul prec emax a (S754_zero s) with S754_zero _ => True | _ => False end.
Proof.
  destruct a as [sa|sa| |sa ma ea]; cbn [is_finite]; try discriminate; intros _; exact I.
Qed.

(** one step of the integration [x + (v + g * dt) * dt] on finite
    numbers does not make a NaN *)
Lemma integrate_not_nan (x v g dt : spec_float) :
  is_finite x = true -> is_finite v = true -> is_finite g = true -> is_finite dt = true ->
  is_nan (SFadd prec emax x
            (SFmul prec emax (SFadd prec emax v (SFmul prec emax g dt)) dt)) = false.
Proof.
  intros Hx Hv Hg Hdt.
  apply SFadd_finite_l; [exact Hx|].
  destruct dt as [s|s| |s m e]; cbn [is_finite] in Hdt; try discriminate.
  - apply is_finite_not_nan, SFmul_zero_r, SFadd_zero_r; [exact Hv|].
    now apply SFmul_zero_shape.
  - apply SFmul_not_nan; [|exact I].
    apply SFadd_finite_l; [exact Hv|]. now apply SFmul_finite.
Qed.
End Rounding.

(** *** Comparisons of floats *)

Lemma SFcompare_antisym (a b : spec_float) :
  SFcompare b a = option_map CompOpp (SFcompare a b).
Proof.
  destruct a as [sa|sa| |sa ma ea], b as [sb|sb| |sb mb eb];
    try destruct sa; try destruct sb; cbn [SFcompare option_map CompOpp]; try reflexivity.
  - rewrite (Z.compare_antisym eb ea).
    destruct (eb ?= ea); cbn [CompOpp]; try reflexivity.
    rewrite (Pos.compare_cont_antisym ma mb Eq). reflexivity.
  - rewrite (Z.compare_antisym eb ea).
    destruct (eb ?= ea); cbn [CompOpp]; try reflexivity.
    rewrite (Pos.compare_cont_antisym ma mb Eq). reflexivity.
Qed.

Lemma SFcompare_numbers (a b : spec_float) :
  is_nan a = false -> is_nan b = false -> SFcompare a b <> None.
Proof.
  destruct a, b; cbn [is_nan SFcompare]; congruence.
Qed.

(** on numbers, [a < b] false means [b <= a] *)
Lemma SFltb_false_SFleb (a b : spec_float) :
  is_nan a = false -> is_nan b = false -> SFltb a b = false -> SFleb b a = true.
Proof.
  intros Ha Hb. pose proof (SFcompare_numbers a b Ha Hb) as Hn.
  unfold SFltb, SFleb. rewrite (SFcompare_antisym a b).
  destruct (SFcompare a b) as [[| |]|]; cbn [option_map CompOpp]; congruence.
Qed.

Lemma SFltb_SFleb (a b : spec_float) : SFltb a b = true -> SFleb a b = true.
Proof.
  unfold SFltb, SFleb. destruct (SFcompare a b) as [[| |]|]; congruence.
Qed.

Section Binary32.
Variables sin32 cos32 : f32 -> f32.
#[local] Instance F32 : FloatOps f32 := F32_ops sin32 cos32.

(** the literal [0.0001f] *)
Lemma lit_threshold : f32_lit (1 # 10000) = S754_finite false 13743895 (-37).
Proof. vm_compute. reflexivity. Qed.

Lemma length_pos (v : Main.Vec3.t f32) :
  all_finite v = true -> pos_or_zero (Main.Vec3.length v) = true.
Proof.
  unfold all_finite, Main.Vec3.length. intros H.
  apply andb_true_iff in H. destruct H as [H Hz].
  apply andb_true_iff in H. destruct H as [Hx Hy].
  cbn [sqrt fadd fmul F32 F32_ops].
  apply SFsqrt_pos. repeat apply SFadd_pos; now apply SFmul_square_pos.
Qed.

Lemma obj_length_pos (v : ObjModel.Vec3.t f32) :
  obj_all_finite v = true -> pos_or_zero (ObjModel.Vec3.length v) = true.
Proof.
  unfold obj_all_finite, ObjModel.Vec3.length. intros H.
  apply andb_true_iff in H. destruct H as [H Hz].
  apply andb_true_iff in H. destruct H as [Hx Hy].
  cbn [sqrt fadd fmul F32 F32_ops].
  apply SFsqrt_pos. repeat apply SFadd_pos; now apply SFmul_square_pos.
Qed.

Lemma SFabs_shape (s : f32) :
  match SFabs s with S754_nan | S754_zero _ => False | _ => True end ->
  match s with S754_nan | S754_zero _ => False | _ => True end.
Proof. destruct s; cbn; auto. Qed.

(** [Vec3::operator/] of [main.cpp] *)
Lemma div_no_nan (v : Main.Vec3.t f32) (s : f32) :
  all_finite v = true -> has_nan (Main.Vec3.div v s) = false.
Proof.
  unfold all_finite, has_nan, Main.Vec3.div. intros H.
  apply andb_true_iff in H. destruct H as [H Hz].
  apply andb_true_iff in H. destruct H as [Hx Hy].
  cbn [flt fabs flit fdiv of_int F32 F32_ops].
  destruct (SFltb (f32_lit (1 # 10000)) (SFabs s)) eqn:E; cbn [Main.Vec3.x Main.Vec3.y Main.Vec3.z].
  - rewrite lit_threshold in E.
    pose proof (SFabs_shape s
                  (SFltb_pos_right (S754_finite false 13743895 (-37)) _ eq_refl E)) as Hs.
    rewrite !(SFdiv_not_nan prec32 emax32) by assumption. reflexivity.
  - reflexivity.
Qed.

(** [Vec3::normalize] of [main.cpp] *)
Lemma normalize_no_nan (v : Main.Vec3.t f32) :
  all_finite v = true -> has_nan (Main.Vec3.normalize v) = false.
Proof.
  intros H. unfold Main.Vec3.normalize. cbv zeta.
  destruct (flt (flit (1 # 10000)) (Main.Vec3.length v)).
  - now apply div_no_nan.
  - reflexivity.
Qed.

(** [Vec3::normalize] of [load_obj_model.cpp] *)
Lemma obj_normalize_no_nan (v : ObjModel.Vec3.t f32) :
  obj_all_finite v = true -> obj_has_nan (ObjModel.Vec3.normalize v) = false.
Proof.
  intros H. unfold ObjModel.Vec3.normalize. cbv zeta.
  cbn [flt of_int F32 F32_ops].
  destruct (SFltb (f32_of_Z 0) (ObjModel.Vec3.length v)) eqn:E.
  - assert (Hl : match ObjModel.Vec3.length v with
                 | S754_nan | S754_zero _ => False | _ => True end)
      by (apply (SFltb_pos_right (f32_of_Z 0)); [reflexivity | exact E]).
    unfold obj_all_finite in H.
    apply andb_true_iff in H. destruct H as [H Hz].
    apply andb_true_iff in H. destruct H as [Hx Hy].
    unfold obj_has_nan, ObjModel.Vec3.div.
    cbn [ObjModel.Vec3.x ObjModel.Vec3.y ObjModel.Vec3.z fdiv F32 F32_ops].
    rewrite !(SFdiv_not_nan prec32 emax32) by assumption. reflexivity.
  - unfold obj_all_finite in H. unfold obj_has_nan.
    apply andb_true_iff in H. destruct H as [H Hz].
    apply andb_true_iff in H. destruct H as [Hx Hy].
    rewrite !is_finite_not_nan by assumption. reflexivity.
Qed.

(** C4, as the code has it, on binary32.  For a vector whose components
    are finite: [operator/] of [main.cpp] gives the zero vector unless
    [fabs(scalar) > 0.0001], and no NaN for any scalar (a NaN and an
    infinity included); [normalize] of [main.cpp] gives [(0, 1, 0)]
    unless [length > 0.0001], and no NaN; [normalize] of
    [load_obj_model.cpp] gives the vector itself unless [length > 0],
    and no NaN. *)
Theorem degenerate_inputs_have_fallbacks :
  forall (v : Main.Vec3.t f32) (w : ObjModel.Vec3.t f32) (s : f32),
    all_finite v = true ->
    obj_all_finite w = true ->
    has_nan (Main.Vec3.div v s) = false /\
    (flt (flit (1 # 10000)) (fabs s) = false ->
     Main.Vec3.div v s = Main.Vec3.mk (S754_zero false) (S754_zero false) (S754_zero false)) /\
    has_nan (Main.Vec3.normalize v) = false /\
    (flt (flit (1 # 10000)) (Main.Vec3.length v) = false ->
     Main.Vec3.normalize v
     = Main.Vec3.mk (S754_zero false) (S754_finite false 8388608 (-23)) (S754_zero false)) /\
    obj_has_nan (ObjModel.Vec3.normalize w) = false /\
    (flt (of_int 0) (ObjModel.Vec3.length w) = false -> ObjModel.Vec3.normalize w = w).
Proof.
  intros v w s Hv Hw. repeat split.
  - now apply div_no_nan.
  - intros E. unfold Main.Vec3.div. rewrite E. reflexivity.
  - now apply normalize_no_nan.
  - intros E. unfold Main.Vec3.normalize. cbv zeta. rewrite E. reflexivity.
  - now apply obj_normalize_no_nan.
  - intros E. unfold ObjModel.Vec3.normalize. cbv zeta. rewrite E. reflexivity.
Qed.
(** [glm::clamp] of a number, an infinity included, lies within its
    bounds *)
Lemma glm_clamp_bounds_binary32 (v lo hi : f32) :
  is_nan v = false -> is_nan lo = false -> is_nan hi = false ->
  SFleb lo hi = true ->
  SFleb lo (Viewport.glm_clamp v lo hi) = true /\
  SFleb (Viewport.glm_clamp v lo hi) hi = true.
Proof.
  intros Hv Hlo Hhi Hle.
  assert (Hhl : SFltb hi lo = false).
  { unfold SFltb, SFleb in *. rewrite (SFcompare_antisym lo hi).
    destruct (SFcompare lo hi) as [[| |]|]; cbn [option_map CompOpp]; congruence. }
  assert (Hrefl : forall a, is_nan a = false -> SFleb a a = true).
  { intros a Ha. apply SFltb_false_SFleb; [exact Ha | exact Ha |].
    unfold SFltb. pose proof (SFcompare_antisym a a) as E.
    destruct (SFcompare a a) as [[| |]|]; cbn [option_map CompOpp] in E; congruence. }
  unfold Viewport.glm_clamp, Viewport.glm_min, Viewport.glm_max.
  cbn [flt F32 F32_ops].
  destruct (SFltb v lo) eqn:E1.
  - rewrite Hhl. split; [now apply Hrefl | exact Hle].
  - destruct (SFltb hi v) eqn:E2.
    + split; [exact Hle | now apply Hrefl].
    + split; now apply SFltb_false_SFleb.
Qed.

(** the three clamps of [MetaBall::update], on a position that holds no
    NaN *)
Lemma keepWithinBounds_binary32 (b : Main.MetaBall.t f32) :
  is_nan (Main.Vec3.x (Main.MetaBall.position b)) = false ->
  is_nan (Main.Vec3.z (Main.MetaBall.position b)) = false ->
  let b' := Main.MetaBall.keepWithinBounds b in
  SFleb (f32_of_Z (-10)) (Main.Vec3.x (Main.MetaBall.position b')) = true /\
  SFleb (Main.Vec3.x (Main.MetaBall.position b')) (f32_of_Z 10) = true /\
  SFleb (f32_of_Z (-50)) (Main.Vec3.z (Main.MetaBall.position b')) = true.
Proof.
  intros Hx Hz. unfold Main.MetaBall.keepWithinBounds. cbv zeta.
  cbn [flt of_int F32 F32_ops].
  destruct b as [[px py pz] vel acc r col ra rs m el h al].
  cbn [Main.MetaBall.position Main.Vec3.x Main.Vec3.z] in Hx, Hz |- *.
  destruct (SFltb px (f32_of_Z (-10))) eqn:E1;
    cbn [Main.MetaBall.position Main.MetaBall.set_position Main.Vec3.set_x Main.Vec3.x
         Main.Vec3.y Main.Vec3.z].
  - change (SFltb (f32_of_Z 10) (f32_of_Z (-10))) with false. cbv iota.
    cbn [Main.MetaBall.position Main.MetaBall.set_position Main.Vec3.set_x Main.Vec3.x
         Main.Vec3.y Main.Vec3.z Main.Vec3.set_z].
    destruct (SFltb pz (f32_of_Z (-50))) eqn:E3;
      cbn [Main.MetaBall.position Main.MetaBall.set_position Main.Vec3.set_z Main.Vec3.x
           Main.Vec3.z].
    + repeat split; reflexivity.
    + repeat split; try reflexivity. now apply SFltb_false_SFleb.
  - destruct (SFltb (f32_of_Z 10) px) eqn:E2;
      cbn [Main.MetaBall.position Main.MetaBall.set_position Main.Vec3.set_x Main.Vec3.x
           Main.Vec3.y Main.Vec3.z];
      destruct (SFltb pz (f32_of_Z (-50))) eqn:E3;
      cbn [Main.MetaBall.position Main.MetaBall.set_position Main.Vec3.set_z Main.Vec3.x
           Main.Vec3.z];
      repeat split; try reflexivity; now apply SFltb_false_SFleb.
Qed.

(** The bounds of the ball on binary32.  For a live ball whose position
    and velocity are finite, a finite gravity and a finite step,
    [MetaBall::update] leaves [-10 <= position.x <= 10] and
    [position.z >= -50]: the integration may overflow to an infinity,
    which the clamps bring back, but it makes no NaN. *)
Lemma update_keeps_ball_in_bounds_binary32 :
  forall (deltaTime : f32) (gravity : Main.Vec3.t f32) (b : Main.MetaBall.t f32),
    Main.MetaBall.isAlive b = true ->
    all_finite (Main.MetaBall.position b) = true ->
    all_finite (Main.MetaBall.velocity b) = true ->
    all_finite gravity = true ->
    is_finite deltaTime = true ->
    let b' := Main.MetaBall.update deltaTime gravity b in
    SFleb (f32_of_Z (-10)) (Main.Vec3.x (Main.MetaBall.position b')) = true /\
    SFleb (Main.Vec3.x (Main.MetaBall.position b')) (f32_of_Z 10) = true /\
    SFleb (f32_of_Z (-50)) (Main.Vec3.z (Main.MetaBall.position b')) = true.
Proof.
  intros dt g b Hal Hp Hv Hg Hdt. unfold Main.MetaBall.update. rewrite Hal. cbn [negb].
  unfold all_finite in Hp, Hv, Hg.
  apply andb_true_iff in Hp. destruct Hp as [Hp Hpz].
  apply andb_true_iff in Hp. destruct Hp as [Hpx Hpy].
  apply andb_true_iff in Hv. destruct Hv as [Hv Hvz].
  apply andb_true_iff in Hv. destruct Hv as [Hvx Hvy].
  apply andb_true_iff in Hg. destruct Hg as [Hg Hgz].
  apply andb_true_iff in Hg. destruct Hg as [Hgx Hgy].
  apply keepWithinBounds_binary32.
  - unfold Main.MetaBall.groundCollision.
    match goal with |- context [if ?c then _ else _] => destruct c end;
      unfold Main.MetaBall.rotate; cbv zeta;
      match goal with |- context [if ?c then _ else _] => destruct c end;
      cbn [Main.MetaBall.position Main.MetaBall.velocity Main.MetaBall.acceleration
           Main.MetaBall.set_position Main.MetaBall.set_velocity
           Main.MetaBall.set_acceleration Main.MetaBall.set_rotationAngle
           Main.MetaBall.integrate Main.Vec3.add Main.Vec3.mul Main.Vec3.set_y Main.Vec3.x
           fadd fmul F32 F32_ops];
      now apply integrate_not_nan.
  - unfold Main.MetaBall.groundCollision.
    match goal with |- context [if ?c then _ else _] => destruct c end;
      unfold Main.MetaBall.rotate; cbv zeta;
      match goal with |- context [if ?c then _ else _] => destruct c end;
      cbn [Main.MetaBall.position Main.MetaBall.velocity Main.MetaBall.acceleration
           Main.MetaBall.set_position Main.MetaBall.set_velocity
           Main.MetaBall.set_acceleration Main.MetaBall.set_rotationAngle
           Main.MetaBall.integrate Main.Vec3.add Main.Vec3.mul Main.Vec3.set_y Main.Vec3.z
           fadd fmul F32 F32_ops];
      now apply integrate_not_nan.
Qed.
End Binary32.

(** ** Concrete runs, continued *)

Section MoreRuns.
#[local] Existing Instance Q_eval.
#[local] Existing Instance F32_eval.


(** C4, counterexample.  In [load_obj_model.cpp] the zero vector divided
    by zero is three NaN; in [main.cpp] the vector [(+infinity, 0, 0)]
    has the length [+infinity], and its first component normalizes to
    [infinity / infinity], a NaN. *)
Lemma no_nan_counterexample :
  ~ no_nan_claim /\
  obj_has_nan (ObjModel.Vec3.div
                 (ObjModel.Vec3.mk (S754_zero false) (S754_zero false) (S754_zero false))
                 (S754_zero false)) = true /\
  has_nan (Main.Vec3.normalize
             (Main.Vec3.mk (S754_infinity false) (S754_zero false) (S754_zero false))) = true.
Proof.
  split; [|split; vm_compute; reflexivity].
  intros H.
  destruct (H (Main.Vec3.mk (S754_zero false) (S754_zero false) (S754_zero false))
              (ObjModel.Vec3.mk (S754_zero false) (S754_zero false) (S754_zero false))
              (S754_zero false)) as (_ & _ & Hd & _).
  vm_compute in Hd. discriminate Hd.
Qed.
End MoreRuns.

(** ** The theorems at work on concrete inputs *)

Section Witnesses.
#[local] Existing Instance Q_eval.
#[local] Existing Instance F32_eval.
#[local] Existing Instance fixed_draws.



Lemma identity_is_neutral_witness :
  List.length sample_matrix = 16%nat /\
  Forall2 Qeq (Main.Mat4.mul Main.Mat4.identity sample_matrix) sample_matrix /\
  Forall2 Qeq (Main.Mat4.mul sample_matrix Main.Mat4.identity) sample_matrix.
Proof.
  split; [reflexivity|].
  apply (identity_is_neutral Qsqrt_floor (fun a => a) (fun _ => 1%Q)).
  reflexivity.
Defined.

Lemma generators_well_indexed_witness :
  3 <= 16 /\
  well_indexed (Main.generateCube (F := Q)) /\
  well_indexed (Main.generatePyramid (F := Q)) /\
  well_indexed (Main.generateCylinder (F := Q) 16).
Proof.
  split; [lia|]. apply generators_well_indexed. lia.
Defined.


Lemma Qeq_refl_eq (a b : Q) : a = b -> (a == b)%Q.
Proof. intros H. rewrite H. apply Qeq_refl. Defined.

Lemma score_stays_non_negative_witness :
  (0 <= Main.Game.score (fst (Main.Game.update (1 # 100)%Q (Main.Game.new tt))))%Q.
Proof.
  apply (@score_stays_non_negative Qsqrt_floor (fun a => a) (fun _ => 1%Q) unit fixed_draws).
  - left. apply reach_new.
  - apply (@new_core Qsqrt_floor (fun a => a) (fun _ => 1%Q) unit fixed_draws).
  - apply Qle_bool_iff. reflexivity.
  - pose proof (@new_core Qsqrt_floor (fun a => a) (fun _ => 1%Q) unit fixed_draws tt)
      as (_ & Hs & _).
    apply Qle_lteq. right. symmetry. exact (Qeq_refl_eq _ _ Hs).
Defined.



Lemma degenerate_inputs_have_fallbacks_witness :
  has_nan (Main.Vec3.div one_two_three (S754_zero false)) = false /\
  has_nan (Main.Vec3.normalize one_two_three) = false /\
  obj_has_nan (ObjModel.Vec3.normalize obj_origin) = false.
Proof.
  destruct (degenerate_inputs_have_fallbacks (fun a => a) (fun _ => f32_of_Z 1)
              one_two_three obj_origin (S754_zero false) eq_refl eq_refl)
    as (H1 & _ & H2 & _ & H3 & _).
  exact (conj H1 (conj H2 H3)).
Defined.

Lemma spheres_well_indexed_witness :
  0 <= 16 /\ 0 <= 16 /\
  well_indexed (Main.generateSphere (F := Q) 16 16) /\
  well_indexed (Main.generateTreeFoliage (F := Q) 16).
Proof.
  split; [lia|]. split; [lia|].
  destruct (@spheres_well_indexed Q Q_eval 16 16 ltac:(lia) ltac:(lia))
    as (H1 & _ & _ & H2 & _).
  exact (conj H1 H2).
Defined.

Lemma trunk_and_blade_well_indexed_witness :
  0 <= 8 /\ well_indexed (Main.generateTreeTrunk (F := Q) 8).
Proof.
  split; [lia|].
  destruct (@trunk_and_blade_well_indexed Q Q_eval 8 ltac:(lia)) as (H1 & _).
  exact H1.
Defined.

Lemma terrain_mesh_size_witness :
  1 <= Main.Terrain.width (ramp (F := Q)) /\ 1 <= Main.Terrain.depth (ramp (F := Q)) /\
  Z.of_nat (List.length (Main.Mesh.vertices (Main.Terrain.generateMesh (ramp (F := Q)))))
  = 6 * ((100 - 1) * (200 - 1)).
Proof.
  split; [cbn; lia|]. split; [cbn; lia|].
  destruct (@terrain_mesh_size Q Q_eval ramp ltac:(cbn; lia) ltac:(cbn; lia)) as (H1 & _).
  exact H1.
Defined.

Lemma normalize_is_unit_witness :
  let v := Main.Vec3.mk 3%Q 4%Q 0%Q in
  (Qsqrt_floor (Main.Vec3.lengthSquared v) * Qsqrt_floor (Main.Vec3.lengthSquared v)
   == Main.Vec3.lengthSquared v)%Q /\
  (Main.Vec3.lengthSquared (Main.Vec3.normalize v) == 1)%Q.
Proof.
  cbv zeta. split; [reflexivity|].
  apply (normalize_is_unit Qsqrt_floor (fun a => a) (fun _ => 1%Q)). reflexivity.
Defined.

Lemma mul_is_associative_witness :
  List.length sample_matrix = 16%nat /\
  Forall2 Qeq (Main.Mat4.mul (Main.Mat4.mul sample_matrix sample_matrix) sample_matrix)
              (Main.Mat4.mul sample_matrix (Main.Mat4.mul sample_matrix sample_matrix)).
Proof.
  split; [reflexivity|].
  apply (mul_is_associative Qsqrt_floor (fun a => a) (fun _ => 1%Q)); reflexivity.
Defined.

Lemma getHeight_zero_outside_witness :
  (0 < Main.Terrain.gridSize (ramp (F := Q)))%Q /\
  (inject_Z (Main.Terrain.width (ramp (F := Q)) - 1) * Main.Terrain.gridSize (ramp (F := Q))
   <= 100 + inject_Z (Z.quot (Main.Terrain.width (ramp (F := Q))) 2))%Q /\
  Main.Terrain.getHeight ramp 100%Q 0%Q = 0%Q.
Proof.
  split; [reflexivity|]. split; [apply Qle_bool_iff; reflexivity|].
  apply (getHeight_zero_outside Qsqrt_floor (fun a => a) (fun _ => 1%Q) ramp 100%Q 0%Q).
  - reflexivity.
  - left. apply Qle_bool_iff. reflexivity.
Defined.

Lemma getHeight_at_node_witness :
  (0 < Main.Terrain.gridSize (ramp (F := Q)))%Q /\
  0 <= 50 < Main.Terrain.width (ramp (F := Q)) - 1 /\
  0 <= 100 < Main.Terrain.depth (ramp (F := Q)) - 1 /\
  (Main.Terrain.getHeight ramp 0%Q 0%Q == corner ramp 50 100)%Q.
Proof.
  split; [reflexivity|]. split; [cbn; lia|]. split; [cbn; lia|].
  apply (getHeight_at_node Qsqrt_floor (fun a => a) (fun _ => 1%Q) ramp 0%Q 0%Q 50 100).
  - reflexivity.
  - cbn. lia.
  - cbn. lia.
  - reflexivity.
  - reflexivity.
Defined.

Lemma fixed_draws_in_range : forall g : unit, (0 <= fst (dis (F := Q) g) < 1)%Q.
Proof. intros g. split; [apply Qle_bool_iff; reflexivity | reflexivity]. Defined.

Lemma road_is_flat_witness :
  (forall g : unit, 0 <= fst (dis (F := Q) g) < 1)%Q /\
  (-3 <= 0 < 3)%Q /\ (-100 <= 0 < 99)%Q /\
  (1 # 20 <= Main.Terrain.getHeight (fst (Main.Terrain.new 100 200 (flit 1) tt)) 0%Q 0%Q
   <= 3 # 20)%Q.
Proof.
  split; [exact fixed_draws_in_range|].
  split; [split; [apply Qle_bool_iff; reflexivity | reflexivity]|].
  split; [split; [apply Qle_bool_iff; reflexivity | reflexivity]|].
  apply (@road_is_flat Qsqrt_floor (fun a => a) (fun _ => 1%Q) unit fixed_draws
           fixed_draws_in_range tt 0%Q 0%Q).
  - split; [apply Qle_bool_iff; reflexivity | reflexivity].
  - split; [apply Qle_bool_iff; reflexivity | reflexivity].
Defined.

Lemma movement_keys_do_nothing_witness :
  In Main.GLFW_KEY_W
     [Main.GLFW_KEY_W; Main.GLFW_KEY_UP; Main.GLFW_KEY_S; Main.GLFW_KEY_DOWN;
      Main.GLFW_KEY_A; Main.GLFW_KEY_LEFT; Main.GLFW_KEY_D; Main.GLFW_KEY_RIGHT] /\
  Main.MetaBall.isAlive (Main.Game.player (sunk_game (F := Q))) = true /\
  Main.Game.update (1 # 100)%Q
    (Main.Game.handleInput Main.GLFW_KEY_W Main.GLFW_PRESS sunk_game, tt)
  = Main.Game.update (1 # 100)%Q (sunk_game, tt).
Proof.
  split; [left; reflexivity|]. split; [reflexivity|].
  apply (@movement_keys_do_nothing Qsqrt_floor (fun a => a) (fun _ => 1%Q) unit fixed_draws).
  - left. reflexivity.
  - reflexivity.
Defined.

Lemma playing_means_alive_witness :
  Main.Game.currentState (fst (Main.Game.update (1 # 100)%Q (sunk_game, tt)))
  = Main.Game.PLAYING /\
  Main.MetaBall.isAlive
    (Main.Game.player (fst (Main.Game.update (1 # 100)%Q (sunk_game, tt)))) = true.
Proof.
  assert (H : Main.Game.currentState (fst (Main.Game.update (1 # 100)%Q (sunk_game, tt)))
              = Main.Game.PLAYING) by (vm_compute; reflexivity).
  split; [exact H|].
  exact (proj1 (@playing_means_alive Qsqrt_floor (fun a => a) (fun _ => 1%Q) unit fixed_draws
                  (1 # 100)%Q (sunk_game, tt) H)).
Defined.

Lemma scenery_on_the_road_witness :
  (forall g : unit, 0 <= fst (dis (F := Q) g) < 1)%Q /\
  let gm := fst (Main.Game.startGame (sunk_game, tt)) in
  Forall (fun o =>
            Main.Obstacle.isActive o = true /\
            (- (3 # 2) <= Main.Vec3.x (Main.Obstacle.position o) < 3 # 2)%Q /\
            (Main.Vec3.y (Main.Obstacle.position o) == 0)%Q /\
            (Main.Vec3.z (Main.Obstacle.position o) <= - (30))%Q /\
            (1 # 2 <= Main.Obstacle.width o < 3 # 2)%Q /\
            (1 # 2 <= Main.Obstacle.height o < 5 # 2)%Q /\
            (1 # 2 <= Main.Obstacle.depth o < 3 # 2)%Q /\
            (10 <= Main.Obstacle.damage o < 20)%Q)
         (Main.Game.obstacles gm) /\
  Forall (fun c =>
            (- (3) <= Main.Vec3.x c < 3)%Q /\ (1 <= Main.Vec3.y c < 3)%Q /\
            (Main.Vec3.z c <= - (20))%Q)
         (Main.Game.collectibles gm).
Proof.
  split; [exact fixed_draws_in_range|].
  apply (@scenery_on_the_road Qsqrt_floor (fun a => a) (fun _ => 1%Q) unit fixed_draws
           fixed_draws_in_range (sunk_game, tt)).
Defined.

Lemma trees_stand_off_the_terrain_witness :
  (forall g : unit, 0 <= fst (dis (F := Q) g) < 1)%Q /\
  let gm := fst (Main.Game.startGame (sunk_game, tt)) in
  Main.Terrain.width (Main.Game.terrain gm) = 100 /\
  Forall (fun t =>
            Main.Vec3.y (Main.Tree.position t) = 0%Q /\
            (102 <= Main.Vec3.x (Main.Tree.position t)
             \/ Main.Vec3.x (Main.Tree.position t) <= - (102))%Q)
         (Main.Game.trees gm) /\
  Forall (fun p =>
            (Main.Vec3.y p == 1 # 10)%Q /\
            (101 <= Main.Vec3.x p \/ Main.Vec3.x p <= - (101))%Q)
         (Main.Game.grassPatches gm).
Proof.
  split; [exact fixed_draws_in_range|].
  apply (@trees_stand_off_the_terrain Qsqrt_floor (fun a => a) (fun _ => 1%Q) unit
           fixed_draws fixed_draws_in_range (sunk_game, tt)).
Defined.

Lemma far_game_is_far : @scenery_is_far Q_eval far_game.
Proof.
  unfold scenery_is_far. repeat split; try discriminate; apply Qle_bool_iff; reflexivity.
Defined.

Lemma scenery_is_never_extended_witness :
  Main.Game.currentState (far_game (F := Q)) = Main.Game.PLAYING /\
  Main.MetaBall.isAlive (Main.Game.player (far_game (F := Q))) = true /\
  @scenery_is_far Q_eval far_game /\
  Main.Game.trees (fst (Main.Game.update (1 # 100)%Q (far_game, tt)))
  = Main.Game.trees far_game.
Proof.
  split; [reflexivity|]. split; [reflexivity|]. split; [exact far_game_is_far|].
  destruct (@scenery_is_never_extended Qsqrt_floor (fun a => a) (fun _ => 1%Q) unit
              fixed_draws (1 # 100)%Q far_game tt eq_refl eq_refl far_game_is_far)
    as (_ & H & _).
  exact H.
Defined.

Lemma frame_advances_by_time_witness :
  Main.Game.currentState (sunk_game (F := Q)) = Main.Game.PLAYING /\
  (Main.Game.distance (fst (Main.Game.update (1 # 100)%Q (sunk_game, tt)))
   == Main.Game.distance sunk_game + Main.Game.gameSpeed sunk_game * (1 # 100))%Q.
Proof.
  split; [reflexivity|].
  exact (proj1 (@frame_advances_by_time Qsqrt_floor (fun a => a) (fun _ => 1%Q) unit
                  fixed_draws (1 # 100)%Q sunk_game tt eq_refl)).
Defined.

Lemma pause_freezes_the_game_witness :
  Main.Game.currentState (sunk_game (F := Q)) = Main.Game.PLAYING /\
  Main.Game.gamePaused (sunk_game (F := Q)) = false /\
  Main.Game.togglePause (Main.Game.togglePause sunk_game) = sunk_game (F := Q).
Proof.
  split; [reflexivity|]. split; [reflexivity|].
  destruct (@pause_freezes_the_game Qsqrt_floor (fun a => a) (fun _ => 1%Q) unit
              fixed_draws sunk_game tt eq_refl eq_refl) as (_ & _ & H).
  exact H.
Defined.

Lemma camera_follows_the_ball_witness :
  (0 <= 1 # 100 <= 1 # 5)%Q /\
  (Main.Vec3.y (Main.Game.cameraPosition (Main.Game.updateCamera (1 # 100)%Q sunk_game))
   == Main.Vec3.y (Main.Game.cameraTarget (Main.Game.updateCamera (1 # 100)%Q sunk_game))
      + 4)%Q.
Proof.
  assert (H : (0 <= 1 # 100 <= 1 # 5)%Q)
    by (split; apply Qle_bool_iff; reflexivity).
  split; [exact H|].
  destruct (@camera_follows_the_ball Qsqrt_floor (fun a => a) (fun _ => 1%Q)
              (1 # 100)%Q sunk_game H) as (_ & _ & _ & H4).
  exact H4.
Defined.

Lemma triangle_is_loaded :
  exists mesh' : ObjModel.Mesh.t Q,
    ObjModel.OBJLoader.loadOBJ (F := Q) scan_digit 0%Q one_triangle "triangle.obj"%string empty_mesh
    = Ok (true, mesh').
Proof. eexists. vm_compute. reflexivity. Defined.

Lemma loadOBJ_success_is_well_indexed_witness :
  exists mesh' : ObjModel.Mesh.t Q,
    ObjModel.OBJLoader.loadOBJ (F := Q) scan_digit 0%Q one_triangle "triangle.obj"%string empty_mesh
    = Ok (true, mesh') /\
    triangle_list (List.length (ObjModel.Mesh.vertices mesh')) (ObjModel.Mesh.indices mesh').
Proof.
  destruct triangle_is_loaded as [mesh' H]. exists mesh'. split; [exact H|].
  destruct (@loadOBJ_success_is_well_indexed Q Q_eval scan_digit 0%Q one_triangle
              "triangle.obj"%string empty_mesh mesh' H) as (_ & H2 & _).
  exact H2.
Defined.


End Witnesses.
